(** * ci-queue: the DynamoDB-backed workflow queue of
      [.github/actions/ci-queue/ci-queue.py]

    A shallow embedding of the queue client ([enqueue_and_wait], [dequeue]
    and their helpers) over an explicit model of what the script talks to:
    one DynamoDB table, the wall clock, [time.sleep], the [gh] command line
    tool and standard output.  The script is sequential Python; the other
    workflows that share the table, the TTL reaper, the passing of time and
    the failures of the services are an oracle (a list of [fate]s, one per
    external call) over which the theorems quantify. *)

From Stdlib Require Import ZArith String Ascii List Lia Permutation Sorted.
From stdpp Require Import base option list sorting gmap strings.

Local Open Scope string_scope.
Local Open Scope Z_scope.

(** ** Time

    A [datetime] is an aware UTC instant, counted in microseconds since the
    epoch (the resolution of Python's [datetime]).  [time.time()] is read
    off the same wall clock, in the same unit: the floats of the script are
    taken at microsecond resolution. *)

Definition datetime := Z.

Record timedelta := { days : Z; seconds : Z; microseconds : Z }.

(** [timedelta(hours=h, minutes=m)], normalised as Python does: the
    [seconds] field keeps what is left after whole days. *)
Definition timedelta_of (hours minutes : Z) : timedelta :=
  let s := hours * 3600 + minutes * 60 in
  {| days := s / 86400; seconds := s mod 86400; microseconds := 0 |}.

Definition total_microseconds (d : timedelta) : Z :=
  (days d * 86400 + seconds d) * 1000000 + microseconds d.

Definition POLL_INTERVAL : timedelta := timedelta_of 0 1.
Definition MAX_QUEUE_DUR : timedelta := timedelta_of 5 30.
Definition RUNNING_TTL : timedelta := timedelta_of 8 0.
Definition WAITING_TTL : timedelta := timedelta_of 0 10.

(** [now + delta] *)
Definition datetime_add (now : datetime) (delta : timedelta) : datetime :=
  now + total_microseconds delta.

(** [int(d.timestamp())]: whole seconds, truncated towards zero. *)
Definition int_timestamp (d : datetime) : Z := Z.quot d 1000000.

(** [int(t - start_time)] on two readings of [time.time()]. *)
Definition int_elapsed (t start_time : Z) : Z := Z.quot (t - start_time) 1000000.

(** [d.isoformat()] of an aware UTC datetime:
    [YYYY-MM-DDTHH:MM:SS[.ffffff]+00:00], the fraction left out when it is
    zero.  The date is the proleptic Gregorian one. *)
Definition digit (n : Z) : ascii := ascii_of_nat (48 + Z.to_nat n).

Fixpoint zero_pad (width : nat) (n : Z) : string :=
  match width with
  | O => ""
  | S w => zero_pad w (n / 10) ++ String (digit (n mod 10)) ""
  end.

Definition civil_from_days (z : Z) : Z * Z * Z :=
  let z := z + 719468 in
  let era := z / 146097 in
  let doe := z - era * 146097 in
  let yoe := (doe - doe / 1460 + doe / 36524 - doe / 146096) / 365 in
  let doy := doe - (365 * yoe + yoe / 4 - yoe / 100) in
  let mp := (5 * doy + 2) / 153 in
  let d := doy - (153 * mp + 2) / 5 + 1 in
  let m := if mp <? 10 then mp + 3 else mp - 9 in
  let y := yoe + era * 400 + (if m <=? 2 then 1 else 0) in
  (y, m, d).

Definition isoformat (now : datetime) : string :=
  let day := now / 86400000000 in
  let us := now mod 86400000000 in
  let '(y, m, d) := civil_from_days day in
  let secs := us / 1000000 in
  let frac := us mod 1000000 in
  zero_pad 4 y ++ "-" ++ zero_pad 2 m ++ "-" ++ zero_pad 2 d ++ "T"
  ++ zero_pad 2 (secs / 3600) ++ ":" ++ zero_pad 2 (secs / 60 mod 60)
  ++ ":" ++ zero_pad 2 (secs mod 60)
  ++ (if frac =? 0 then "" else "." ++ zero_pad 6 frac)
  ++ "+00:00".

(** ** Items

    A DynamoDB item is a dict from attribute names to typed values; the
    script uses the string type ['S'] and the number type ['N'].  A number
    travels as [str(n)] and is compared as a number by the table, so [AttrN]
    carries the integer. *)

Inductive attr :=
| AttrS (s : string)
| AttrN (n : Z).

#[global] Instance attr_eq_dec : EqDecision attr.
Proof. solve_decision. Defined.

Abbreviation item := (gmap string attr).

(** ** Exceptions, and the outcome of a computation *)

Inductive exn :=
| ClientError (code : string)
    (* botocore.exceptions.ClientError, with response['Error']['Code'] *)
| BotoCoreError (name : string)
    (* an exception of botocore.exceptions that is no ClientError, of the
       class [name]: EndpointConnectionError, ReadTimeoutError,
       NoCredentialsError, ParamValidationError, ... *)
| SystemExit (status : Z)
| UnboundLocalError (name : string)
| KeyError (key : string)
| IndexError
| CalledProcessError
| FileNotFoundError.

Inductive result (A : Type) :=
| Ok (a : A)
| Raise (e : exn).
Arguments Ok {A} a.
Arguments Raise {A} e.

(** [it[name]['S']] *)
Definition item_S (it : item) (name : string) : result string :=
  match it !! name with
  | None => Raise (KeyError name)
  | Some (AttrS s) => Ok s
  | Some (AttrN _) => Raise (KeyError "S")
  end.

(** ** The world outside the script *)

(** How a [subprocess.run(..., check=True)] of [gh] ends. *)
Inductive gh_result :=
| GhCompleted       (* exit status 0 *)
| GhNonZeroExit     (* CalledProcessError *)
| GhNotInstalled.   (* FileNotFoundError *)

(** How a call of boto3 fails: DynamoDB answers with an error, which boto3
    raises as a [ClientError] carrying the code of the answer; or there is
    no answer to speak of (no connection, a timeout, no credentials,
    parameters that do not validate), and boto3 raises an exception of
    [botocore.exceptions] that is not a [ClientError]. *)
Inductive failure :=
| ErrorResponse (code : string)
| NoResponse (name : string).

Definition raised (x : failure) : exn :=
  match x with
  | ErrorResponse code => ClientError code
  | NoResponse name => BotoCoreError name
  end.

(** What happens around one external call of the script: what the other
    writers of the table (other workflows, the TTL reaper) did to it since
    the previous call, how much the clock moved, whether and how a call of
    boto3 fails, how many rows a scan reads before DynamoDB ends its page
    ([None]: all of them), and how [gh] ends. *)
Record fate := {
  others : list item → list item;
  dt : Z;
  fault : option failure;
  page : option nat;
  gh : gh_result }.

Definition calm : fate :=
  {| others := λ t, t; dt := 0; fault := None; page := None; gh := GhCompleted |}.

(** The requests the script sends out. *)
Inductive call :=
| PutItem (TableName : string) (Item : item)
    (* ConditionExpression='attribute_not_exists(workflow_run_id)' *)
| Scan (TableName : string) (now_timestamp : Z)
    (* ConsistentRead, FilterExpression='#ttl > :now_timestamp' *)
| UpdateItem (TableName : string) (workflow_run_id : string) (new_ttl : Z)
    (* UpdateExpression='SET #ttl = :new_ttl' *)
| DeleteItem (TableName : string) (workflow_run_id : string)
| Sleep (secs : Z)
| Run (argv : list string).

(** The lines the script prints, one constructor per [print] statement,
    carrying the values it interpolates. *)
Inductive message :=
| MsgEnqueuing
| MsgTable (table_name : string)
| MsgWorkflowRun (workflow_run_id : string)
| MsgBlank
| MsgEnqueued (workflow_run_id : string)
| MsgAlreadyInQueue (workflow_run_id : string)
| MsgEnqueueFailed (e : exn)
| MsgApproachingTimeout (elapsed : Z)
| MsgAttemptingRestart
| MsgRestartInitiated
| MsgRestartFailedExiting
| MsgNoRepoExiting
| MsgChecking (elapsed : Z)
| MsgNoWorkflows
| MsgQueue (ids : list string)
| MsgFirstInQueue (first_workflow_id : string)
| MsgQueuePosition (queue_position : Z)
| MsgAtFront
| MsgUpdatedTTL (secs : Z)
| MsgRetrying
| MsgNotOurTurn (secs : Z)
| MsgErrorChecking (e : exn)
| MsgRefreshed (workflow_run_id : string)
| MsgRefreshFailed (e : exn)
| MsgErrorUpdatingRunning (e : exn)
| MsgRemoving
| MsgRemoved
| MsgRemoveFailed (e : exn)
| MsgNoRepoSkipping
| MsgRestarting (workflow_run_id github_repo : string)
| MsgRestarted (workflow_run_id : string)
| MsgRestartFailed (e : exn)
| MsgErrorOutput
| MsgGhNotFound.

Record world := {
  table : list item;     (* the rows physically in the table, in scan order *)
  clock : Z;             (* the wall clock, microseconds since the epoch *)
  script : list fate;    (* what is still to happen, one fate per call *)
  calls : list call;     (* the requests sent so far, oldest first *)
  stdout : list message  (* the lines printed so far, oldest first *) }.

(** ** The monad of the script: state over the world, with exceptions *)

Definition M (A : Type) : Type := world → result A * world.

#[global] Instance M_ret : MRet M := λ A a w, (Ok a, w).

#[global] Instance M_bind : MBind M := λ A B f m w,
  match m w with
  | (Ok a, w') => f a w'
  | (Raise e, w') => (Raise e, w')
  end.

Definition raise {A} (e : exn) : M A := λ w, (Raise e, w).

(** A pure computation that may raise. *)
Definition lift {A} (r : result A) : M A := λ w, (r, w).

(** [try: body / except ...: handler]: [handler e] is [None] for the
    exceptions no [except] clause matches, which then propagate. *)
Definition try_except {A} (body : M A) (handler : exn → option (M A)) : M A :=
  λ w, match body w with
       | (Ok a, w') => (Ok a, w')
       | (Raise e, w') =>
           match handler e with
           | Some h => h w'
           | None => (Raise e, w')
           end
       end.

(** [except ClientError as e] *)
Definition except_ClientError {A} (h : exn → M A) (e : exn) : option (M A) :=
  match e with
  | ClientError _ => Some (h e)
  | _ => None
  end.

(** Every external call first lets the world move on by one fate; when the
    script has run out, nothing moves and nothing fails. *)
Definition upcoming (s : list fate) : fate :=
  match s with
  | [] => calm
  | f :: _ => f
  end.

Definition next_fate : M fate := λ w,
  let f := upcoming (script w) in
  (Ok f, {| table := others f (table w); clock := clock w + dt f;
            script := tail (script w); calls := calls w; stdout := stdout w |}).

Definition send (c : call) : M unit := λ w,
  (Ok tt, {| table := table w; clock := clock w; script := script w;
             calls := (calls w ++ [c])%list; stdout := stdout w |}).

Definition print (m : message) : M unit := λ w,
  (Ok tt, {| table := table w; clock := clock w; script := script w;
             calls := calls w; stdout := (stdout w ++ [m])%list |}).

Definition read_clock : M Z := λ w, (Ok (clock w), w).

Definition modify_table (f : list item → list item) : M unit := λ w,
  (Ok tt, {| table := f (table w); clock := clock w; script := script w;
             calls := calls w; stdout := stdout w |}).

Definition read_table : M (list item) := λ w, (Ok (table w), w).

(** [datetime.now(timezone.utc)] *)
Definition datetime_now : M datetime := _ ← next_fate; read_clock.

(** [time.time()] *)
Definition time_time : M Z := _ ← next_fate; read_clock.

Definition advance_clock (us : Z) : M unit := λ w,
  (Ok tt, {| table := table w; clock := clock w + us; script := script w;
             calls := calls w; stdout := stdout w |}).

(** [time.sleep(secs)] *)
Definition time_sleep (secs : Z) : M unit :=
  _ ← next_fate;
  send (Sleep secs);;
  advance_clock (secs * 1000000).

(** [subprocess.run(argv, check=True, capture_output=True, text=True)] *)
Definition subprocess_run (argv : list string) : M unit :=
  f ← next_fate;
  send (Run argv);;
  match gh f with
  | GhCompleted => mret tt
  | GhNonZeroExit => raise CalledProcessError
  | GhNotInstalled => raise FileNotFoundError
  end.

(** ** The table, as DynamoDB serves the four requests

    The table's primary key is the attribute [workflow_run_id]. *)

Definition has_key (k : string) (it : item) : bool :=
  bool_decide (it !! "workflow_run_id" = Some (AttrS k)).

(** [#ttl > :now_timestamp]: false when the attribute is missing or is not
    a number. *)
Definition live (now_timestamp : Z) (it : item) : bool :=
  match it !! "ttl" with
  | Some (AttrN n) => now_timestamp <? n
  | _ => false
  end.

(** [SET #ttl = :new_ttl] on the rows of key [k]; an item that is not there
    is created with the key and the attribute set. *)
Definition set_ttl (k : string) (new_ttl : Z) (t : list item) : list item :=
  if existsb (has_key k) t
  then List.map (λ it, if has_key k it then <["ttl" := AttrN new_ttl]> it else it) t
  else (t ++ [ {[ "workflow_run_id" := AttrS k; "ttl" := AttrN new_ttl ]} ])%list.

Definition remove_key (k : string) (t : list item) : list item :=
  List.filter (λ it, negb (has_key k it)) t.

(** [dynamodb.put_item(TableName, Item,
      ConditionExpression='attribute_not_exists(workflow_run_id)')] *)
Definition put_item (table_name : string) (it : item) : M unit :=
  f ← next_fate;
  send (PutItem table_name it);;
  match fault f with
  | Some x => raise (raised x)
  | None =>
      match it !! "workflow_run_id" with
      | Some (AttrS k) =>
          t ← read_table;
          if existsb (has_key k) t
          then raise (ClientError "ConditionalCheckFailedException")
          else modify_table (λ t, (t ++ [it])%list)
      | _ => raise (ClientError "ValidationException")
      end
  end.

(** The rows a scan reads.  DynamoDB ends a scan once it has read 1 MB of
    rows and answers with the rows of that page that pass the filter; the
    script takes the [Items] of this first answer and does not ask for the
    rest ([LastEvaluatedKey] is not looked at). *)
Definition first_page (f : fate) (t : list item) : list item :=
  match page f with
  | None => t
  | Some n => take n t
  end.

(** [dynamodb.scan(TableName, ConsistentRead=True,
      FilterExpression='#ttl > :now_timestamp', ...).get('Items', [])] *)
Definition scan (table_name : string) (now_timestamp : Z) : M (list item) :=
  f ← next_fate;
  send (Scan table_name now_timestamp);;
  match fault f with
  | Some x => raise (raised x)
  | None =>
      t ← read_table;
      mret (List.filter (live now_timestamp) (first_page f t))
  end.

(** [dynamodb.update_item(TableName, Key={'workflow_run_id': ...},
      UpdateExpression='SET #ttl = :new_ttl', ...)] *)
Definition update_item (table_name k : string) (new_ttl : Z) : M unit :=
  f ← next_fate;
  send (UpdateItem table_name k new_ttl);;
  match fault f with
  | Some x => raise (raised x)
  | None => modify_table (set_ttl k new_ttl)
  end.

(** [dynamodb.delete_item(TableName, Key={'workflow_run_id': ...})] *)
Definition delete_item (table_name k : string) : M unit :=
  f ← next_fate;
  send (DeleteItem table_name k);;
  match fault f with
  | Some x => raise (raised x)
  | None => modify_table (remove_key k)
  end.

(** ** The script *)

#[global] Instance result_ret : MRet result := λ A a, Ok a.

#[global] Instance result_bind : MBind result := λ A B f r,
  match r with
  | Ok a => f a
  | Raise e => Raise e
  end.

(** [[f(x) for x in l]] *)
Fixpoint comprehension {A B} (f : A → result B) (l : list A) : result (list B) :=
  match l with
  | [] => Ok []
  | x :: l' => y ← f x; ys ← comprehension f l'; Ok (y :: ys)
  end.

(** [l.sort(key=key)]: the keys are computed first, in list order; the sort
    is stable and compares keys with [<] only. *)
Fixpoint insert_by_key {A} (x : string * A) (l : list (string * A)) : list (string * A) :=
  match l with
  | [] => [x]
  | y :: l' => if String.leb (fst x) (fst y) then x :: y :: l'
               else y :: insert_by_key x l'
  end.

Definition sort_decorated {A} (l : list (string * A)) : list (string * A) :=
  foldr insert_by_key [] l.

Definition list_sort {A} (key : A → result string) (l : list A) : result (list A) :=
  d ← comprehension (λ x, k ← key x; Ok (k, x)) l;
  Ok (List.map snd (sort_decorated d)).

(** [sys.exit(status)] *)
Definition sys_exit {A} (status : Z) : M A := raise (SystemExit status).

(** Truth value of [github_repo], a [str] or [None]. *)
Definition truthy (s : option string) : bool :=
  match s with
  | None => false
  | Some s => negb (s =? "")%string
  end.

Definition restart_workflow (github_repo : option string) (workflow_run_id : string)
  : M bool :=
  if negb (truthy github_repo) then
    print MsgNoRepoSkipping;;
    mret false
  else
    let repo := default "" github_repo in
    try_except
      (print (MsgRestarting workflow_run_id repo);;
       subprocess_run
         ["gh"; "api";
          "repos/" ++ repo ++ "/actions/runs/" ++ workflow_run_id ++ "/rerun";
          "--method"; "POST"];;
       print (MsgRestarted workflow_run_id);;
       mret true)
      (λ e, match e with
            | CalledProcessError =>
                Some (print (MsgRestartFailed e);; print MsgErrorOutput;; mret false)
            | FileNotFoundError =>
                Some (print MsgGhNotFound;; mret false)
            | _ => None
            end).

Definition refresh_ttl (table_name workflow_run_id : string) : M unit :=
  try_except
    (now ← datetime_now;
     let waiting_ttl := int_timestamp (datetime_add now WAITING_TTL) in
     update_item table_name workflow_run_id waiting_ttl;;
     print (MsgRefreshed workflow_run_id))
    (except_ClientError (λ e, print (MsgRefreshFailed e))).

Definition start_running (table_name workflow_run_id : string) : M bool :=
  try_except
    (now ← datetime_now;
     let running_ttl := int_timestamp (datetime_add now RUNNING_TTL) in
     update_item table_name workflow_run_id running_ttl;;
     mret true)
    (except_ClientError (λ e, print (MsgErrorUpdatingRunning e);; mret false)).

Definition dequeue (table_name workflow_run_id : string) : M unit :=
  print MsgRemoving;;
  print (MsgTable table_name);;
  print (MsgWorkflowRun workflow_run_id);;
  try_except
    (delete_item table_name workflow_run_id;;
     print MsgRemoved)
    (except_ClientError (λ e, print (MsgRemoveFailed e))).

(** How one pass through the body of [while True] ends: with [return], or
    at the bottom of the body, with the value the local [queue_position]
    then has ([None] while it was never assigned). *)
Inductive control :=
| Return
| Next (queue_position : option Z).

(** [for idx, item in enumerate(all_workflows): if ... : queue_position =
    idx + 1; break] *)
Fixpoint find_position (workflow_run_id : string) (idx : Z) (l : list item)
    (queue_position : option Z) : result (option Z) :=
  match l with
  | [] => Ok queue_position
  | it :: l' =>
      id ← item_S it "workflow_run_id";
      if (id =? workflow_run_id)%string then Ok (Some (idx + 1))
      else find_position workflow_run_id (idx + 1) l' queue_position
  end.

(** Lines 160-191: what an iteration does with the items the scan gave. *)
Definition rank_and_act (table_name workflow_run_id : string)
    (queue_position : option Z) (all_workflows : list item) : M control :=
  match all_workflows with
  | [] => print MsgNoWorkflows;; sys_exit 1
  | _ :: _ =>
      all_workflows ← lift (list_sort (λ x, item_S x "enqueued_at") all_workflows);
      ids ← lift (comprehension (λ w, item_S w "workflow_run_id") all_workflows);
      print (MsgQueue ids);;
      first_workflow ← lift (match all_workflows with
                             | [] => Raise IndexError
                             | x :: _ => Ok x
                             end);
      first_workflow_id ← lift (item_S first_workflow "workflow_run_id");
      queue_position ← lift (find_position workflow_run_id 0 all_workflows queue_position);
      print (MsgFirstInQueue first_workflow_id);;
      position ← lift (match queue_position with
                       | None => Raise (UnboundLocalError "queue_position")
                       | Some n => Ok n
                       end);
      print (MsgQueuePosition position);;
      if (first_workflow_id =? workflow_run_id)%string then
        print MsgAtFront;;
        promoted ← start_running table_name workflow_run_id;
        if promoted : bool then
          print (MsgUpdatedTTL (seconds MAX_QUEUE_DUR));;
          mret Return
        else
          print MsgRetrying;;
          mret (Next queue_position)
      else
        print (MsgNotOurTurn (seconds POLL_INTERVAL));;
        refresh_ttl table_name workflow_run_id;;
        mret (Next queue_position)
  end.

(** Lines 145-191: the body of the [try] of an iteration. *)
Definition scan_and_act (table_name workflow_run_id : string)
    (queue_position : option Z) : M control :=
  now ← datetime_now;
  let now_timestamp := int_timestamp now in
  all_workflows ← scan table_name now_timestamp;
  rank_and_act table_name workflow_run_id queue_position all_workflows.

(** Lines 127-196: one pass through the body of [while True].  The only
    [ClientError] that reaches the [except] of line 193 is the one of the
    scan ([start_running] and [refresh_ttl] handle their own), so the
    handler finds [queue_position] as the iteration found it.  An
    exception of boto3 that is no [ClientError] passes this [except] as it
    passes theirs. *)
Definition iteration (table_name workflow_run_id : string)
    (github_repo : option string) (start_time : Z) (queue_position : option Z)
  : M control :=
  t ← time_time;
  let elapsed := int_elapsed t start_time in
  if seconds MAX_QUEUE_DUR <=? elapsed then
    print (MsgApproachingTimeout elapsed);;
    (if truthy github_repo then
       print MsgAttemptingRestart;;
       restarted ← restart_workflow github_repo workflow_run_id;
       if restarted : bool then print MsgRestartInitiated
       else print MsgRestartFailedExiting
     else print MsgNoRepoExiting);;
    sys_exit 1
  else
    print (MsgChecking elapsed);;
    c ← try_except
          (scan_and_act table_name workflow_run_id queue_position)
          (except_ClientError
             (λ e, print (MsgErrorChecking e);; mret (Next queue_position)));
    match c with
    | Return => mret Return
    | Next queue_position =>
        time_sleep (seconds POLL_INTERVAL);;
        mret (Next queue_position)
    end.

(** Whether [enqueue_and_wait] has returned, or is still in its loop when
    the fuel (a bound on the number of iterations looked at) runs out. *)
Inductive progress :=
| Returned
| Waiting.

Fixpoint wait_loop (fuel : nat) (table_name workflow_run_id : string)
    (github_repo : option string) (start_time : Z) (queue_position : option Z)
  : M progress :=
  match fuel with
  | O => mret Waiting
  | S fuel =>
      c ← iteration table_name workflow_run_id github_repo start_time queue_position;
      match c with
      | Return => mret Returned
      | Next queue_position =>
          wait_loop fuel table_name workflow_run_id github_repo start_time queue_position
      end
  end.

Definition error_code (e : exn) : string :=
  match e with
  | ClientError code => code
  | _ => ""
  end.

(** Lines 97-121: the registration. *)
Definition register (table_name workflow_run_id : string) : M unit :=
  now ← datetime_now;
  let waiting_ttl := int_timestamp (datetime_add now WAITING_TTL) in
  try_except
    (let item : item :=
       {[ "workflow_run_id" := AttrS workflow_run_id;
          "enqueued_at" := AttrS (isoformat now);
          "ttl" := AttrN waiting_ttl ]} in
     put_item table_name item;;
     print (MsgEnqueued workflow_run_id);;
     print MsgBlank)
    (except_ClientError
       (λ e, if (error_code e =? "ConditionalCheckFailedException")%string then
               print (MsgAlreadyInQueue workflow_run_id);;
               print MsgBlank
             else
               print (MsgEnqueueFailed e);;
               sys_exit 1)).

Definition enqueue_and_wait (fuel : nat) (table_name workflow_run_id : string)
    (github_repo : option string) : M progress :=
  print MsgEnqueuing;;
  print (MsgTable table_name);;
  print (MsgWorkflowRun workflow_run_id);;
  print MsgBlank;;
  register table_name workflow_run_id;;
  start_time ← time_time;
  wait_loop fuel table_name workflow_run_id github_repo start_time None.

(** The parsed command line, and [main]. *)
Inductive command :=
| Enqueue (table_name workflow_run_id : string) (github_repository : option string)
| Dequeue (table_name workflow_run_id : string).

Definition main (fuel : nat) (args : command) : M progress :=
  match args with
  | Enqueue table_name workflow_run_id github_repository =>
      enqueue_and_wait fuel table_name workflow_run_id github_repository
  | Dequeue table_name workflow_run_id =>
      dequeue table_name workflow_run_id;;
      mret Returned
  end.

(** The exit status of the process: 0 when [main] returns, the argument of
    [sys.exit], 1 for an exception nobody caught; none while it runs. *)
Definition exit_status (r : result progress) : option Z :=
  match r with
  | Ok Returned => Some 0
  | Ok Waiting => None
  | Raise (SystemExit status) => Some status
  | Raise _ => Some 1
  end.

(** ** Vocabulary of the properties *)

(** The order the sort puts decorated elements in. *)
Definition key_le {A} (p q : string * A) : Prop := String.leb p.1 q.1 = true.

(** [key], where it is defined. *)
Definition key_or_empty {A} (key : A → result string) (x : A) : string :=
  match key x with
  | Ok k => k
  | Raise _ => ""
  end.

(** The list [l.sort(key=key)] works on once the keys are computed. *)
Definition decorate {A} (key : A → result string) (l : list A) : list (string * A) :=
  List.map (λ x, (key_or_empty key x, x)) l.

(** A queue record as the registration writes it. *)
Definition queue_record (workflow_run_id enqueued_at : string) (ttl : Z) : item :=
  {[ "workflow_run_id" := AttrS workflow_run_id;
     "enqueued_at" := AttrS enqueued_at;
     "ttl" := AttrN ttl ]}.

(** The key the poll loop sorts on, [lambda x: x['enqueued_at']['S']], and
    the id of an item. *)
Definition enqueued_at (x : item) : result string := item_S x "enqueued_at".
Definition run_id (x : item) : result string := item_S x "workflow_run_id".

(** An item that has both strings, as every record a registration wrote. *)
Definition is_record (x : item) : Prop :=
  ∃ id at_, run_id x = Ok id ∧ enqueued_at x = Ok at_.

(** The iteration that starts in world [w] is below the wait ceiling, reads
    the time [now], and its scan answers with [all_workflows], leaving the
    world [w']. *)
Definition scans (table_name : string) (start_time : Z) (w : world)
    (now : datetime) (all_workflows : list item) (w' : world) : Prop :=
  ∃ t w1 w2,
    time_time w = (Ok t, w1)
    ∧ int_elapsed t start_time < seconds MAX_QUEUE_DUR
    ∧ datetime_now (print (MsgChecking (int_elapsed t start_time)) w1).2 = (Ok now, w2)
    ∧ scan table_name (int_timestamp now) w2 = (Ok all_workflows, w').

(** What is left of an iteration once [rank_and_act] is through: a
    [return] leaves the loop, an exception leaves the function, anything
    else sleeps for the poll interval. *)
Definition finish_iteration (r : result control * world) : result control * world :=
  match r with
  | (Ok Return, w) => (Ok Return, w)
  | (Ok (Next queue_position), w) =>
      (time_sleep (seconds POLL_INTERVAL);; mret (Next queue_position)) w
  | (Raise e, w) => (Raise e, w)
  end.

(** The number of rerun requests among the calls. *)
Definition is_rerun (c : call) : bool :=
  match c with
  | Run _ => true
  | _ => false
  end.

Definition reruns (cs : list call) : nat := List.length (List.filter is_rerun cs).

(** A request that writes to the table writes under the key [id]. *)
Definition writes_own (id : string) (c : call) : Prop :=
  match c with
  | PutItem _ it => it !! "workflow_run_id" = Some (AttrS id)
  | UpdateItem _ k _ => k = id
  | DeleteItem _ k => k = id
  | Scan _ _ | Sleep _ | Run _ => True
  end.

(** The world [w] once the lines [ms] are printed. *)
Definition printed (ms : list message) (w : world) : world :=
  {| table := table w; clock := clock w; script := script w; calls := calls w;
     stdout := (stdout w ++ ms)%list |}.

(** The request by which [start_running], called in the world [w], asks for
    the long lease, and the one by which [refresh_ttl] asks for the short
    one: the clock is read after one more fate. *)
Definition promotion (table_name workflow_run_id : string) (w : world) : call :=
  UpdateItem table_name workflow_run_id
    (int_timestamp (datetime_add (clock w + dt (upcoming (script w))) RUNNING_TTL)).

Definition renewal (table_name workflow_run_id : string) (w : world) : call :=
  UpdateItem table_name workflow_run_id
    (int_timestamp (datetime_add (clock w + dt (upcoming (script w))) WAITING_TTL)).

(** A request of the wait: a scan, a sleep, a rerun, or an update of the
    [ttl] of the entrant's own item; no insert and no delete. *)
Definition lease_update_only (table_name id : string) (c : call) : Prop :=
  match c with
  | UpdateItem tn k _ => tn = table_name ∧ k = id
  | Scan _ _ | Sleep _ | Run _ => True
  | PutItem _ _ | DeleteItem _ _ => False
  end.

(** The fate of the scan of the iteration that starts in the world [w]:
    the iteration reads [time.time()] and the date first, so it is the
    third fate from [w]. *)
Definition scan_fate (w : world) : fate := upcoming (tail (tail (script w))).

(** The fate of the update that [refresh_ttl] or [start_running] sends
    when called in the world [w]: they read the clock first, so it is the
    second fate from [w]. *)
Definition update_fate (w : world) : fate := upcoming (tail (script w)).

(** The exception that gets past every [except ClientError] when the call
    of boto3 with the fate [f] fails without an answer of DynamoDB. *)
Definition uncaught (f : fate) : option exn :=
  match fault f with
  | Some (NoResponse name) => Some (BotoCoreError name)
  | _ => None
  end.

(** The command line of the rerun request. *)
Definition rerun_request (github_repo workflow_run_id : string) : call :=
  Run ["gh"; "api";
       "repos/" ++ github_repo ++ "/actions/runs/" ++ workflow_run_id ++ "/rerun";
       "--method"; "POST"].

(** [x]'s sort key is [k]. *)
Definition has_enqueued_at (k : string) (x : item) : bool :=
  match enqueued_at x with
  | Ok k' => (k' =? k)%string
  | Raise _ => false
  end.

(** Two entrants registered at the same instant, as two scans may list
    them. *)
Definition tied_E1 : item :=
  queue_record "E1" "2023-11-14T22:13:20+00:00" 1700000600.
Definition tied_E2 : item :=
  queue_record "E2" "2023-11-14T22:13:20+00:00" 1700000600.
Definition tied_scan_1 : list item := [tied_E1; tied_E2].
Definition tied_scan_2 : list item := [tied_E2; tied_E1].

(** A world in which nothing is scripted. *)
Definition quiet_world (t : list item) (clock : Z) : world :=
  {| table := t; clock := clock; script := []; calls := []; stdout := [] |}.

(** How the script and the table of the world get from [(s, t)] to
    [(s', t')] while the entrant [id] waits: by fates passing, each doing
    to the table what it does, and by the entrant setting the [ttl] under
    its own key; by nothing else. *)
Inductive lease_run (id : string)
  : list fate → list item → list fate → list item → Prop :=
| lease_run_refl s t : lease_run id s t s t
| lease_run_fate s t s' t' :
    lease_run id (tail s) (others (upcoming s) t) s' t' →
    lease_run id s t s' t'
| lease_run_set new_ttl s t s' t' :
    lease_run id s (set_ttl id new_ttl t) s' t' →
    lease_run id s t s' t'.

(** A computation that moves the world by such steps only. *)
Definition leases {A} (id : string) (m : M A) : Prop :=
  ∀ w r w', m w = (r, w') →
    lease_run id (script w) (table w) (script w') (table w').

(** A fate in which nobody else writes to the table. *)
Definition nobody_else (f : fate) : Prop := ∀ t, others f t = t.

(** ** Scenarios

    The table is "ci-queue".  E1 registered at 22:13:20 UTC on 2023-11-14
    (1700000000 s), E2 one second later, each with a waiting lease of ten
    minutes; E0 registered ten minutes before and its lease ends at
    22:13:22 sharp.  The scenarios start at 22:13:22 (1700000002 s). *)

Definition record_E0 : item :=
  queue_record "E0" "2023-11-14T22:03:22+00:00" 1700000002.
Definition record_E1 : item :=
  queue_record "E1" "2023-11-14T22:13:20+00:00" 1700000600.
Definition record_E2 : item :=
  queue_record "E2" "2023-11-14T22:13:21+00:00" 1700000601.

Definition at_22_13_22 : Z := 1700000002000000.

(** E1 and E2 wait and nothing else happens. *)
Definition two_waiting : world := quiet_world [record_E1; record_E2] at_22_13_22.

(** The same world once an iteration has scanned it. *)
Definition two_waiting_scanned : world :=
  {| table := [record_E1; record_E2]; clock := at_22_13_22; script := [];
     calls := [Scan "ci-queue" 1700000002]; stdout := [MsgChecking 0] |}.

(** The row of E0 is still in the table though its lease is over. *)
Definition expired_present : world :=
  quiet_world [record_E0; record_E1; record_E2] at_22_13_22.

Definition expired_present_scanned : world :=
  {| table := [record_E0; record_E1; record_E2]; clock := at_22_13_22; script := [];
     calls := [Scan "ci-queue" 1700000002]; stdout := [MsgChecking 0] |}.

(** Only the row of E0 is in the table. *)
Definition only_expired : world := quiet_world [record_E0] at_22_13_22.

Definition only_expired_scanned : world :=
  {| table := [record_E0]; clock := at_22_13_22; script := [];
     calls := [Scan "ci-queue" 1700000002]; stdout := [MsgChecking 0] |}.

(** DynamoDB throttles the fifth call of the script, which is the update
    of [start_running] in the first iteration of E1. *)
Definition throttled : fate :=
  {| others := λ t, t; dt := 0;
     fault := Some (ErrorResponse "ProvisionedThroughputExceededException");
     page := None; gh := GhCompleted |}.

Definition lost_race : world :=
  {| table := [record_E1; record_E2]; clock := at_22_13_22;
     script := [calm; calm; calm; calm; throttled]; calls := []; stdout := [] |}.

Definition lost_race_scanned : world :=
  {| table := [record_E1; record_E2]; clock := at_22_13_22;
     script := [calm; throttled];
     calls := [Scan "ci-queue" 1700000002]; stdout := [MsgChecking 0] |}.

(** E1 runs (its lease is the long one) and E2 waits; the sixth call of
    E2's script, the sleep of its first iteration, lasts 700 s longer than
    asked (the runner stalls), so that E2's lease is over when it looks
    again. *)
Definition record_E1_running : item :=
  queue_record "E1" "2023-11-14T22:13:20+00:00" 1700028800.

Definition stall : fate :=
  {| others := λ t, t; dt := 700000000; fault := None; page := None;
     gh := GhCompleted |}.

Definition stalled : world :=
  {| table := [record_E1_running; record_E2]; clock := at_22_13_22;
     script := [calm; calm; calm; calm; calm; stall]; calls := []; stdout := [] |}.

(** The wait of E1 began 5 h 30 min before 22:13:22. *)
Definition five_hours_thirty_before : Z := at_22_13_22 - 19800 * 1000000.

(** Eleven minutes after E1 registered and died: its row is still there,
    its lease is over; E2 has kept its own lease alive. *)
Definition record_E2_renewed : item :=
  queue_record "E2" "2023-11-14T22:13:21+00:00" 1700001200.

Definition E1_crashed : world :=
  quiet_world [record_E1; record_E2_renewed] (1700000660 * 1000000).

(** DynamoDB refuses the second call of the script (the insert of the
    registration) for a reason other than the condition. *)
Definition insert_refused : world :=
  {| table := [record_E1]; clock := at_22_13_22; script := [calm; throttled];
     calls := []; stdout := [] |}.

(** E1 has done its work and releases, but DynamoDB cannot be reached: the
    delete, the one call of [dequeue], ends in boto3's
    [EndpointConnectionError]. *)
Definition unreachable : fate :=
  {| others := λ t, t; dt := 0;
     fault := Some (NoResponse "EndpointConnectionError");
     page := None; gh := GhCompleted |}.

Definition release_unreachable : world :=
  {| table := [record_E1_running; record_E2]; clock := at_22_13_22;
     script := [unreachable]; calls := []; stdout := [] |}.

(** ** Vocabulary of the further properties *)

(** The iteration that starts in world [w] is below the wait ceiling and
    its scan is answered with the [ClientError] of code [code], leaving the
    world [w']. *)
Definition scan_fails (table_name : string) (start_time : Z) (w : world)
    (code : string) (w' : world) : Prop :=
  ∃ t w1 now w2,
    time_time w = (Ok t, w1)
    ∧ int_elapsed t start_time < seconds MAX_QUEUE_DUR
    ∧ datetime_now (print (MsgChecking (int_elapsed t start_time)) w1).2 = (Ok now, w2)
    ∧ scan table_name (int_timestamp now) w2 = (Raise (ClientError code), w').

(** [x] is ahead of [y] in the queue order, or level with it. *)
Definition not_after (x y : item) : Prop :=
  ∃ ax ay, enqueued_at x = Ok ax ∧ enqueued_at y = Ok ay ∧ String.leb ax ay = true.

(** The clock never goes back while the fates [s] pass. *)
Definition steady (s : list fate) : Prop := Forall (λ f, 0 ≤ dt f) s.


(** The exceptions a computation raises are among [P]. *)
Definition throws {A} (P : exn → Prop) (m : M A) : Prop :=
  ∀ w e w', m w = (Raise e, w') → P e.

(** The time of the last microsecond of the year 9999, the end of the
    range of [datetime]. *)
Definition datetime_max : Z := 253402300799999999.

(** A computation takes every world to a world related to it by [R]. *)
Definition keeps {A} (R : world → world → Prop) (m : M A) : Prop :=
  ∀ w r w', m w = (r, w') → R w w'.

(** What is printed stays printed. *)
Definition prints_more (w w' : world) : Prop :=
  ∃ ms, stdout w' = (stdout w ++ ms)%list.

(** While the clock of the world is steady, it does not go back. *)
Definition clock_goes_on (w w' : world) : Prop :=
  steady (script w) → clock w ≤ clock w' ∧ steady (script w').

(** In the table [t] the entrant [id] has a row, and its rows expire at
    [new_ttl]. *)
Definition holds_lease (id : string) (new_ttl : Z) (t : list item) : Prop :=
  existsb (has_key id) t = true
  ∧ ∀ it, In it t → has_key id it = true → it !! "ttl" = Some (AttrN new_ttl).

(** The world of an entrant that has just been let through: the last thing
    it sent is the update of its lease, the table took it, and the last
    line printed is the one of line 184. *)
Definition let_through (table_name id : string) (w : world) : Prop :=
  ∃ new_ttl,
    last (calls w) = Some (UpdateItem table_name id new_ttl)
    ∧ holds_lease id new_ttl (table w)
    ∧ last (stdout w) = Some (MsgUpdatedTTL (seconds MAX_QUEUE_DUR)).

(** The exceptions a call of boto3 raises. *)
Definition store_error (e : exn) : Prop :=
  match e with
  | ClientError _ | BotoCoreError _ => True
  | _ => False
  end.

(** A fate in which nobody else writes to the table, the call of boto3
    does not fail, a scan reads the whole table, and at most a minute
    passes. *)
Definition quiet (f : fate) : Prop :=
  nobody_else f ∧ fault f = None ∧ page f = None ∧ 0 ≤ dt f ≤ 60000000.

(** No row of the table [t] passes the filter of a scan at
    [now_timestamp]. *)
Definition all_expired (now_timestamp : Z) (t : list item) : Prop :=
  Forall (λ x, live now_timestamp x = false) t.

(** Between the worlds [w] and [w'] requests were sent, each of them in
    [Q]. *)
Definition sends (Q : call → Prop) (w w' : world) : Prop :=
  ∃ sent, calls w' = (calls w ++ sent)%list ∧ Forall Q sent.

(** The requests of the entrant [id] once it has registered: scans of its
    table, updates of the [ttl] under its own key in that table, sleeps of
    the poll interval, and the rerun of its own workflow run, which needs
    a repository. *)
Definition request_of_the_wait (table_name id : string)
    (github_repo : option string) (c : call) : Prop :=
  match c with
  | Scan tn _ => tn = table_name
  | UpdateItem tn k _ => tn = table_name ∧ k = id
  | Sleep secs => secs = seconds POLL_INTERVAL
  | Run _ => truthy github_repo = true
             ∧ c = rerun_request (default "" github_repo) id
  | PutItem _ _ | DeleteItem _ _ => False
  end.

(** ** The order of the timestamps

    [c] and, where it is [Eq], [c']: how tuples and strings compare. *)
Definition lexicographic (c c' : comparison) : comparison :=
  match c with
  | Eq => c'
  | _ => c
  end.

(** The date of the day [z] as one number that orders dates: the months
    counted from year 0, times 32, plus the day of the month. *)
Definition civil_key (z : Z) : Z :=
  let '(y, m, d) := civil_from_days z in (y * 12 + m) * 32 + d.

(** The record [x] was registered at the instant [t], a time of the years
    1970 to 9999: its [enqueued_at] is what line 104 wrote then. *)
Definition registered_at (t : datetime) (x : item) : Prop :=
  0 ≤ t ≤ datetime_max ∧ enqueued_at x = Ok (isoformat t).

(** ** Scenarios of the further properties

    DynamoDB throttles the third call of an iteration, its scan. *)
Definition scan_throttled : world :=
  {| table := [record_E1; record_E2]; clock := at_22_13_22;
     script := [calm; calm; throttled]; calls := []; stdout := [] |}.

Definition scan_throttled_scanned : world :=
  {| table := [record_E1; record_E2]; clock := at_22_13_22; script := [];
     calls := [Scan "ci-queue" 1700000002]; stdout := [MsgChecking 0] |}.

(** E3 was never registered, but a renewal of its lease went through: the
    table made a row of the key and the [ttl] alone. *)
Definition row_E3 : item :=
  {[ "workflow_run_id" := AttrS "E3"; "ttl" := AttrN 1700000600 ]}.

Definition row_without_enqueued_at : world :=
  quiet_world [record_E1; row_E3] at_22_13_22.

Definition row_without_enqueued_at_scanned : world :=
  {| table := [record_E1; row_E3]; clock := at_22_13_22; script := [];
     calls := [Scan "ci-queue" 1700000002]; stdout := [MsgChecking 0] |}.

(** E1 registered at 22:13:20. *)
Definition at_22_13_20 : Z := 1700000000000000.

(** * Properties *)

Example isoformat_whole_second :
  isoformat 1700000000000000 = "2023-11-14T22:13:20+00:00".
Proof. reflexivity. Qed.

Example isoformat_fraction :
  isoformat 951782400000123 = "2000-02-29T00:00:00.000123+00:00".
Proof. reflexivity. Qed.

Example timing_constants :
  seconds POLL_INTERVAL = 60 ∧ seconds MAX_QUEUE_DUR = 19800
  ∧ total_microseconds RUNNING_TTL = 28800000000
  ∧ total_microseconds WAITING_TTL = 600000000.
Proof. repeat split; reflexivity. Qed.

(** ** The order of [str] and the sort *)

Lemma string_leb_refl (a : string) : String.leb a a = true.
Proof. destruct (String.leb_total a a); assumption. Qed.

Lemma string_leb_trans (a b c : string) :
  String.leb a b = true → String.leb b c = true → String.leb a c = true.
Proof.
  unfold String.leb. revert b c.
  induction a as [|x a IH]; intros [|y b] [|z c]; simpl; try congruence.
  unfold Ascii.compare.
  destruct (N.compare_spec (N_of_ascii x) (N_of_ascii y)) as [Exy|Lxy|Gxy];
    destruct (N.compare_spec (N_of_ascii y) (N_of_ascii z)) as [Eyz|Lyz|Gyz];
    destruct (N.compare_spec (N_of_ascii x) (N_of_ascii z)) as [Exz|Lxz|Gxz];
    try congruence; try lia; try (intros; exfalso; lia).
  apply IH.
Qed.

Section sort.
Context {A : Type}.

Lemma insert_by_key_perm (x : string * A) l : insert_by_key x l ≡ₚ x :: l.
Proof.
  induction l as [|y l IH]; simpl; [done|].
  destruct (String.leb x.1 y.1); [done|].
  rewrite IH. apply perm_swap.
Qed.

Lemma sort_decorated_perm (l : list (string * A)) : sort_decorated l ≡ₚ l.
Proof.
  induction l as [|x l IH]; simpl; [done|].
  rewrite insert_by_key_perm. by rewrite IH.
Qed.

Lemma insert_by_key_sorted (x : string * A) l :
  StronglySorted key_le l → StronglySorted key_le (insert_by_key x l).
Proof.
  induction 1 as [|y l Hl IH Hy]; simpl.
  - repeat constructor.
  - destruct (String.leb x.1 y.1) eqn:E.
    + constructor; [by constructor|].
      constructor; [done|].
      eapply Forall_impl; [exact Hy|]. intros z Hz.
      eapply string_leb_trans; [exact E|exact Hz].
    + constructor; [done|].
      rewrite insert_by_key_perm. constructor; [|done].
      destruct (String.leb_total x.1 y.1); [congruence|done].
Qed.

Lemma sort_decorated_sorted (l : list (string * A)) :
  StronglySorted key_le (sort_decorated l).
Proof.
  induction l; simpl; [constructor|]. by apply insert_by_key_sorted.
Qed.

(** The sort is stable: an element that is not after any other in the
    order stays ahead of the elements with the same key. *)
Lemma insert_by_key_front (x : string * A) l :
  Forall (key_le x) l → insert_by_key x l = x :: l.
Proof.
  destruct 1 as [|y l Hy _]; simpl; [done|].
  unfold key_le in Hy. by rewrite Hy.
Qed.

Variable key : A → result string.

Lemma comprehension_decorate l d :
  comprehension (λ x, k ← key x; Ok (k, x)) l = Ok d →
  d = List.map (λ x, (key_or_empty key x, x)) l
  ∧ Forall (λ x, key x = Ok (key_or_empty key x)) l.
Proof.
  revert d. induction l as [|x l IH]; simpl; intros d H.
  - by inversion H.
  - unfold mbind, result_bind in H. unfold key_or_empty at 1 3.
    destruct (key x) as [k|] eqn:Ek; [|done].
    destruct (comprehension _ l) as [d'|]; [|done].
    destruct (IH d' eq_refl) as [-> Hall]. inversion H.
    split; [done|]. constructor; [|done].
    unfold key_or_empty. by rewrite Ek.
Qed.

Lemma comprehension_decorate_Ok l :
  Forall (λ x, key x = Ok (key_or_empty key x)) l →
  comprehension (λ x, k ← key x; Ok (k, x)) l
  = Ok (List.map (λ x, (key_or_empty key x, x)) l).
Proof.
  induction 1 as [|x l Hx _ IH]; cbn [comprehension]; [done|].
  rewrite IH. unfold mbind, result_bind. by rewrite Hx.
Qed.

Lemma list_sort_Ok l s :
  list_sort key l = Ok s →
  s = List.map snd (sort_decorated (decorate key l))
  ∧ Forall (λ x, key x = Ok (key_or_empty key x)) l.
Proof.
  unfold list_sort, mbind, result_bind. intros H.
  destruct (comprehension _ l) as [d|] eqn:E; [|done].
  apply comprehension_decorate in E as [-> Hall]. by inversion H.
Qed.

Lemma list_sort_defined l :
  Forall (λ x, key x = Ok (key_or_empty key x)) l →
  list_sort key l = Ok (List.map snd (sort_decorated (decorate key l))).
Proof.
  intros H. unfold list_sort.
  by rewrite (comprehension_decorate_Ok _ H).
Qed.

Lemma list_sort_perm l s : list_sort key l = Ok s → s ≡ₚ l.
Proof.
  intros [-> _]%list_sort_Ok.
  rewrite sort_decorated_perm. unfold decorate.
  rewrite List.map_map. simpl. by rewrite List.map_id.
Qed.

Lemma sort_decorated_keys (l : list A) :
  Forall (λ p, p.1 = key_or_empty key p.2) (sort_decorated (decorate key l)).
Proof.
  rewrite sort_decorated_perm. unfold decorate.
  apply List.Forall_forall. intros p [x [<- _]]%List.in_map_iff. done.
Qed.

(** The sorted list is in ascending order of the keys. *)
Lemma list_sort_sorted l s :
  list_sort key l = Ok s →
  StronglySorted (λ x y, String.leb (key_or_empty key x) (key_or_empty key y) = true) s.
Proof.
  intros [-> _]%list_sort_Ok.
  pose proof (sort_decorated_sorted (decorate key l)) as Hs.
  pose proof (sort_decorated_keys l) as Hk.
  induction Hs as [|p d Hd IH Hp]; simpl; [constructor|].
  inversion Hk as [|? ? Hp1 Hk']; subst.
  constructor; [by apply IH|].
  apply List.Forall_forall. intros y [q [<- Hq]]%List.in_map_iff.
  rewrite List.Forall_forall in Hp, Hk'.
  specialize (Hp q Hq). specialize (Hk' q Hq). unfold key_le in Hp.
  by rewrite <- Hp1, <- Hk'.
Qed.

(** Two orders of the same elements sort to the same sequence of keys,
    and to the same list when no two elements share a key. *)
Lemma list_sort_order l1 l2 s1 :
  l1 ≡ₚ l2 → list_sort key l1 = Ok s1 →
  ∃ s2, list_sort key l2 = Ok s2
        ∧ List.map key s1 = List.map key s2
        ∧ (NoDup (List.map key l1) → s1 = s2).
Proof.
  intros Hperm H1.
  pose proof (list_sort_sorted _ _ H1) as Hsorted1.
  pose proof (list_sort_perm _ _ H1) as Hperm1.
  destruct (list_sort_Ok _ _ H1) as [_ Hall1].
  assert (Hall2 : Forall (λ x, key x = Ok (key_or_empty key x)) l2)
    by (by rewrite <- Hperm).
  pose proof (list_sort_defined _ Hall2) as H2.
  eexists. split; [exact H2|].
  pose proof (list_sort_sorted _ _ H2) as Hsorted2.
  pose proof (list_sort_perm _ _ H2) as Hperm2.
  set (s2 := List.map snd (sort_decorated (decorate key l2))) in *.
  assert (Hs12 : s1 ≡ₚ s2) by (by rewrite Hperm1, Hperm2).
  assert (Hk : ∀ s, s ≡ₚ l1 → List.map key s = List.map (Ok ∘ key_or_empty key) s).
  { intros s Hs. apply List.map_ext_in. intros x Hx. simpl.
    rewrite List.Forall_forall in Hall1. apply Hall1.
    eapply Permutation_in; [exact Hs|exact Hx]. }
  split.
  - rewrite (Hk s1), (Hk s2); [|by rewrite <- Hs12|done].
    rewrite <- !(List.map_map (key_or_empty key) Ok). f_equal.
    apply (StronglySorted_unique_strong (λ a b, String.leb a b = true)).
    + intros a b _ _ Hab Hba. by apply String.leb_antisym.
    + clear -Hsorted1. induction Hsorted1 as [|x s Hs IH Hx]; simpl; [constructor|].
      constructor; [done|]. by apply Forall_map.
    + clear -Hsorted2. induction Hsorted2 as [|x s Hs IH Hx]; simpl; [constructor|].
      constructor; [done|]. by apply Forall_map.
    + by apply Permutation_map.
  - intros Hnodup.
    eapply StronglySorted_unique_strong; [|exact Hsorted1|exact Hsorted2|exact Hs12].
    intros x y Hx Hy Hxy Hyx.
    assert (Hin : ∀ z, z ∈ s1 → z ∈ l1) by (intros z; by rewrite Hperm1).
    assert (Hx1 : x ∈ l1) by auto.
    assert (Hy1 : y ∈ l1) by (apply Hin; by rewrite Hs12).
    assert (E : key x = key y).
    { rewrite List.Forall_forall in Hall1.
      rewrite (Hall1 x), (Hall1 y) by (by apply list_elem_of_In).
      f_equal. by apply String.leb_antisym. }
    clear -Hnodup Hx1 Hy1 E.
    apply list_elem_of_In in Hx1, Hy1.
    induction l1 as [|z l IH]; [done|].
    simpl in Hnodup. apply NoDup_cons in Hnodup as [Hz Hnd].
    destruct Hx1 as [->|Hx1], Hy1 as [->|Hy1]; auto.
    + exfalso. apply Hz. rewrite E. by apply list_elem_of_In, List.in_map.
    + exfalso. apply Hz. rewrite <- E. by apply list_elem_of_In, List.in_map.
Qed.
End sort.

(** ** Running the script *)

Ltac run :=
  repeat (progress (unfold mbind, M_bind, mret, M_ret, try_except, except_ClientError,
                    raise, lift, sys_exit, send, print, read_clock, read_table,
                    modify_table, advance_clock, next_fate;
                    cbn -[list_sort comprehension find_position int_timestamp
                          int_elapsed datetime_add MAX_QUEUE_DUR POLL_INTERVAL
                          RUNNING_TTL WAITING_TTL String.eqb isoformat
                          lookup insert])).

Ltac run_in H :=
  repeat (progress (unfold mbind, M_bind, mret, M_ret, try_except, except_ClientError,
                    raise, lift, sys_exit, send, print, read_clock, read_table,
                    modify_table, advance_clock, next_fate in H;
                    cbn -[list_sort comprehension find_position int_timestamp
                          int_elapsed datetime_add MAX_QUEUE_DUR POLL_INTERVAL
                          RUNNING_TTL WAITING_TTL String.eqb isoformat
                          lookup insert] in H)).

Lemma remove_key_gone k t it : In it (remove_key k t) → has_key k it = false.
Proof.
  unfold remove_key. rewrite List.filter_In. intros [_ H].
  by apply negb_true_iff in H.
Qed.

Lemma remove_key_absent k t :
  existsb (has_key k) t = false → remove_key k t = t.
Proof.
  unfold remove_key. induction t as [|x t IH]; simpl; [done|].
  intros [Hx Ht]%orb_false_iff. rewrite Hx. simpl. by rewrite IH.
Qed.

Lemma remove_key_idemp k t : remove_key k (remove_key k t) = remove_key k t.
Proof.
  unfold remove_key. induction t as [|x t IH]; simpl; [done|].
  destruct (has_key k x) eqn:E; simpl; [done|]. rewrite E. simpl. by rewrite IH.
Qed.

Lemma dequeue_run table_name workflow_run_id w :
  ∃ r w', dequeue table_name workflow_run_id w = (r, w')
        ∧ calls w' = (calls w ++ [DeleteItem table_name workflow_run_id])%list
        ∧ script w' = tail (script w)
        ∧ match fault (upcoming (script w)) with
          | None =>
              r = Ok tt
              ∧ table w' = remove_key workflow_run_id (others (upcoming (script w)) (table w))
              ∧ last (stdout w') = Some MsgRemoved
          | Some (ErrorResponse code) =>
              r = Ok tt
              ∧ table w' = others (upcoming (script w)) (table w)
              ∧ last (stdout w') = Some (MsgRemoveFailed (ClientError code))
          | Some (NoResponse name) =>
              r = Raise (BotoCoreError name)
              ∧ table w' = others (upcoming (script w)) (table w)
              ∧ last (stdout w') = Some (MsgWorkflowRun workflow_run_id)
          end.
Proof.
  unfold dequeue, delete_item. run.
  destruct (fault (upcoming (script w))) as [[code|name]|]; run; eexists _, _;
    (split; [reflexivity|]); cbn; rewrite ?last_snoc; auto.
Qed.

Lemma start_running_run table_name workflow_run_id w :
  ∃ r w',
    start_running table_name workflow_run_id w = (r, w')
    ∧ calls w' = (calls w ++ [UpdateItem table_name workflow_run_id
        (int_timestamp (datetime_add (clock w + dt (upcoming (script w))) RUNNING_TTL))])%list
    ∧ script w' = tail (tail (script w))
    ∧ r = match fault (upcoming (tail (script w))) with
          | None => Ok true
          | Some (ErrorResponse _) => Ok false
          | Some (NoResponse name) => Raise (BotoCoreError name)
          end.
Proof.
  unfold start_running, datetime_now, update_item. run.
  destruct (fault (upcoming (tail (script w)))) as [[code|name]|]; run; eauto 10.
Qed.

Lemma uncaught_BotoCoreError f e :
  uncaught f = Some e → ∃ name, fault f = Some (NoResponse name) ∧ e = BotoCoreError name.
Proof.
  unfold uncaught. destruct (fault f) as [[code|name]|]; intros [= <-]. eauto.
Qed.

Lemma uncaught_None f :
  uncaught f = None → fault f = None ∨ ∃ code, fault f = Some (ErrorResponse code).
Proof. unfold uncaught. destruct (fault f) as [[code|name]|]; intros [=]; eauto. Qed.

Lemma refresh_ttl_run table_name workflow_run_id w :
  ∃ r w',
    refresh_ttl table_name workflow_run_id w = (r, w')
    ∧ calls w' = (calls w ++ [UpdateItem table_name workflow_run_id
        (int_timestamp (datetime_add (clock w + dt (upcoming (script w))) WAITING_TTL))])%list
    ∧ script w' = tail (tail (script w))
    ∧ r = match uncaught (update_fate w) with
          | Some e => Raise e
          | None => Ok tt
          end.
Proof.
  unfold refresh_ttl, datetime_now, update_item, uncaught, update_fate. run.
  destruct (fault (upcoming (tail (script w)))) as [[code|name]|]; run; eauto 10.
Qed.
Lemma item_S_raise it a e : item_S it a = Raise e → ∃ k, e = KeyError k.
Proof.
  unfold item_S. destruct (it !! a) as [[s|n]|]; intros H; inversion H; eauto.
Qed.

Lemma comprehension_raise {A B} (f : A → result B) l e :
  comprehension f l = Raise e → ∃ x, In x l ∧ f x = Raise e.
Proof.
  induction l as [|x l IH]; cbn [comprehension]; [done|].
  unfold mbind, result_bind.
  destruct (f x) as [y|e'] eqn:E.
  - destruct (comprehension f l) as [ys|e'']; [done|].
    intros [= ->]. destruct (IH eq_refl) as (z & Hz & Hf). exists z. split; [by right|done].
  - intros [= ->]. exists x. split; [by left|done].
Qed.

Lemma list_sort_raise {A} (key : A → result string) l e :
  list_sort key l = Raise e → ∃ x, In x l ∧ key x = Raise e.
Proof.
  unfold list_sort. unfold mbind at 1, result_bind at 1.
  destruct (comprehension _ l) as [d|e'] eqn:E; [done|].
  intros [= ->]. apply comprehension_raise in E as (x & Hx & Hk).
  exists x. split; [done|].
  unfold mbind, result_bind in Hk. destruct (key x); [done|]. by inversion Hk.
Qed.

Lemma find_position_raise id idx l qp e :
  find_position id idx l qp = Raise e → ∃ k, e = KeyError k.
Proof.
  revert idx. induction l as [|x l IH]; intros idx; cbn [find_position]; [done|].
  unfold mbind, result_bind.
  destruct (item_S x "workflow_run_id") as [s|e'] eqn:E.
  - destruct (s =? id)%string; [done|]. apply IH.
  - intros [= ->]. by apply item_S_raise in E.
Qed.

(** [rank_and_act] raises no [ClientError]: the [except] of line 193 only
    ever sees the one of the scan. *)
Lemma rank_and_act_no_ClientError tn id qp ws w code w' :
  rank_and_act tn id qp ws w ≠ (Raise (ClientError code), w').
Proof.
  unfold rank_and_act. destruct ws as [|x ws]; run; [congruence|].
  destruct (list_sort _ (x :: ws)) as [s|e] eqn:Es; run.
  2:{ apply list_sort_raise in Es as (? & _ & [k ->]%item_S_raise). congruence. }
  destruct (comprehension _ s) as [ids|e] eqn:Ec; run.
  2:{ apply comprehension_raise in Ec as (? & _ & [k ->]%item_S_raise). congruence. }
  destruct s as [|y s]; run; [congruence|].
  destruct (item_S y "workflow_run_id") as [fid|e] eqn:Ey; run.
  2:{ apply item_S_raise in Ey as [k ->]. congruence. }
  destruct (find_position id 0 (y :: s) qp) as [[n|]|e] eqn:Ep; run; try congruence.
  2:{ apply find_position_raise in Ep as [k ->]. congruence. }
  destruct ((fid =? id)%string) eqn:Ef; run.
  - edestruct (start_running_run tn id) as (r & w1 & -> & _ & _ & ->).
    destruct (fault _) as [[?|?]|]; run; congruence.
  - edestruct (refresh_ttl_run tn id) as (r & w1 & -> & _ & _ & ->).
    destruct (uncaught _) as [e|] eqn:He; run; [|congruence].
    apply uncaught_BotoCoreError in He as (name & _ & ->). congruence.
Qed.

Lemma iteration_scans table_name workflow_run_id github_repo start_time
    queue_position w now all_workflows w3 :
  scans table_name start_time w now all_workflows w3 →
  iteration table_name workflow_run_id github_repo start_time queue_position w
  = finish_iteration (rank_and_act table_name workflow_run_id queue_position all_workflows w3).
Proof.
  intros (t & w1 & w2 & Ht & Hlt & Hnow & Hscan).
  unfold iteration. unfold mbind at 1, M_bind at 1. rewrite Ht.
  destruct (Z.leb_spec (seconds MAX_QUEUE_DUR) (int_elapsed t start_time)) as [?|_]; [lia|].
  unfold scan_and_act.
  unfold mbind at 1, M_bind at 1. unfold mbind at 1, M_bind at 1.
  unfold try_except. unfold mbind at 1, M_bind at 1. 
  destruct (print _ w1) as [[[]|] w1'] eqn:Ep; [|done].
  simpl in Hnow. rewrite Hnow. unfold mbind at 1, M_bind at 1. rewrite Hscan.
  destruct (rank_and_act _ _ _ _ w3) as [[c|e] w4] eqn:Er; simpl.
  - by destruct c.
  - destruct e; try done. by apply rank_and_act_no_ClientError in Er.
Qed.
Lemma is_record_key x :
  is_record x → enqueued_at x = Ok (key_or_empty enqueued_at x).
Proof. intros (id & at_ & _ & H). unfold key_or_empty. by rewrite H. Qed.

Lemma records_sort ws :
  Forall is_record ws → ∃ s, list_sort enqueued_at ws = Ok s.
Proof.
  intros H. eexists. apply list_sort_defined.
  eapply Forall_impl; [exact H|]. apply is_record_key.
Qed.

Lemma records_ids ws :
  Forall is_record ws → ∃ ids, comprehension run_id ws = Ok ids.
Proof.
  induction 1 as [|x ws (id & at_ & Hid & _) _ [ids IH]]; cbn [comprehension]; [by eexists|].
  rewrite Hid, IH. by eexists.
Qed.

(** The loop of lines 171-174 on records: the position of the first record
    with the id, or the value [queue_position] already had. *)
Lemma find_position_absent id idx l qp :
  Forall is_record l → (∀ x, In x l → run_id x ≠ Ok id) →
  find_position id idx l qp = Ok qp.
Proof.
  intros Hrec. revert idx.
  induction Hrec as [|x l (xid & at_ & Hid & _) _ IH]; intros idx Habs;
    cbn [find_position]; [done|].
  fold (run_id x). rewrite Hid. unfold mbind, result_bind.
  destruct (String.eqb_spec xid id) as [->|Hne].
  - exfalso. apply (Habs x); [by left|done].
  - apply IH. intros y Hy. apply Habs. by right.
Qed.

Lemma find_position_present id idx l qp :
  Forall is_record l → (∃ x, In x l ∧ run_id x = Ok id) →
  ∃ n, find_position id idx l qp = Ok (Some n) ∧ idx < n ≤ idx + Z.of_nat (List.length l).
Proof.
  intros Hrec. revert idx.
  induction Hrec as [|x l (xid & at_ & Hid & _) _ IH]; intros idx (y & Hy & Hyid);
    cbn [find_position]; [done|].
  fold (run_id x). rewrite Hid. unfold mbind, result_bind.
  destruct (String.eqb_spec xid id) as [->|Hne].
  - exists (idx + 1). split; [done|]. cbn [List.length]. lia.
  - destruct Hy as [->|Hy]; [congruence|].
    destruct (IH (idx + 1)) as (n & Hn & ?); [by exists y|].
    exists n. split; [done|]. cbn [List.length]. lia.
Qed.

Lemma find_position_records id idx l qp :
  Forall is_record l → ∃ qp', find_position id idx l qp = Ok qp'.
Proof.
  intros Hrec. revert idx.
  induction Hrec as [|x l (xid & at_ & Hid & _) _ IH]; intros idx;
    cbn [find_position]; [by eexists|].
  fold (run_id x). rewrite Hid. unfold mbind, result_bind.
  destruct (xid =? id)%string; [by eexists|]. apply IH.
Qed.

Lemma printed_printed ms1 ms2 w :
  printed ms2 (printed ms1 w) = printed (ms1 ++ ms2) w.
Proof. unfold printed. cbn. by rewrite <- app_assoc. Qed.

(** What [rank_and_act] does with a non-empty scan of records. *)
Lemma rank_and_act_records tn id qp ws w :
  ws ≠ [] → Forall is_record ws →
  ∃ front rest ids fid qp',
    list_sort enqueued_at ws = Ok (front :: rest)
    ∧ comprehension run_id (front :: rest) = Ok ids
    ∧ run_id front = Ok fid
    ∧ find_position id 0 (front :: rest) qp = Ok qp'
    ∧ rank_and_act tn id qp ws w =
        match qp' with
        | None =>
            (Raise (UnboundLocalError "queue_position"),
             printed [MsgQueue ids; MsgFirstInQueue fid] w)
        | Some n =>
            let w1 := printed [MsgQueue ids; MsgFirstInQueue fid; MsgQueuePosition n] w in
            if (fid =? id)%string then
              (print MsgAtFront;;
               promoted ← start_running tn id;
               if promoted : bool then
                 print (MsgUpdatedTTL (seconds MAX_QUEUE_DUR));; mret Return
               else
                 print MsgRetrying;; mret (Next (Some n))) w1
            else
              (print (MsgNotOurTurn (seconds POLL_INTERVAL));;
               refresh_ttl tn id;;
               mret (Next (Some n))) w1
        end.
Proof.
  intros Hne Hrec.
  destruct (records_sort _ Hrec) as [s Hs].
  pose proof (list_sort_perm _ _ _ Hs) as Hperm.
  assert (Hrec' : Forall is_record s) by (by rewrite Hperm).
  destruct s as [|front rest].
  { apply Permutation_nil in Hperm. congruence. }
  destruct (records_ids _ Hrec') as [ids Hids].
  inversion Hrec' as [|? ? (fid & fat & Hfid & Hfat) Hrest]; subst.
  destruct (find_position_records id 0 _ qp Hrec') as [qp' Hqp].
  exists front, rest, ids, fid, qp'. repeat (split; [done|]).
  unfold rank_and_act. destruct ws as [|x ws]; [done|].
  change (λ x, item_S x "enqueued_at") with enqueued_at.
  change (λ w, item_S w "workflow_run_id") with run_id.
  unfold mbind at 1, M_bind at 1, lift at 1. rewrite Hs.
  unfold mbind at 1, M_bind at 1, lift at 1. rewrite Hids.
  run. unfold run_id in Hfid. rewrite Hfid. run. rewrite Hqp.
  destruct qp' as [n|]; run.
  - destruct (fid =? id)%string; unfold printed; run; rewrite <- !app_assoc;
      reflexivity.
  - unfold printed. rewrite <- !app_assoc. reflexivity.
Qed.
(** The record the sort puts first has the smallest [enqueued_at]. *)
Lemma front_smallest ws front rest :
  list_sort enqueued_at ws = Ok (front :: rest) →
  In front ws
  ∧ ∀ r first_at at_, In r ws → enqueued_at front = Ok first_at →
      enqueued_at r = Ok at_ → String.leb first_at at_ = true.
Proof.
  intros Hs.
  pose proof (list_sort_perm _ _ _ Hs) as Hperm.
  pose proof (list_sort_sorted _ _ _ Hs) as Hsorted.
  split.
  - eapply Permutation_in; [exact Hperm|by left].
  - intros r fat rat Hr Hf Hrat.
    inversion Hsorted as [|? ? _ Hall]; subst.
    assert (Hk : ∀ x k, enqueued_at x = Ok k → key_or_empty enqueued_at x = k).
    { intros x k Hx. unfold key_or_empty. by rewrite Hx. }
    apply (Permutation_in _ (Permutation_sym Hperm)) in Hr as [<-|Hr].
    + assert (fat = rat) as -> by congruence. apply string_leb_refl.
    + rewrite List.Forall_forall in Hall. specialize (Hall r Hr).
      by rewrite (Hk _ _ Hf), (Hk _ _ Hrat) in Hall.
Qed.

(** The long lease and the short one never ask for the same expiry. *)
Lemma promotion_not_renewal tn id w : promotion tn id w ≠ renewal tn id w.
Proof.
  unfold promotion, renewal, int_timestamp, datetime_add.
  intros [= H]. revert H.
  change (total_microseconds RUNNING_TTL) with 28800000000.
  change (total_microseconds WAITING_TTL) with 600000000.
  set (c := clock w + dt (upcoming (script w))).
  pose proof (Z.quot_rem' (c + 28800000000) 1000000) as H1.
  pose proof (Z.quot_rem' (c + 600000000) 1000000) as H2.
  pose proof (Z.rem_bound_abs (c + 28800000000) 1000000) as B1.
  pose proof (Z.rem_bound_abs (c + 600000000) 1000000) as B2.
  lia.
Qed.

Lemma time_sleep_run secs w :
  ∃ w', time_sleep secs w = (Ok tt, w')
        ∧ calls w' = (calls w ++ [Sleep secs])%list
        ∧ stdout w' = stdout w.
Proof. unfold time_sleep. run. eauto. Qed.
Lemma start_running_printed tn id ms w :
  (start_running tn id (printed ms w)).1 = (start_running tn id w).1.
Proof.
  unfold start_running, datetime_now, update_item, printed. run.
  destruct (fault (upcoming (tail (script w)))) as [[?|?]|]; reflexivity.
Qed.

(** C1.  In an iteration of the poll loop that is below the wait ceiling
    and whose scan answered with a non-empty list of records, let [front]
    be the record the sort puts first: it is one of the scanned (live)
    records and no scanned record has a smaller [enqueued_at] in the order
    of strings.  The iteration sends the promotion request (the update that
    [start_running] makes) if and only if the entrant's id is the id of
    [front]; it returns if and only if moreover [start_running] answers
    [True], and then [enqueue_and_wait]'s loop hands control back to its
    caller. *)
Theorem front_of_queue_promotes table_name workflow_run_id github_repo start_time
    queue_position w now all_workflows w3 :
  scans table_name start_time w now all_workflows w3 →
  all_workflows ≠ [] →
  Forall is_record all_workflows →
  ∃ front first_workflow_id first_at,
    In front all_workflows
    ∧ run_id front = Ok first_workflow_id
    ∧ enqueued_at front = Ok first_at
    ∧ (∀ r at_, In r all_workflows → enqueued_at r = Ok at_ →
         String.leb first_at at_ = true)
    ∧ ∃ r w' sent,
        iteration table_name workflow_run_id github_repo start_time queue_position w
        = (r, w')
        ∧ calls w' = (calls w3 ++ sent)%list
        ∧ (In (promotion table_name workflow_run_id w3) sent
           ↔ first_workflow_id = workflow_run_id)
        ∧ (r = Ok Return
           ↔ first_workflow_id = workflow_run_id
             ∧ (start_running table_name workflow_run_id w3).1 = Ok true)
        ∧ (r = Ok Return →
           ∀ fuel, wait_loop (S fuel) table_name workflow_run_id github_repo
                     start_time queue_position w = (Ok Returned, w')).
Proof.
  intros Hscan Hne Hrec.
  destruct (rank_and_act_records table_name workflow_run_id queue_position
              all_workflows w3 Hne Hrec)
    as (front & rest & ids & fid & qp' & Hs & Hids & Hfid & Hqp & Hact).
  destruct (front_smallest _ _ _ Hs) as [Hin Hmin].
  assert (∃ fat, enqueued_at front = Ok fat) as [fat Hfat].
  { rewrite List.Forall_forall in Hrec. destruct (Hrec front Hin) as (? & ? & _ & ?). eauto. }
  exists front, fid, fat. repeat (split; [done|]).
  split; [intros r at_ Hr Hat; by eapply Hmin|].
  assert (Hloop : ∀ r w', iteration table_name workflow_run_id github_repo start_time
                            queue_position w = (r, w') → r = Ok Return →
            ∀ fuel, wait_loop (S fuel) table_name workflow_run_id github_repo
                      start_time queue_position w = (Ok Returned, w')).
  { intros r w' Hit -> fuel. cbn [wait_loop]. unfold mbind, M_bind. by rewrite Hit. }
  destruct (iteration table_name workflow_run_id github_repo start_time
              queue_position w) as [r w'] eqn:Hit.
  specialize (Hloop r w' eq_refl).
  rewrite (iteration_scans _ workflow_run_id github_repo _ queue_position _ _ _ _ Hscan),
    Hact in Hit.
  clear Hact. exists r, w'.
  destruct (String.eqb_spec fid workflow_run_id) as [->|Hdiff].
  - (* this entrant is the front *)
    cbn [find_position] in Hqp. unfold run_id in Hfid. rewrite Hfid in Hqp.
    unfold mbind, result_bind in Hqp. rewrite String.eqb_refl in Hqp.
    injection Hqp as <-. cbn zeta in Hit.
    set (w1 := printed _ w3) in Hit.
    unfold mbind at 1, M_bind at 1 in Hit.
    change (print MsgAtFront w1) with (Ok tt, printed [MsgAtFront] w1) in Hit.
    cbn iota in Hit.
    unfold mbind at 1, M_bind at 1 in Hit.
    assert (E1 : (start_running table_name workflow_run_id (printed [MsgAtFront] w1)).1
                 = (start_running table_name workflow_run_id w3).1)
      by (unfold w1; by rewrite !start_running_printed).
    destruct (start_running_run table_name workflow_run_id (printed [MsgAtFront] w1))
      as (promoted & w4 & Hrun & Hcalls & _ & _).
    rewrite Hrun in Hit, E1. cbn [fst] in E1. rewrite <- E1.
    destruct promoted as [[|]|e]; run; injection Hit as <- <-.
    + exists [promotion table_name workflow_run_id w3].
      split; [reflexivity|]. split; [exact Hcalls|].
      split; [split; [done|by left]|].
      split; [done|]. intros _. by apply Hloop.
    + exists [promotion table_name workflow_run_id w3; Sleep (seconds POLL_INTERVAL)].
      split; [reflexivity|]. split.
      { cbn. rewrite Hcalls. unfold w1. cbn. by rewrite <- app_assoc. }
      split; [split; [done|by left]|].
      split; [|done]. split; [done|]. intros [_ ?]. done.
    + exists [promotion table_name workflow_run_id w3].
      split; [reflexivity|]. split; [exact Hcalls|].
      split; [split; [done|by left]|].
      split; [|done]. split; [done|]. intros [_ ?]. done.
  - (* somebody else is *)
    destruct qp' as [n|].
    + cbn zeta in Hit. set (w1 := printed _ w3) in Hit.
      unfold mbind at 1, M_bind at 1 in Hit.
      change (print (MsgNotOurTurn (seconds POLL_INTERVAL)) w1)
        with (Ok tt, printed [MsgNotOurTurn (seconds POLL_INTERVAL)] w1) in Hit.
      cbn iota in Hit. unfold mbind at 1, M_bind at 1 in Hit.
      destruct (refresh_ttl_run table_name workflow_run_id
                  (printed [MsgNotOurTurn (seconds POLL_INTERVAL)] w1))
        as (renewed & w4 & Hrun & Hcalls & _).
      rewrite Hrun in Hit. destruct renewed as [[]|e]; run; injection Hit as <- <-.
      * exists [renewal table_name workflow_run_id w3; Sleep (seconds POLL_INTERVAL)].
        split; [reflexivity|]. split.
        { cbn. rewrite Hcalls. unfold w1. cbn. by rewrite <- app_assoc. }
        split.
        { split; [|done]. intros [H|[H|[]]]; [|done].
          by apply eq_sym, promotion_not_renewal in H. }
        split; [|done]. split; [done|]. intros [? _]. done.
      * exists [renewal table_name workflow_run_id w3].
        split; [reflexivity|]. split; [exact Hcalls|].
        split.
        { split; [|done]. intros [H|[]].
          by apply eq_sym, promotion_not_renewal in H. }
        split; [|done]. split; [done|]. intros [? _]. done.
    + cbn in Hit. injection Hit as <- <-. exists []. split; [reflexivity|]. cbn.
      split; [by rewrite app_nil_r|].
      split; [split; [done|done]|].
      split; [|done]. split; [done|]. intros [? _]. done.
Qed.
Lemma wait_loop_step fuel tn id repo start qp w :
  wait_loop (S fuel) tn id repo start qp w
  = match iteration tn id repo start qp w with
    | (Ok Return, w') => (Ok Returned, w')
    | (Ok (Next qp'), w') => wait_loop fuel tn id repo start qp' w'
    | (Raise e, w') => (Raise e, w')
    end.
Proof.
  cbn [wait_loop]. unfold mbind, M_bind.
  destruct (iteration tn id repo start qp w) as [[[|qp']|e] w']; reflexivity.
Qed.

(** C2, as the script has it.  When the entrant is at the front and the
    promotion fails ([start_running] answers [False]), the iteration ends
    at the bottom of the loop body like any other: it sleeps for the poll
    interval (60 s), and only then does the loop go round again, to scan
    and rank afresh. *)
Theorem failed_promotion_sleeps table_name workflow_run_id github_repo start_time
    queue_position w now all_workflows w3 front rest :
  scans table_name start_time w now all_workflows w3 →
  Forall is_record all_workflows →
  list_sort enqueued_at all_workflows = Ok (front :: rest) →
  run_id front = Ok workflow_run_id →
  (start_running table_name workflow_run_id w3).1 = Ok false →
  ∃ w',
    iteration table_name workflow_run_id github_repo start_time queue_position w
    = (Ok (Next (Some 1)), w')
    ∧ calls w' = (calls w3 ++ [promotion table_name workflow_run_id w3;
                               Sleep (seconds POLL_INTERVAL)])%list
    ∧ seconds POLL_INTERVAL = 60
    ∧ last (stdout w') = Some MsgRetrying
    ∧ ∀ fuel,
        wait_loop (S fuel) table_name workflow_run_id github_repo start_time
          queue_position w
        = wait_loop fuel table_name workflow_run_id github_repo start_time
            (Some 1) w'.
Proof.
  intros Hscan Hrec Hs Hfront Hfail.
  assert (Hne : all_workflows ≠ []).
  { intros ->. apply list_sort_perm, Permutation_nil_r in Hs. done. }
  destruct (rank_and_act_records table_name workflow_run_id queue_position
              all_workflows w3 Hne Hrec)
    as (front' & rest' & ids & fid & qp' & Hs' & Hids & Hfid & Hqp & Hact).
  rewrite Hs in Hs'. injection Hs' as <- <-.
  assert (fid = workflow_run_id) as -> by congruence.
  cbn [find_position] in Hqp. unfold run_id in Hfid. rewrite Hfid in Hqp.
  unfold mbind, result_bind in Hqp. rewrite String.eqb_refl in Hqp.
  injection Hqp as <-.
  pose proof (iteration_scans _ workflow_run_id github_repo _ queue_position
                _ _ _ _ Hscan) as Hit.
  rewrite Hact in Hit. clear Hact.
  rewrite String.eqb_refl in Hit. cbn zeta in Hit.
  set (w1 := printed _ w3) in Hit.
  unfold mbind at 1, M_bind at 1 in Hit.
  change (print MsgAtFront w1) with (Ok tt, printed [MsgAtFront] w1) in Hit.
  cbn iota in Hit. unfold mbind at 1, M_bind at 1 in Hit.
  assert (E1 : (start_running table_name workflow_run_id (printed [MsgAtFront] w1)).1
               = Ok false)
    by (unfold w1; by rewrite !start_running_printed).
  destruct (start_running_run table_name workflow_run_id (printed [MsgAtFront] w1))
    as (promoted & w4 & Hrun & Hcalls & _ & _).
  rewrite Hrun in Hit, E1. cbn [fst] in E1. subst promoted.
  run_in Hit.
  eexists. split; [exact Hit|]. cbn -[wait_loop].
  split; [rewrite Hcalls; unfold w1; cbn; by rewrite <- app_assoc|].
  split; [done|]. split; [by rewrite last_snoc|].
  intros fuel. by rewrite wait_loop_step, Hit.
Qed.

(** C6.  When the scan of an iteration succeeds and gives no item at all,
    the script prints that its own job should have been there and leaves
    through [sys.exit(1)]: nothing more is sent (no renewal, no sleep, no
    second scan), the loop is over, and the exit status of the process is
    1. *)
Theorem empty_scan_is_fatal table_name workflow_run_id github_repo start_time
    queue_position w now w3 :
  scans table_name start_time w now [] w3 →
  iteration table_name workflow_run_id github_repo start_time queue_position w
  = (Raise (SystemExit 1), printed [MsgNoWorkflows] w3)
  ∧ calls (printed [MsgNoWorkflows] w3) = calls w3
  ∧ (∀ fuel,
       wait_loop (S fuel) table_name workflow_run_id github_repo start_time
         queue_position w
       = (Raise (SystemExit 1), printed [MsgNoWorkflows] w3))
  ∧ exit_status (Raise (SystemExit 1)) = Some 1.
Proof.
  intros Hscan.
  pose proof (iteration_scans _ workflow_run_id github_repo _ queue_position
                _ _ _ _ Hscan) as Hit.
  cbn in Hit. fold (printed [MsgNoWorkflows] w3) in Hit.
  split; [done|]. split; [done|]. split; [|done].
  intros fuel. by rewrite wait_loop_step, Hit.
Qed.

(** C10, as the script has it.  When the scan of an iteration gives a
    non-empty list of records none of which carries the entrant's id, the
    [for] loop of lines 171-174 assigns nothing, and line 177 reads
    [queue_position].  If no earlier iteration assigned it, that read
    raises [UnboundLocalError], which the [except ClientError] of line 193
    does not catch: nothing more is sent and the process ends with an
    uncaught exception (status 1).  If an earlier iteration did assign it,
    the stale position is printed and the iteration goes on as a waiting
    one: it renews the lease, sleeps, and the loop continues; unless the
    renewal is one that boto3 gives up on without an answer of DynamoDB,
    whose exception no handler of the script catches. *)
Theorem own_record_missing table_name workflow_run_id github_repo start_time
    queue_position w now all_workflows w3 :
  scans table_name start_time w now all_workflows w3 →
  all_workflows ≠ [] →
  Forall is_record all_workflows →
  (∀ x, In x all_workflows → run_id x ≠ Ok workflow_run_id) →
  match queue_position with
  | None =>
      ∃ w',
        iteration table_name workflow_run_id github_repo start_time None w
        = (Raise (UnboundLocalError "queue_position"), w')
        ∧ calls w' = calls w3
        ∧ (∀ fuel,
             wait_loop (S fuel) table_name workflow_run_id github_repo start_time
               None w
             = (Raise (UnboundLocalError "queue_position"), w'))
        ∧ exit_status (Raise (UnboundLocalError "queue_position")) = Some 1
  | Some n =>
      match uncaught (update_fate w3) with
      | None =>
          ∃ w',
            iteration table_name workflow_run_id github_repo start_time (Some n) w
            = (Ok (Next (Some n)), w')
            ∧ calls w' = (calls w3 ++ [renewal table_name workflow_run_id w3;
                                       Sleep (seconds POLL_INTERVAL)])%list
            ∧ In (MsgQueuePosition n) (stdout w')
            ∧ ∀ fuel,
                wait_loop (S fuel) table_name workflow_run_id github_repo start_time
                  (Some n) w
                = wait_loop fuel table_name workflow_run_id github_repo start_time
                    (Some n) w'
      | Some e =>
          ∃ w',
            iteration table_name workflow_run_id github_repo start_time (Some n) w
            = (Raise e, w')
            ∧ calls w' = (calls w3 ++ [renewal table_name workflow_run_id w3])%list
            ∧ In (MsgQueuePosition n) (stdout w')
            ∧ (∀ fuel,
                 wait_loop (S fuel) table_name workflow_run_id github_repo
                   start_time (Some n) w
                 = (Raise e, w'))
            ∧ exit_status (Raise e) = Some 1
      end
  end.
Proof.
  intros Hscan Hne Hrec Habs.
  destruct (rank_and_act_records table_name workflow_run_id queue_position
              all_workflows w3 Hne Hrec)
    as (front & rest & ids & fid & qp' & Hs & Hids & Hfid & Hqp & Hact).
  pose proof (list_sort_perm _ _ _ Hs) as Hperm.
  rewrite find_position_absent in Hqp.
  2:{ by rewrite Hperm. }
  2:{ intros x Hx. apply Habs. eapply Permutation_in; [exact Hperm|exact Hx]. }
  injection Hqp as <-.
  assert (Hfront : (fid =? workflow_run_id)%string = false).
  { apply String.eqb_neq. intros ->. apply (Habs front); [|done].
    eapply Permutation_in; [exact Hperm|by left]. }
  pose proof (iteration_scans _ workflow_run_id github_repo _ queue_position
                _ _ _ _ Hscan) as Hit.
  rewrite Hact in Hit. clear Hact.
  destruct queue_position as [n|].
  - rewrite Hfront in Hit. cbn zeta in Hit. set (w1 := printed _ w3) in Hit.
    unfold mbind at 1, M_bind at 1 in Hit.
    change (print (MsgNotOurTurn (seconds POLL_INTERVAL)) w1)
      with (Ok tt, printed [MsgNotOurTurn (seconds POLL_INTERVAL)] w1) in Hit.
    cbn iota in Hit. unfold mbind at 1, M_bind at 1 in Hit.
    destruct (refresh_ttl_run table_name workflow_run_id
                (printed [MsgNotOurTurn (seconds POLL_INTERVAL)] w1))
      as (renewed & w4 & Hrun & Hcalls & _ & Hrenewed).
    change (update_fate (printed [MsgNotOurTurn (seconds POLL_INTERVAL)] w1))
      with (update_fate w3) in Hrenewed.
    assert (Hout : ∃ ms, stdout w4 = (stdout w1 ++ ms)%list).
    { revert Hrun. unfold refresh_ttl, datetime_now, update_item. run.
      destruct (fault _) as [[?|?]|]; run; intros [= _ <-]; cbn;
        first [by eexists | rewrite <- app_assoc; by eexists]. }
    rewrite Hrun in Hit.
    destruct (uncaught (update_fate w3)) as [e|] eqn:He; subst renewed; run_in Hit.
    + eexists. split; [exact Hit|]. cbn -[wait_loop].
      split; [rewrite Hcalls; unfold w1; cbn; done|].
      split.
      { destruct Hout as [ms ->]. unfold w1. cbn.
        rewrite !List.in_app_iff. left. right. cbn. auto. }
      split; [intros fuel; by rewrite wait_loop_step, Hit|].
      by apply uncaught_BotoCoreError in He as (name & _ & ->).
    + eexists. split; [exact Hit|]. cbn -[wait_loop].
      split; [rewrite Hcalls; unfold w1; cbn; by rewrite <- app_assoc|].
      split.
      { destruct Hout as [ms ->]. unfold w1. cbn.
        rewrite !List.in_app_iff. left. right. cbn. auto. }
      intros fuel. by rewrite wait_loop_step, Hit.
  - cbn in Hit. eexists. split; [exact Hit|]. split; [done|]. split; [|done].
    intros fuel. by rewrite wait_loop_step, Hit.
Qed.
Lemma live_after now ttl :
  int_timestamp now < ttl → now < ttl * 1000000.
Proof.
  unfold int_timestamp. intros H.
  pose proof (Z.quot_rem' now 1000000).
  pose proof (Z.rem_bound_abs now 1000000). lia.
Qed.

Lemma scan_run tn now_timestamp w :
  ∃ r w', scan tn now_timestamp w = (r, w')
          ∧ calls w' = (calls w ++ [Scan tn now_timestamp])%list
          ∧ table w' = others (upcoming (script w)) (table w)
          ∧ (∀ ws, r = Ok ws →
               ws = List.filter (live now_timestamp)
                      (first_page (upcoming (script w)) (table w'))).
Proof.
  unfold scan. run. destruct (fault (upcoming (script w))); run.
  - eexists _, _. split; [reflexivity|]. cbn. repeat split. intros ws [=].
  - eexists _, _. split; [reflexivity|]. cbn. repeat split. by intros ws [= <-].
Qed.

Lemma first_page_In f t x : In x (first_page f t) → In x t.
Proof.
  unfold first_page. destruct (page f) as [n|]; [|done].
  revert t. induction n as [|n IH]; intros [|y t]; cbn; try done.
  intros [->|H]; [by left|right; by apply IH].
Qed.

Lemma scans_fate table_name start_time w now all_workflows w3 :
  scans table_name start_time w now all_workflows w3 →
  ∃ w2, script w2 = tail (tail (script w))
        ∧ scan table_name (int_timestamp now) w2 = (Ok all_workflows, w3).
Proof.
  intros (t & w1 & w2 & Ht & _ & Hnow & Hs). exists w2. split; [|done].
  revert Ht Hnow. unfold time_time, datetime_now. run.
  intros [= _ <-]. cbn. by intros [= _ <-].
Qed.

(** C3.  In an iteration whose scan succeeds, the list the iteration goes
    on to rank is the rows of the table, as the scan found it, whose [ttl]
    is a number above the whole seconds of the time read at line 145 (of
    the rows of the first page, should DynamoDB end the page before the end
    of the table): each of them expires strictly after that time, and a row
    whose expiry is at or before it is not in the list, present in the
    table though it is.  What is sorted, ranked and searched for the front
    is that list and nothing else. *)
Theorem scan_keeps_live_only table_name workflow_run_id github_repo start_time
    queue_position w now all_workflows w3 :
  scans table_name start_time w now all_workflows w3 →
  all_workflows
  = List.filter (live (int_timestamp now)) (first_page (scan_fate w) (table w3))
  ∧ (page (scan_fate w) = None →
     all_workflows = List.filter (live (int_timestamp now)) (table w3))
  ∧ last (calls w3) = Some (Scan table_name (int_timestamp now))
  ∧ (∀ it, In it all_workflows →
       In it (table w3)
       ∧ ∃ ttl, it !! "ttl" = Some (AttrN ttl) ∧ now < ttl * 1000000)
  ∧ (∀ it ttl, In it (table w3) → it !! "ttl" = Some (AttrN ttl) →
       ttl * 1000000 ≤ now → ¬ In it all_workflows)
  ∧ iteration table_name workflow_run_id github_repo start_time queue_position w
    = finish_iteration
        (rank_and_act table_name workflow_run_id queue_position all_workflows w3)
  ∧ (∀ sorted, list_sort enqueued_at all_workflows = Ok sorted →
       sorted ≡ₚ all_workflows).
Proof.
  intros Hscan.
  destruct (scans_fate _ _ _ _ _ _ Hscan) as (w2 & Hscript & Hs).
  destruct (scan_run table_name (int_timestamp now) w2)
    as (r & w' & Hrun & Hcalls & _ & Hfilter).
  rewrite Hs in Hrun. injection Hrun as <- <-.
  specialize (Hfilter _ eq_refl). rewrite Hscript in Hfilter.
  fold (scan_fate w) in Hfilter.
  assert (Hlive : ∀ it, In it all_workflows →
            In it (table w3)
            ∧ ∃ ttl, it !! "ttl" = Some (AttrN ttl) ∧ now < ttl * 1000000).
  { intros it. rewrite Hfilter, List.filter_In. intros [Hin Hl].
    split; [by eapply first_page_In|]. unfold live in Hl.
    destruct (it !! "ttl") as [[s|n]|]; try done.
    exists n. split; [done|]. apply live_after. lia. }
  split; [done|].
  split; [intros Hpage; rewrite Hfilter; unfold first_page; by rewrite Hpage|].
  split; [by rewrite Hcalls, last_snoc|].
  split; [done|]. split.
  { intros it ttl _ Httl Hle Hin. destruct (Hlive it Hin) as (_ & n & Hn & ?).
    rewrite Httl in Hn. injection Hn as ->. lia. }
  split; [by eapply iteration_scans|].
  intros sorted. apply list_sort_perm.
Qed.
Lemma reruns_app cs1 cs2 : reruns (cs1 ++ cs2) = (reruns cs1 + reruns cs2)%nat.
Proof. unfold reruns. by rewrite List.filter_app, List.length_app. Qed.

(** What [rank_and_act] sends: nothing, or one update of the entrant's
    lease. *)
Lemma rank_and_act_calls tn id qp ws w r w' :
  rank_and_act tn id qp ws w = (r, w') →
  calls w' = calls w ∨ ∃ v, calls w' = (calls w ++ [UpdateItem tn id v])%list.
Proof.
  unfold rank_and_act. destruct ws as [|x ws]; run; [intros [= <- <-]; by left|].
  destruct (list_sort _ (x :: ws)) as [s|e]; run; [|intros [= <- <-]; by left].
  destruct (comprehension _ s) as [ids|e]; run; [|intros [= <- <-]; by left].
  destruct s as [|y s]; run; [intros [= <- <-]; by left|].
  destruct (item_S y "workflow_run_id") as [fid|e]; run; [|intros [= <- <-]; by left].
  destruct (find_position id 0 (y :: s) qp) as [[n|]|e]; run;
    try (intros [= <- <-]; by left).
  destruct ((fid =? id)%string); run.
  - edestruct (start_running_run tn id) as (p & w1 & -> & Hc & _).
    destruct p as [[|]|e]; run; intros [= <- <-]; right; eauto.
  - edestruct (refresh_ttl_run tn id) as (p & w1 & -> & Hc & _).
    destruct p as [[]|e]; run; intros [= <- <-]; right; eauto.
Qed.

Lemma restart_workflow_run repo id w :
  ∃ restarted w',
    restart_workflow repo id w = (Ok restarted, w')
    ∧ calls w' = (if truthy repo
                  then calls w ++ [rerun_request (default "" repo) id]
                  else calls w)%list.
Proof.
  unfold restart_workflow, subprocess_run.
  destruct (truthy repo); run; [|eauto].
  destruct (gh (upcoming (script w))); run; eauto.
Qed.

Ltac close_calls :=
  rewrite <- ?app_assoc; eexists; (split; [reflexivity|]);
  (split; [repeat constructor|by left]).

(** What one iteration sends. *)
Lemma iteration_calls tn id repo start qp w r w' :
  iteration tn id repo start qp w = (r, w') →
  ∃ sent,
    calls w' = (calls w ++ sent)%list
    ∧ Forall (lease_update_only tn id) sent
    ∧ (reruns sent = 0%nat
       ∨ (sent = [rerun_request (default "" repo) id]
          ∧ r = Raise (SystemExit 1) ∧ truthy repo = true)).
Proof.
  unfold iteration, time_time. run.
  destruct (Z.leb_spec (seconds MAX_QUEUE_DUR)
              (int_elapsed (clock w + dt (upcoming (script w))) start)) as [Hc|Hc].
  - destruct (truthy repo) eqn:Hrepo; run.
    + edestruct (restart_workflow_run repo id) as (b & w1 & -> & Hcalls).
      rewrite Hrepo in Hcalls. cbn in Hcalls.
      destruct b; run; intros [= <- <-]; cbn; eexists; (split; [exact Hcalls|]);
        (split; [repeat constructor|]); right; done.
    + intros [= <- <-]. exists []. cbn. rewrite app_nil_r. repeat split; auto.
  - unfold scan_and_act, datetime_now, scan. run.
    destruct (fault (upcoming (tail (tail (script w))))) as [[code|name]|]; run.
    + unfold time_sleep. run. intros [= <- <-]. cbn. close_calls.
    + intros [= <- <-]. cbn. close_calls.
    + match goal with |- context [rank_and_act tn id qp ?ws ?w0] =>
        destruct (rank_and_act tn id qp ws w0) as [[[|qp']|e] w4] eqn:Hact;
        apply rank_and_act_calls in Hact; cbn in Hact end.
      * intros [= <- <-]. destruct Hact as [->|[v ->]]; close_calls.
      * unfold time_sleep. run. intros [= <- <-]. cbn.
        destruct Hact as [->|[v ->]]; close_calls.
      * destruct e; run; try (intros [= <- <-]; destruct Hact as [->|[v ->]]; close_calls).
Qed.
(** What the whole wait sends, however long it is looked at. *)
Lemma wait_loop_calls fuel tn id repo start qp w r w' :
  wait_loop fuel tn id repo start qp w = (r, w') →
  ∃ sent,
    calls w' = (calls w ++ sent)%list
    ∧ Forall (lease_update_only tn id) sent
    ∧ (reruns sent = 0%nat
       ∨ (reruns sent = 1%nat ∧ last sent = Some (rerun_request (default "" repo) id)
          ∧ r = Raise (SystemExit 1) ∧ truthy repo = true)).
Proof.
  revert qp w. induction fuel as [|fuel IH]; intros qp w.
  { cbn. intros [= <- <-]. exists []. rewrite app_nil_r. repeat split; auto. }
  rewrite wait_loop_step.
  destruct (iteration tn id repo start qp w) as [r1 w1] eqn:Hit.
  apply iteration_calls in Hit as (sent1 & Hc1 & Hl1 & Hr1).
  destruct r1 as [[|qp']|e].
  - intros [= <- <-]. exists sent1. repeat (split; [done|]).
    destruct Hr1 as [?|(_ & ? & _)]; [by left|done].
  - intros Hrest. apply IH in Hrest as (sent2 & Hc2 & Hl2 & Hr2).
    destruct Hr1 as [Hr1|(_ & ? & _)]; [|done].
    exists (sent1 ++ sent2)%list. rewrite Hc2, Hc1, <- app_assoc.
    split; [done|]. split; [by apply Forall_app|].
    rewrite reruns_app, Hr1. cbn.
    destruct Hr2 as [?|(? & Hlast & ? & ?)]; [by left|right].
    repeat (split; [done|]). split; [|done].
    destruct sent2; [done|]. by rewrite last_app_cons.
  - intros [= <- <-]. exists sent1. repeat (split; [done|]).
    destruct Hr1 as [?|(-> & [= ->] & ?)]; [by left|by right].
Qed.

Lemma queue_record_key id at_ ttl :
  queue_record id at_ ttl !! "workflow_run_id" = Some (AttrS id).
Proof. reflexivity. Qed.

Lemma queue_record_enqueued_at id at_ ttl :
  queue_record id at_ ttl !! "enqueued_at" = Some (AttrS at_).
Proof. reflexivity. Qed.

Lemma queue_record_ttl id at_ ttl :
  queue_record id at_ ttl !! "ttl" = Some (AttrN ttl).
Proof. reflexivity. Qed.

Lemma register_run tn id w :
  let now := clock w + dt (upcoming (script w)) in
  ∃ r w',
    register tn id w = (r, w')
    ∧ calls w' = (calls w ++ [PutItem tn
        (queue_record id (isoformat now)
           (int_timestamp (datetime_add now WAITING_TTL)))])%list.
Proof.
  unfold register, datetime_now, put_item. run.
  fold (queue_record id (isoformat (clock w + dt (upcoming (script w))))
          (int_timestamp (datetime_add (clock w + dt (upcoming (script w))) WAITING_TTL))).
  rewrite queue_record_key.
  destruct (fault (upcoming (tail (script w)))) as [[code|name]|]; run.
  - destruct (code =? "ConditionalCheckFailedException")%string; run; eauto.
  - eauto.
  - destruct (existsb _ _); run; eauto.
Qed.

Lemma enqueue_and_wait_unfold fuel tn id repo w :
  enqueue_and_wait fuel tn id repo w
  = match register tn id
            (printed [MsgEnqueuing; MsgTable tn; MsgWorkflowRun id; MsgBlank] w) with
    | (Ok _, w1) =>
        (start_time ← time_time; wait_loop fuel tn id repo start_time None) w1
    | (Raise e, w1) => (Raise e, w1)
    end.
Proof.
  unfold enqueue_and_wait. unfold mbind at 1 2 3 4 5, M_bind at 1 2 3 4 5, print.
  cbn -[wait_loop register time_time]. unfold printed.
  rewrite <- !app_assoc. cbn [app]. reflexivity.
Qed.

Lemma enqueue_and_wait_reruns fuel tn id repo w r w' :
  enqueue_and_wait fuel tn id repo w = (r, w') →
  ∃ sent,
    calls w' = (calls w ++ sent)%list
    ∧ (reruns sent = 0%nat
       ∨ (reruns sent = 1%nat ∧ last sent = Some (rerun_request (default "" repo) id)
          ∧ r = Raise (SystemExit 1) ∧ truthy repo = true)).
Proof.
  rewrite enqueue_and_wait_unfold.
  destruct (register_run tn id
              (printed [MsgEnqueuing; MsgTable tn; MsgWorkflowRun id; MsgBlank] w))
    as (r1 & w1 & -> & Hc1).
  cbn in Hc1. set (put := PutItem _ _) in Hc1.
  destruct r1 as [[]|e].
  - unfold time_time. run. intros Hloop.
    apply wait_loop_calls in Hloop as (sent & Hc & _ & Hr). cbn in Hc.
    exists (put :: sent). rewrite Hc, Hc1, <- app_assoc. split; [done|].
    change (put :: sent) with ([put] ++ sent)%list. rewrite reruns_app. cbn.
    destruct Hr as [?|(? & Hlast & ? & ?)]; [by left|right].
    repeat (split; [done|]). split; [|done]. by destruct sent.
  - intros [= <- <-]. exists [put]. split; [done|]. by left.
Qed.
(** C4.  An iteration that finds the elapsed time at or above
    [MAX_QUEUE_DUR.seconds] (19800 s, 5 h 30 min) ends in [sys.exit(1)],
    whatever the world does (in particular however [gh] ends): the loop is
    over and the exit status is 1.  With a truthy [github_repo] it sends
    exactly one request, the rerun of this run through [gh]; without one
    it sends nothing.  And over a whole execution of [enqueue_and_wait],
    however long, at most one rerun request is sent, none when
    [github_repo] is not given, and one only on the way out through
    [sys.exit(1)], as the last request sent. *)
Theorem wait_ceiling table_name workflow_run_id github_repo start_time
    queue_position w :
  seconds MAX_QUEUE_DUR
  ≤ int_elapsed (clock w + dt (upcoming (script w))) start_time →
  seconds MAX_QUEUE_DUR = 5 * 3600 + 30 * 60
  ∧ (∃ w',
       iteration table_name workflow_run_id github_repo start_time queue_position w
       = (Raise (SystemExit 1), w')
       ∧ (∀ fuel,
            wait_loop (S fuel) table_name workflow_run_id github_repo start_time
              queue_position w
            = (Raise (SystemExit 1), w'))
       ∧ exit_status (Raise (SystemExit 1)) = Some 1
       ∧ calls w'
         = (if truthy github_repo
            then calls w ++ [rerun_request (default "" github_repo) workflow_run_id]
            else calls w)%list)
  ∧ (∀ fuel w0 r w0',
       enqueue_and_wait fuel table_name workflow_run_id github_repo w0 = (r, w0') →
       ∃ sent,
         calls w0' = (calls w0 ++ sent)%list
         ∧ (reruns sent ≤ 1)%nat
         ∧ (truthy github_repo = false → reruns sent = 0%nat)
         ∧ (reruns sent = 1%nat →
            r = Raise (SystemExit 1)
            ∧ last sent
              = Some (rerun_request (default "" github_repo) workflow_run_id))).
Proof.
  intros Hc. split; [reflexivity|]. split.
  - assert (∃ w', iteration table_name workflow_run_id github_repo start_time
                    queue_position w = (Raise (SystemExit 1), w')
             ∧ calls w' = (if truthy github_repo
                          then calls w ++ [rerun_request (default "" github_repo)
                                             workflow_run_id]
                          else calls w)%list) as (w' & Hit & Hcalls).
    { unfold iteration, time_time. run.
      destruct (Z.leb_spec (seconds MAX_QUEUE_DUR)
                  (int_elapsed (clock w + dt (upcoming (script w))) start_time))
        as [_|?]; [|lia].
      destruct (truthy github_repo) eqn:Hrepo; run; [|eauto].
      edestruct (restart_workflow_run github_repo workflow_run_id)
        as (b & w1 & -> & Hcalls).
      rewrite Hrepo in Hcalls. cbn in Hcalls. destruct b; run; eauto. }
    exists w'. split; [done|]. split; [|done].
    intros fuel. by rewrite wait_loop_step, Hit.
  - intros fuel w0 r w0' Hrun.
    apply enqueue_and_wait_reruns in Hrun as (sent & Hcalls & Hr).
    exists sent. split; [done|].
    destruct Hr as [->|(-> & Hlast & -> & Hrepo)].
    + split; [lia|]. split; [done|]. intros [=].
    + split; [lia|]. split; [congruence|done].
Qed.
Lemma has_key_queue_record id at_ ttl : has_key id (queue_record id at_ ttl) = true.
Proof. unfold has_key. rewrite queue_record_key. by apply bool_decide_eq_true. Qed.

(** C5.  The registration sends one conditional insert of the entrant's
    record.  [found] is the table as that insert finds it.  If the answer
    is the [ConditionalCheckFailedException] (the table gives it when a
    row with this [workflow_run_id] is already there), the script prints
    that it ignores the error and enters the wait loop, and the table is
    as found: the row that was there, with its [enqueued_at], stays.  If
    the insert goes through, the table is as found with the new record at
    its end, and a second registration would find it.  With any other
    error code the script leaves through [sys.exit(1)], before any wait
    and with the table as found: the process ends with status 1.  A
    failure of boto3 without an answer of DynamoDB is not caught at all:
    its exception ends the process, with status 1 as well. *)
Theorem registration_outcomes fuel table_name workflow_run_id github_repo w :
  let w0 := printed [MsgEnqueuing; MsgTable table_name;
                     MsgWorkflowRun workflow_run_id; MsgBlank] w in
  let now := clock w + dt (upcoming (script w)) in
  let put := upcoming (tail (script w)) in
  let found := others put (others (upcoming (script w)) (table w)) in
  let record := queue_record workflow_run_id (isoformat now)
                  (int_timestamp (datetime_add now WAITING_TTL)) in
  ∃ r w1,
    register table_name workflow_run_id w0 = (r, w1)
    ∧ calls w1 = (calls w ++ [PutItem table_name record])%list
    ∧ enqueue_and_wait fuel table_name workflow_run_id github_repo w
      = match r with
        | Ok _ => (start_time ← time_time;
                   wait_loop fuel table_name workflow_run_id github_repo
                     start_time None) w1
        | Raise e => (Raise e, w1)
        end
    ∧ (fault put = Some (ErrorResponse "ConditionalCheckFailedException")
       ∨ (fault put = None ∧ existsb (has_key workflow_run_id) found = true) →
       r = Ok tt ∧ table w1 = found
       ∧ In (MsgAlreadyInQueue workflow_run_id) (stdout w1))
    ∧ (fault put = None → existsb (has_key workflow_run_id) found = false →
       r = Ok tt ∧ table w1 = (found ++ [record])%list
       ∧ existsb (has_key workflow_run_id) (table w1) = true)
    ∧ (∀ code, fault put = Some (ErrorResponse code) →
         code ≠ "ConditionalCheckFailedException" →
         r = Raise (SystemExit 1) ∧ table w1 = found
         ∧ exit_status (Raise (SystemExit 1)) = Some 1)
    ∧ (∀ name, fault put = Some (NoResponse name) →
         r = Raise (BotoCoreError name) ∧ table w1 = found
         ∧ exit_status (Raise (BotoCoreError name)) = Some 1).
Proof.
  intros w0 now put found record.
  destruct (register table_name workflow_run_id w0) as [r w1] eqn:Hreg.
  exists r, w1. split; [done|].
  pose proof (enqueue_and_wait_unfold fuel table_name workflow_run_id github_repo w)
    as Hunfold.
  fold w0 in Hunfold. rewrite Hreg in Hunfold.
  destruct (register_run table_name workflow_run_id w0) as (r' & w1' & Hreg' & Hcalls).
  rewrite Hreg in Hreg'. injection Hreg' as <- <-.
  split; [exact Hcalls|]. split; [by destruct r|].
  revert Hreg. unfold register, datetime_now, put_item. run.
  fold now.
  fold (queue_record workflow_run_id (isoformat now)
          (int_timestamp (datetime_add now WAITING_TTL))).
  rewrite queue_record_key. fold record. fold put. fold found.
  destruct (fault put) as [[code|name]|] eqn:Hfault; run.
  - destruct (String.eqb_spec code "ConditionalCheckFailedException") as [->|Hcode];
      run; intros [= <- <-]; cbn.
    + split.
      { intros _. repeat split. rewrite !List.in_app_iff. left. right. by left. }
      split; [done|]. split; [|done]. intros code [= <-] ?. done.
    + split; [intros [[= ->]|[[=] _]]; done|].
      split; [done|]. split; [|done]. intros code' _ _. done.
  - intros [= <- <-]; cbn.
    split; [intros [[=]|[[=] _]]|]. split; [done|]. split; [done|].
    intros name' [= <-]. done.
  - destruct (existsb (has_key workflow_run_id) found) eqn:Hex; run;
      intros [= <- <-]; cbn.
    + split.
      { intros _. repeat split. rewrite !List.in_app_iff. left. right. by left. }
      split; [done|]. split; [intros code [=]|intros name [=]].
    + split; [intros [[=]|[_ [=]]]|].
      split; [|split; [intros code [=]|intros name [=]]]. intros _ _. repeat split.
      rewrite existsb_app. cbn. unfold record.
      by rewrite has_key_queue_record, orb_true_r.
Qed.
Lemma remove_key_In k t it :
  In it (remove_key k t) ↔ In it t ∧ has_key k it = false.
Proof.
  unfold remove_key. rewrite List.filter_In, negb_true_iff. done.
Qed.

(** C7, as the script has it.  [dequeue] sends one request, the delete of
    the item under the entrant's key, with no condition.  [found] is the
    table as the delete finds it.  When the table accepts the request,
    every row under that key is gone and every other row stays, and when
    no row was under the key the table is as found (no error either).
    When DynamoDB answers with an error, the script prints the warning,
    the table is as found and [dequeue] returns normally: the process ends
    with status 0.  When boto3 gives up without an answer of DynamoDB, its
    exception is no [ClientError]: line 260 does not catch it, no warning
    is printed and the process ends with status 1.  Short of that, a
    second [dequeue] after the first succeeds as well, and removing twice
    leaves what removing once leaves. *)
Theorem dequeue_idempotent table_name workflow_run_id w :
  let found := others (upcoming (script w)) (table w) in
  ∃ r w',
    dequeue table_name workflow_run_id w = (r, w')
    ∧ calls w' = (calls w ++ [DeleteItem table_name workflow_run_id])%list
    ∧ match fault (upcoming (script w)) with
      | None =>
          r = Ok tt
          ∧ table w' = remove_key workflow_run_id found
          ∧ last (stdout w') = Some MsgRemoved
      | Some (ErrorResponse code) =>
          r = Ok tt
          ∧ table w' = found
          ∧ last (stdout w') = Some (MsgRemoveFailed (ClientError code))
      | Some (NoResponse name) =>
          r = Raise (BotoCoreError name)
          ∧ table w' = found
          ∧ last (stdout w') = Some (MsgWorkflowRun workflow_run_id)
      end
    ∧ exit_status (main 0 (Dequeue table_name workflow_run_id) w).1
      = match uncaught (upcoming (script w)) with
        | None => Some 0
        | Some _ => Some 1
        end
    ∧ (∀ it, In it (remove_key workflow_run_id found)
             ↔ In it found ∧ has_key workflow_run_id it = false)
    ∧ (existsb (has_key workflow_run_id) found = false →
       remove_key workflow_run_id found = found)
    ∧ remove_key workflow_run_id (remove_key workflow_run_id found)
      = remove_key workflow_run_id found
    ∧ (uncaught (upcoming (script w)) = None →
       uncaught (upcoming (script w')) = None →
       ∃ w'',
         dequeue table_name workflow_run_id w' = (Ok tt, w'')
         ∧ (dequeue table_name workflow_run_id;;
            dequeue table_name workflow_run_id) w = (Ok tt, w'')).
Proof.
  intros found.
  destruct (dequeue_run table_name workflow_run_id w)
    as (r & w' & Hrun & Hcalls & _ & Ht).
  destruct (dequeue_run table_name workflow_run_id w')
    as (r' & w'' & Hrun' & _ & _ & Ht').
  exists r, w'. split; [done|]. split; [done|]. split; [exact Ht|].
  split.
  { cbn [main]. unfold mbind, M_bind. rewrite Hrun. unfold uncaught.
    destruct (fault (upcoming (script w))) as [[code|name]|];
      destruct Ht as (-> & _); reflexivity. }
  split; [intros it; apply remove_key_In|].
  split; [apply remove_key_absent|].
  split; [apply remove_key_idemp|].
  intros Hw Hw'. exists w''.
  assert (r = Ok tt) as ->.
  { apply uncaught_None in Hw as [Hw|[code Hw]]; rewrite Hw in Ht; by destruct Ht. }
  assert (r' = Ok tt) as ->.
  { apply uncaught_None in Hw' as [Hw'|[code Hw']]; rewrite Hw' in Ht'; by destruct Ht'. }
  split; [done|]. unfold mbind, M_bind. by rewrite Hrun.
Qed.
(** Inserting keeps the order of the elements that share a key. *)
Lemma insert_by_key_stable {A} k (x : string * A) l :
  List.filter (λ p, (p.1 =? k)%string) (insert_by_key x l)
  = List.filter (λ p, (p.1 =? k)%string) (x :: l).
Proof.
  induction l as [|y l IH]; cbn [insert_by_key]; [done|].
  destruct (String.leb x.1 y.1) eqn:E; [done|].
  cbn [List.filter] in *. rewrite IH.
  destruct (String.eqb_spec x.1 k) as [Ex|_], (String.eqb_spec y.1 k) as [Ey|_];
    try done.
  rewrite Ex, Ey, string_leb_refl in E. done.
Qed.

Lemma sort_decorated_stable {A} k (l : list (string * A)) :
  List.filter (λ p, (p.1 =? k)%string) (sort_decorated l)
  = List.filter (λ p, (p.1 =? k)%string) l.
Proof.
  induction l as [|x l IH]; cbn [sort_decorated foldr]; [done|].
  fold (sort_decorated l). rewrite insert_by_key_stable.
  cbn [List.filter]. by rewrite IH.
Qed.

(** The sort keeps the records with the same [enqueued_at] in the order
    the scan gave them. *)
Lemma list_sort_stable ws s k :
  list_sort enqueued_at ws = Ok s →
  List.filter (has_enqueued_at k) s = List.filter (has_enqueued_at k) ws.
Proof.
  intros [-> Hall]%list_sort_Ok.
  assert (Hd : ∀ l : list item, Forall (λ x, enqueued_at x = Ok (key_or_empty enqueued_at x)) l →
            ∀ d, d ≡ₚ decorate enqueued_at l →
            List.filter (has_enqueued_at k) (List.map snd d)
            = List.map snd (List.filter (λ p, (p.1 =? k)%string) d)).
  { intros l Hl d Hd.
    assert (Hp : Forall (λ p : string * item, enqueued_at p.2 = Ok p.1) d).
    { rewrite Hd. unfold decorate. apply List.Forall_forall.
      intros p [x [<- Hx]]%List.in_map_iff. cbn.
      rewrite List.Forall_forall in Hl. by apply Hl. }
    clear Hd. induction Hp as [|p d Hp _ IH]; cbn; [done|].
    unfold has_enqueued_at at 1. rewrite Hp.
    destruct (p.1 =? k)%string; cbn; by rewrite IH. }
  rewrite (Hd ws Hall); [|by rewrite sort_decorated_perm].
  rewrite sort_decorated_stable.
  rewrite <- (Hd ws Hall); [|done].
  unfold decorate. rewrite List.map_map. cbn. by rewrite List.map_id.
Qed.

(** C8, as the script has it.  The sort is by [enqueued_at] alone.  Two
    scans that hold the same records in different orders sort to the same
    sequence of [enqueued_at] values; when no two records share an
    [enqueued_at] they sort to the same queue, and the iteration then does
    the same on both; records that share an [enqueued_at] are left in the
    order their scan gave them, so nothing breaks a tie. *)
Theorem ranking_order table_name workflow_run_id queue_position w
    (scan_1 scan_2 sorted_1 : list item) :
  scan_1 ≡ₚ scan_2 →
  list_sort enqueued_at scan_1 = Ok sorted_1 →
  ∃ sorted_2,
    list_sort enqueued_at scan_2 = Ok sorted_2
    ∧ List.map enqueued_at sorted_1 = List.map enqueued_at sorted_2
    ∧ (NoDup (List.map enqueued_at scan_1) →
       sorted_1 = sorted_2
       ∧ rank_and_act table_name workflow_run_id queue_position scan_1 w
         = rank_and_act table_name workflow_run_id queue_position scan_2 w)
    ∧ (∀ k, List.filter (has_enqueued_at k) sorted_1
            = List.filter (has_enqueued_at k) scan_1
            ∧ List.filter (has_enqueued_at k) sorted_2
              = List.filter (has_enqueued_at k) scan_2).
Proof.
  intros Hperm Hs1.
  destruct (list_sort_order enqueued_at _ _ _ Hperm Hs1) as (s2 & Hs2 & Hkeys & Hsame).
  exists s2. split; [done|]. split; [done|]. split.
  - intros Hnodup. specialize (Hsame Hnodup). subst s2. split; [done|].
    unfold rank_and_act.
    change (λ x, item_S x "enqueued_at") with enqueued_at.
    destruct scan_1 as [|x1 l1], scan_2 as [|x2 l2].
    + done.
    + by apply Permutation_nil in Hperm.
    + by apply Permutation_nil_r in Hperm.
    + by rewrite Hs1, Hs2.
  - intros k. split; by apply list_sort_stable.
Qed.

(** C8 as stated fails: two entrants with the same [enqueued_at] are
    ranked in the order the scan lists them, so two scans of the same two
    records give two queues, and each of the two is first in one of them;
    with "E1" polling, the first scan has it promote and the second has it
    wait at position 2. *)
Lemma ranking_depends_on_scan_order :
  tied_scan_1 ≡ₚ tied_scan_2
  ∧ list_sort enqueued_at tied_scan_1 = Ok tied_scan_1
  ∧ list_sort enqueued_at tied_scan_2 = Ok tied_scan_2
  ∧ list_sort enqueued_at tied_scan_1 ≠ list_sort enqueued_at tied_scan_2
  ∧ (rank_and_act "ci-queue" "E1" None tied_scan_1 (quiet_world [] 0)).1 = Ok Return
  ∧ (rank_and_act "ci-queue" "E1" None tied_scan_2 (quiet_world [] 0)).1
    = Ok (Next (Some 2)).
Proof.
  split; [apply perm_swap|].
  split; [reflexivity|]. split; [reflexivity|]. split.
  - intros H.
    apply (f_equal (λ r, match r with
                         | Ok (x :: _) => run_id x
                         | _ => Ok ""
                         end)) in H.
    vm_compute in H. discriminate.
  - split; reflexivity.
Qed.
(** ** The frame of the wait *)

Lemma lease_run_trans id s1 t1 s2 t2 s3 t3 :
  lease_run id s1 t1 s2 t2 → lease_run id s2 t2 s3 t3 → lease_run id s1 t1 s3 t3.
Proof.
  induction 1 as [| ? ? ? ? _ IH | ? ? ? ? ? _ IH]; intros Hrest; [done| |].
  - apply lease_run_fate; auto.
  - eapply lease_run_set; auto.
Qed.

Section leases.
Context (id : string).

Lemma leases_ret {A} (a : A) : leases id (mret a).
Proof. intros w r w' [= <- <-]. constructor. Qed.

Lemma leases_raise {A} e : leases id (raise e : M A).
Proof. intros w r w' [= <- <-]. constructor. Qed.

Lemma leases_lift {A} (x : result A) : leases id (lift x).
Proof. intros w r w' [= <- <-]. constructor. Qed.

Lemma leases_print m : leases id (print m).
Proof. intros w r w' [= <- <-]. constructor. Qed.

Lemma leases_send c : leases id (send c).
Proof. intros w r w' [= <- <-]. constructor. Qed.

Lemma leases_read_clock : leases id read_clock.
Proof. intros w r w' [= <- <-]. constructor. Qed.

Lemma leases_read_table : leases id read_table.
Proof. intros w r w' [= <- <-]. constructor. Qed.

Lemma leases_advance_clock us : leases id (advance_clock us).
Proof. intros w r w' [= <- <-]. constructor. Qed.

Lemma leases_next_fate : leases id next_fate.
Proof. intros w r w' [= <- <-]. cbn. apply lease_run_fate. constructor. Qed.

Lemma leases_set_ttl new_ttl : leases id (modify_table (set_ttl id new_ttl)).
Proof. intros w r w' [= <- <-]. cbn. eapply lease_run_set. constructor. Qed.

Lemma leases_bind {A B} (m : M A) (f : A → M B) :
  leases id m → (∀ a, leases id (f a)) → leases id (m ≫= f).
Proof.
  intros Hm Hf w r w'. unfold mbind, M_bind.
  destruct (m w) as [[a|e] w1] eqn:E.
  - intros H. eapply lease_run_trans; [by eapply Hm|by eapply Hf].
  - intros [= <- <-]. by eapply Hm.
Qed.

Lemma leases_try {A} (body : M A) handler :
  leases id body → (∀ e h, handler e = Some h → leases id h) →
  leases id (try_except body handler).
Proof.
  intros Hb Hh w r w'. unfold try_except.
  destruct (body w) as [[a|e] w1] eqn:E.
  - intros [= <- <-]. by eapply Hb.
  - destruct (handler e) as [h|] eqn:Eh.
    + intros H. eapply lease_run_trans; [by eapply Hb|by eapply Hh].
    + intros [= <- <-]. by eapply Hb.
Qed.

Lemma leases_except_ClientError {A} (h : exn → M A) e h' :
  (∀ e, leases id (h e)) → except_ClientError h e = Some h' → leases id h'.
Proof. intros Hh. destruct e; cbn; intros [= <-]; apply Hh. Qed.
End leases.

Create HintDb leases_db.
#[local] Hint Resolve leases_ret leases_raise leases_lift leases_print leases_send
  leases_read_clock leases_read_table leases_advance_clock leases_next_fate
  leases_set_ttl : leases_db.

Ltac leases :=
  repeat first
    [ solve [auto 1 with leases_db nocore]
    | simple apply leases_bind; [|intros ?]
    | simple apply leases_try; [|intros ? ? ?]
    | simple eapply leases_except_ClientError; [|eassumption]; intros ?; cbv beta
    | match goal with
      | |- leases _ (match ?x with _ => _ end) => destruct x
      | |- leases _ (if ?x then _ else _) => destruct x
      | |- leases _ (let _ := _ in _) => cbv zeta
      end ].

Lemma leases_update_item tn id new_ttl : leases id (update_item tn id new_ttl).
Proof. unfold update_item. leases. Qed.
#[local] Hint Resolve leases_update_item : leases_db.

Lemma leases_datetime_now id : leases id datetime_now.
Proof. unfold datetime_now. leases. Qed.

Lemma leases_time_time id : leases id time_time.
Proof. unfold time_time. leases. Qed.

Lemma leases_time_sleep id secs : leases id (time_sleep secs).
Proof. unfold time_sleep. leases. Qed.

Lemma leases_scan id tn now_timestamp : leases id (scan tn now_timestamp).
Proof. unfold scan. leases. Qed.
#[local] Hint Resolve leases_datetime_now leases_time_time leases_time_sleep
  leases_scan : leases_db.

Lemma leases_refresh_ttl tn id : leases id (refresh_ttl tn id).
Proof. unfold refresh_ttl. leases. Qed.

Lemma leases_start_running tn id : leases id (start_running tn id).
Proof. unfold start_running. leases. Qed.

Lemma leases_restart_workflow id repo run : leases id (restart_workflow repo run).
Proof.
  unfold restart_workflow, subprocess_run.
  destruct (negb (truthy repo)); [leases|].
  apply leases_try; [leases|].
  intros e h He. destruct e; try done; injection He as <-; leases.
Qed.
#[local] Hint Resolve leases_refresh_ttl leases_start_running
  leases_restart_workflow : leases_db.

Lemma leases_rank_and_act tn id qp ws : leases id (rank_and_act tn id qp ws).
Proof. unfold rank_and_act, sys_exit. leases. Qed.
#[local] Hint Resolve leases_rank_and_act : leases_db.

Lemma leases_iteration tn id repo start qp : leases id (iteration tn id repo start qp).
Proof. unfold iteration, scan_and_act, sys_exit. leases. Qed.
#[local] Hint Resolve leases_iteration : leases_db.

Lemma leases_wait_loop fuel tn id repo start qp :
  leases id (wait_loop fuel tn id repo start qp).
Proof.
  revert qp. induction fuel as [|fuel IH]; intros qp; cbn [wait_loop]; leases.
Qed.
Lemma has_key_set_ttl k new_ttl it :
  has_key k (<["ttl" := AttrN new_ttl]> it) = has_key k it.
Proof. unfold has_key. by rewrite lookup_insert_ne. Qed.

Lemma has_key_other k id it : k ≠ id → has_key id it = true → has_key k it = false.
Proof.
  unfold has_key. intros Hne H%bool_decide_eq_true.
  apply bool_decide_eq_false. rewrite H. congruence.
Qed.

Lemma has_key_fresh id new_ttl :
  has_key id {[ "workflow_run_id" := AttrS id; "ttl" := AttrN new_ttl ]} = true.
Proof. unfold has_key. apply bool_decide_eq_true. reflexivity. Qed.

(** What [SET #ttl = :new_ttl] under the key [id] does to a table: the
    rows under other keys stay as they are, in their order; a row under
    [id] keeps every attribute but [ttl]; when no row is under [id], one
    is added that has the key and the [ttl] only. *)
Lemma set_ttl_frame id new_ttl t :
  remove_key id (set_ttl id new_ttl t) = remove_key id t
  ∧ (∀ k, k ≠ id →
       List.filter (has_key k) (set_ttl id new_ttl t) = List.filter (has_key k) t)
  ∧ (existsb (has_key id) t = true →
     ∀ a, a ≠ "ttl" →
       List.map (λ it : item, it !! a) (set_ttl id new_ttl t)
       = List.map (λ it : item, it !! a) t)
  ∧ (existsb (has_key id) t = false →
     set_ttl id new_ttl t
     = (t ++ [ {[ "workflow_run_id" := AttrS id; "ttl" := AttrN new_ttl ]} ])%list)
  ∧ existsb (has_key id) (set_ttl id new_ttl t) = true.
Proof.
  unfold set_ttl. destruct (existsb (has_key id) t) eqn:Hex.
  - split; [|split; [|split; [|split; [done|]]]].
    + unfold remove_key. clear Hex. induction t as [|x t IH]; cbn; [done|].
      destruct (has_key id x) eqn:Hx; cbn.
      * by rewrite has_key_set_ttl, Hx.
      * rewrite Hx. cbn. by rewrite IH.
    + intros k Hk. clear Hex. induction t as [|x t IH]; cbn; [done|].
      destruct (has_key id x) eqn:Hx; cbn.
      * rewrite has_key_set_ttl, (has_key_other k id x Hk Hx). done.
      * destruct (has_key k x); by rewrite IH.
    + intros _ a Ha. clear Hex. induction t as [|x t IH]; cbn; [done|].
      rewrite IH. f_equal. destruct (has_key id x); [|done].
      by rewrite lookup_insert_ne.
    + clear -Hex. induction t as [|x t IH]; cbn in *; [done|].
      destruct (has_key id x) eqn:Hx; cbn.
      * by rewrite has_key_set_ttl, Hx.
      * rewrite Hx. cbn. auto.
  - split; [|split; [|split; [done|split; [done|]]]].
    + unfold remove_key. rewrite List.filter_app. cbn.
      rewrite has_key_fresh. cbn. by rewrite app_nil_r.
    + intros k Hk. rewrite List.filter_app. cbn.
      rewrite (has_key_other k id _ Hk (has_key_fresh id new_ttl)).
      by rewrite app_nil_r.
    + rewrite existsb_app. cbn. by rewrite has_key_fresh, orb_true_r.
Qed.

Lemma remove_key_frame id t k :
  k ≠ id → List.filter (has_key k) (remove_key id t) = List.filter (has_key k) t.
Proof.
  intros Hk. unfold remove_key. induction t as [|x t IH]; cbn; [done|].
  destruct (has_key id x) eqn:Hx; cbn.
  - by rewrite (has_key_other k id x Hk Hx).
  - destruct (has_key k x); by rewrite IH.
Qed.

(** While nobody else writes, waiting changes nothing but the [ttl] under
    the entrant's own key. *)
Lemma lease_run_frame id s t s' t' :
  Forall nobody_else s →
  lease_run id s t s' t' →
  remove_key id t' = remove_key id t
  ∧ (∀ k, k ≠ id → List.filter (has_key k) t' = List.filter (has_key k) t)
  ∧ (existsb (has_key id) t = true →
     ∀ a, a ≠ "ttl" →
       List.map (λ it : item, it !! a) t' = List.map (λ it : item, it !! a) t).
Proof.
  intros Hs Hrun. induction Hrun as [| s t s' t' _ IH | v s t s' t' _ IH].
  - done.
  - assert (Hf : others (upcoming s) t = t).
    { destruct Hs as [|f s Hf _]; [done|]. apply Hf. }
    rewrite Hf in IH. apply IH. destruct Hs; [constructor|done].
  - destruct (IH Hs) as (IH1 & IH2 & IH3).
    destruct (set_ttl_frame id v t) as (F1 & F2 & F3 & _ & F5).
    split; [by rewrite IH1|]. split.
    + intros k Hk. by rewrite IH2, F2.
    + intros Hex a Ha. by rewrite IH3, F3.
Qed.
(** C9.  Whatever the wait loop of the entrant [workflow_run_id] does, for
    however long: every request it sends is a scan, a sleep, a rerun, or
    an update that sets [ttl] under the entrant's own key (no insert, no
    delete, no other key); the table moves only by what the fates (the
    others) do to it and by such updates; and such an update leaves the
    rows under every other key as they are, leaves every attribute but
    [ttl] of the rows under the own key as it is ([enqueued_at] and
    [workflow_run_id] among them), and adds a row, holding the key and the
    [ttl] only, when there is none under the own key.  So, while nobody
    else writes, the rows of the others are after the wait what they were
    before, and so is every attribute but [ttl] of the own row.
    [refresh_ttl] and [start_running] send that one update each, and
    [dequeue] sends one delete, under the own key, which leaves the rows
    under every other key as they are. *)
Theorem waiting_writes_own_lease_only fuel table_name workflow_run_id github_repo
    start_time queue_position w r w' :
  wait_loop fuel table_name workflow_run_id github_repo start_time queue_position w
  = (r, w') →
  (∃ sent, calls w' = (calls w ++ sent)%list
           ∧ Forall (lease_update_only table_name workflow_run_id) sent)
  ∧ lease_run workflow_run_id (script w) (table w) (script w') (table w')
  ∧ (∀ new_ttl t,
       remove_key workflow_run_id (set_ttl workflow_run_id new_ttl t)
       = remove_key workflow_run_id t
       ∧ (∀ k, k ≠ workflow_run_id →
            List.filter (has_key k) (set_ttl workflow_run_id new_ttl t)
            = List.filter (has_key k) t)
       ∧ (existsb (has_key workflow_run_id) t = true →
          ∀ a, a ≠ "ttl" →
            List.map (λ it : item, it !! a) (set_ttl workflow_run_id new_ttl t)
            = List.map (λ it : item, it !! a) t)
       ∧ (existsb (has_key workflow_run_id) t = false →
          set_ttl workflow_run_id new_ttl t
          = (t ++ [ {[ "workflow_run_id" := AttrS workflow_run_id;
                       "ttl" := AttrN new_ttl ]} ])%list))
  ∧ (Forall nobody_else (script w) →
     remove_key workflow_run_id (table w') = remove_key workflow_run_id (table w)
     ∧ (∀ k, k ≠ workflow_run_id →
          List.filter (has_key k) (table w') = List.filter (has_key k) (table w))
     ∧ (existsb (has_key workflow_run_id) (table w) = true →
        ∀ a, a ≠ "ttl" →
          List.map (λ it : item, it !! a) (table w')
          = List.map (λ it : item, it !! a) (table w)))
  ∧ (∀ w0,
       calls (refresh_ttl table_name workflow_run_id w0).2
       = (calls w0 ++ [renewal table_name workflow_run_id w0])%list
       ∧ calls (start_running table_name workflow_run_id w0).2
         = (calls w0 ++ [promotion table_name workflow_run_id w0])%list
       ∧ calls (dequeue table_name workflow_run_id w0).2
         = (calls w0 ++ [DeleteItem table_name workflow_run_id])%list
       ∧ (table (dequeue table_name workflow_run_id w0).2
          = remove_key workflow_run_id (others (upcoming (script w0)) (table w0))
          ∨ table (dequeue table_name workflow_run_id w0).2
            = others (upcoming (script w0)) (table w0)))
  ∧ (∀ t k, k ≠ workflow_run_id →
       List.filter (has_key k) (remove_key workflow_run_id t)
       = List.filter (has_key k) t).
Proof.
  intros Hrun.
  split.
  { apply wait_loop_calls in Hrun as (sent & ? & ? & _). eauto. }
  pose proof (leases_wait_loop _ _ _ _ _ _ _ _ _ Hrun) as Hlease.
  split; [done|]. split.
  { intros v t. destruct (set_ttl_frame workflow_run_id v t) as (?&?&?&?&_). done. }
  split; [intros Hquiet; by eapply lease_run_frame|].
  split; [|intros t k; apply remove_key_frame].
  intros w0.
  destruct (refresh_ttl_run table_name workflow_run_id w0) as (r1 & w1 & -> & Hc1 & _).
  destruct (start_running_run table_name workflow_run_id w0) as (p & w2 & -> & Hc2 & _).
  destruct (dequeue_run table_name workflow_run_id w0)
    as (r3 & w3 & -> & Hc3 & _ & Ht).
  cbn [snd]. repeat (split; [done|]).
  destruct (fault (upcoming (script w0))) as [[?|?]|]; [right|right|left]; apply Ht.
Qed.

(** ** The scenarios, run *)

Lemma front_of_queue_promotes_witness :
  (scans "ci-queue" at_22_13_22 two_waiting at_22_13_22 [record_E1; record_E2] two_waiting_scanned)
  ∧ ([record_E1; record_E2] ≠ [])
  ∧ (Forall is_record [record_E1; record_E2])
  ∧ (∃ front first_workflow_id first_at,
    In front [record_E1; record_E2]
    ∧ run_id front = Ok first_workflow_id
    ∧ enqueued_at front = Ok first_at
    ∧ (∀ r at_, In r [record_E1; record_E2] → enqueued_at r = Ok at_ →
         String.leb first_at at_ = true)
    ∧ ∃ r w' sent,
        iteration "ci-queue" "E1" None at_22_13_22 None two_waiting
        = (r, w')
        ∧ calls w' = (calls two_waiting_scanned ++ sent)%list
        ∧ (In (promotion "ci-queue" "E1" two_waiting_scanned) sent
           ↔ first_workflow_id = "E1")
        ∧ (r = Ok Return
           ↔ first_workflow_id = "E1"
             ∧ (start_running "ci-queue" "E1" two_waiting_scanned).1 = Ok true)
        ∧ (r = Ok Return →
           ∀ fuel, wait_loop (S fuel) "ci-queue" "E1" None
                     at_22_13_22 None two_waiting = (Ok Returned, w'))).
Proof.
  assert (H1 : scans "ci-queue" at_22_13_22 two_waiting at_22_13_22 [record_E1; record_E2] two_waiting_scanned).
  { unfold scans. eexists _, _, _. repeat split. }
  assert (H2 : [record_E1; record_E2] ≠ []).
  { discriminate. }
  assert (H3 : Forall is_record [record_E1; record_E2]).
  { repeat constructor; eexists _, _; split; reflexivity. }
  repeat (split; [assumption|]).
  apply (front_of_queue_promotes "ci-queue" "E1" None at_22_13_22 None two_waiting at_22_13_22 ([record_E1; record_E2]) two_waiting_scanned); assumption.
Defined.

Lemma failed_promotion_sleeps_witness :
  (scans "ci-queue" at_22_13_22 lost_race at_22_13_22 [record_E1; record_E2] lost_race_scanned)
  ∧ (Forall is_record [record_E1; record_E2])
  ∧ (list_sort enqueued_at [record_E1; record_E2] = Ok (record_E1 :: [record_E2]))
  ∧ (run_id record_E1 = Ok "E1")
  ∧ ((start_running "ci-queue" "E1" lost_race_scanned).1 = Ok false)
  ∧ (∃ w',
    iteration "ci-queue" "E1" None at_22_13_22 None lost_race
    = (Ok (Next (Some 1)), w')
    ∧ calls w' = (calls lost_race_scanned ++ [promotion "ci-queue" "E1" lost_race_scanned;
                               Sleep (seconds POLL_INTERVAL)])%list
    ∧ seconds POLL_INTERVAL = 60
    ∧ last (stdout w') = Some MsgRetrying
    ∧ ∀ fuel,
        wait_loop (S fuel) "ci-queue" "E1" None at_22_13_22
          None lost_race
        = wait_loop fuel "ci-queue" "E1" None at_22_13_22
            (Some 1) w').
Proof.
  assert (H1 : scans "ci-queue" at_22_13_22 lost_race at_22_13_22 [record_E1; record_E2] lost_race_scanned).
  { unfold scans. eexists _, _, _. repeat split. }
  assert (H2 : Forall is_record [record_E1; record_E2]).
  { repeat constructor; eexists _, _; split; reflexivity. }
  assert (H3 : list_sort enqueued_at [record_E1; record_E2] = Ok (record_E1 :: [record_E2])).
  { reflexivity. }
  assert (H4 : run_id record_E1 = Ok "E1").
  { reflexivity. }
  assert (H5 : (start_running "ci-queue" "E1" lost_race_scanned).1 = Ok false).
  { reflexivity. }
  repeat (split; [assumption|]).
  apply (failed_promotion_sleeps "ci-queue" "E1" None at_22_13_22 None lost_race at_22_13_22 ([record_E1; record_E2]) lost_race_scanned record_E1 ([record_E2])); assumption.
Defined.

Lemma scan_keeps_live_only_witness :
  (scans "ci-queue" at_22_13_22 expired_present at_22_13_22 [record_E1; record_E2] expired_present_scanned)
  ∧ ([record_E1; record_E2]
  = List.filter (live (int_timestamp at_22_13_22)) (first_page (scan_fate expired_present) (table expired_present_scanned))
  ∧ (page (scan_fate expired_present) = None →
     [record_E1; record_E2] = List.filter (live (int_timestamp at_22_13_22)) (table expired_present_scanned))
  ∧ last (calls expired_present_scanned) = Some (Scan "ci-queue" (int_timestamp at_22_13_22))
  ∧ (∀ it, In it [record_E1; record_E2] →
       In it (table expired_present_scanned)
       ∧ ∃ ttl, it !! "ttl" = Some (AttrN ttl) ∧ at_22_13_22 < ttl * 1000000)
  ∧ (∀ it ttl, In it (table expired_present_scanned) → it !! "ttl" = Some (AttrN ttl) →
       ttl * 1000000 ≤ at_22_13_22 → ¬ In it [record_E1; record_E2])
  ∧ iteration "ci-queue" "E1" None at_22_13_22 None expired_present
    = finish_iteration
        (rank_and_act "ci-queue" "E1" None [record_E1; record_E2] expired_present_scanned)
  ∧ (∀ sorted, list_sort enqueued_at [record_E1; record_E2] = Ok sorted →
       sorted ≡ₚ [record_E1; record_E2])).
Proof.
  assert (H1 : scans "ci-queue" at_22_13_22 expired_present at_22_13_22 [record_E1; record_E2] expired_present_scanned).
  { unfold scans. eexists _, _, _. repeat split. }
  repeat (split; [assumption|]).
  apply (scan_keeps_live_only "ci-queue" "E1" None at_22_13_22 None expired_present at_22_13_22 ([record_E1; record_E2]) expired_present_scanned); assumption.
Defined.

Lemma wait_ceiling_witness :
  (seconds MAX_QUEUE_DUR
  ≤ int_elapsed (clock two_waiting + dt (upcoming (script two_waiting))) five_hours_thirty_before)
  ∧ (seconds MAX_QUEUE_DUR = 5 * 3600 + 30 * 60
  ∧ (∃ w',
       iteration "ci-queue" "E1" (Some "awslabs/mountpoint-s3-csi-driver") five_hours_thirty_before None two_waiting
       = (Raise (SystemExit 1), w')
       ∧ (∀ fuel,
            wait_loop (S fuel) "ci-queue" "E1" (Some "awslabs/mountpoint-s3-csi-driver") five_hours_thirty_before
              None two_waiting
            = (Raise (SystemExit 1), w'))
       ∧ exit_status (Raise (SystemExit 1)) = Some 1
       ∧ calls w'
         = (if truthy (Some "awslabs/mountpoint-s3-csi-driver")
            then calls two_waiting ++ [rerun_request (default "" (Some "awslabs/mountpoint-s3-csi-driver")) "E1"]
            else calls two_waiting)%list)
  ∧ (∀ fuel w0 r w0',
       enqueue_and_wait fuel "ci-queue" "E1" (Some "awslabs/mountpoint-s3-csi-driver") w0 = (r, w0') →
       ∃ sent,
         calls w0' = (calls w0 ++ sent)%list
         ∧ (reruns sent ≤ 1)%nat
         ∧ (truthy (Some "awslabs/mountpoint-s3-csi-driver") = false → reruns sent = 0%nat)
         ∧ (reruns sent = 1%nat →
            r = Raise (SystemExit 1)
            ∧ last sent
              = Some (rerun_request (default "" (Some "awslabs/mountpoint-s3-csi-driver")) "E1")))).
Proof.
  assert (H1 : seconds MAX_QUEUE_DUR
      ≤ int_elapsed (clock two_waiting + dt (upcoming (script two_waiting))) five_hours_thirty_before).
  { vm_compute. discriminate. }
  repeat (split; [assumption|]).
  apply (wait_ceiling "ci-queue" "E1" ((Some "awslabs/mountpoint-s3-csi-driver")) five_hours_thirty_before None two_waiting); assumption.
Defined.

Lemma empty_scan_is_fatal_witness :
  (scans "ci-queue" at_22_13_22 only_expired at_22_13_22 [] only_expired_scanned)
  ∧ (iteration "ci-queue" "E1" None at_22_13_22 None only_expired
  = (Raise (SystemExit 1), printed [MsgNoWorkflows] only_expired_scanned)
  ∧ calls (printed [MsgNoWorkflows] only_expired_scanned) = calls only_expired_scanned
  ∧ (∀ fuel,
       wait_loop (S fuel) "ci-queue" "E1" None at_22_13_22
         None only_expired
       = (Raise (SystemExit 1), printed [MsgNoWorkflows] only_expired_scanned))
  ∧ exit_status (Raise (SystemExit 1)) = Some 1).
Proof.
  assert (H1 : scans "ci-queue" at_22_13_22 only_expired at_22_13_22 [] only_expired_scanned).
  { unfold scans. eexists _, _, _. repeat split. }
  repeat (split; [assumption|]).
  apply (empty_scan_is_fatal "ci-queue" "E1" None at_22_13_22 None only_expired at_22_13_22 only_expired_scanned); assumption.
Defined.

Lemma ranking_order_witness :
  ([record_E1; record_E2] ≡ₚ [record_E2; record_E1])
  ∧ (list_sort enqueued_at [record_E1; record_E2] = Ok [record_E1; record_E2])
  ∧ (∃ sorted_2,
    list_sort enqueued_at [record_E2; record_E1] = Ok sorted_2
    ∧ List.map enqueued_at [record_E1; record_E2] = List.map enqueued_at sorted_2
    ∧ (NoDup (List.map enqueued_at [record_E1; record_E2]) →
       [record_E1; record_E2] = sorted_2
       ∧ rank_and_act "ci-queue" "E1" None [record_E1; record_E2] two_waiting_scanned
         = rank_and_act "ci-queue" "E1" None [record_E2; record_E1] two_waiting_scanned)
    ∧ (∀ k, List.filter (has_enqueued_at k) [record_E1; record_E2]
            = List.filter (has_enqueued_at k) [record_E1; record_E2]
            ∧ List.filter (has_enqueued_at k) sorted_2
              = List.filter (has_enqueued_at k) [record_E2; record_E1])).
Proof.
  assert (H1 : [record_E1; record_E2] ≡ₚ [record_E2; record_E1]).
  { apply perm_swap. }
  assert (H2 : list_sort enqueued_at [record_E1; record_E2] = Ok [record_E1; record_E2]).
  { reflexivity. }
  repeat (split; [assumption|]).
  apply (ranking_order "ci-queue" "E1" None two_waiting_scanned ([record_E1; record_E2]) ([record_E2; record_E1]) ([record_E1; record_E2])); assumption.
Defined.

Lemma waiting_writes_own_lease_only_witness :
  (wait_loop 2%nat "ci-queue" "E2" None at_22_13_22 None two_waiting
  = ((Ok Waiting), (wait_loop 2 "ci-queue" "E2" None at_22_13_22 None two_waiting).2))
  ∧ ((∃ sent, calls (wait_loop 2 "ci-queue" "E2" None at_22_13_22 None two_waiting).2 = (calls two_waiting ++ sent)%list
           ∧ Forall (lease_update_only "ci-queue" "E2") sent)
  ∧ lease_run "E2" (script two_waiting) (table two_waiting) (script (wait_loop 2 "ci-queue" "E2" None at_22_13_22 None two_waiting).2) (table (wait_loop 2 "ci-queue" "E2" None at_22_13_22 None two_waiting).2)
  ∧ (∀ new_ttl t,
       remove_key "E2" (set_ttl "E2" new_ttl t)
       = remove_key "E2" t
       ∧ (∀ k, k ≠ "E2" →
            List.filter (has_key k) (set_ttl "E2" new_ttl t)
            = List.filter (has_key k) t)
       ∧ (existsb (has_key "E2") t = true →
          ∀ a, a ≠ "ttl" →
            List.map (λ it : item, it !! a) (set_ttl "E2" new_ttl t)
            = List.map (λ it : item, it !! a) t)
       ∧ (existsb (has_key "E2") t = false →
          set_ttl "E2" new_ttl t
          = (t ++ [ {[ "workflow_run_id" := AttrS "E2";
                       "ttl" := AttrN new_ttl ]} ])%list))
  ∧ (Forall nobody_else (script two_waiting) →
     remove_key "E2" (table (wait_loop 2 "ci-queue" "E2" None at_22_13_22 None two_waiting).2) = remove_key "E2" (table two_waiting)
     ∧ (∀ k, k ≠ "E2" →
          List.filter (has_key k) (table (wait_loop 2 "ci-queue" "E2" None at_22_13_22 None two_waiting).2) = List.filter (has_key k) (table two_waiting))
     ∧ (existsb (has_key "E2") (table two_waiting) = true →
        ∀ a, a ≠ "ttl" →
          List.map (λ it : item, it !! a) (table (wait_loop 2 "ci-queue" "E2" None at_22_13_22 None two_waiting).2)
          = List.map (λ it : item, it !! a) (table two_waiting)))
  ∧ (∀ w0,
       calls (refresh_ttl "ci-queue" "E2" w0).2
       = (calls w0 ++ [renewal "ci-queue" "E2" w0])%list
       ∧ calls (start_running "ci-queue" "E2" w0).2
         = (calls w0 ++ [promotion "ci-queue" "E2" w0])%list
       ∧ calls (dequeue "ci-queue" "E2" w0).2
         = (calls w0 ++ [DeleteItem "ci-queue" "E2"])%list
       ∧ (table (dequeue "ci-queue" "E2" w0).2
          = remove_key "E2" (others (upcoming (script w0)) (table w0))
          ∨ table (dequeue "ci-queue" "E2" w0).2
            = others (upcoming (script w0)) (table w0)))
  ∧ (∀ t k, k ≠ "E2" →
       List.filter (has_key k) (remove_key "E2" t)
       = List.filter (has_key k) t)).
Proof.
  assert (H1 : wait_loop 2%nat "ci-queue" "E2" None at_22_13_22 None two_waiting
      = ((Ok Waiting), (wait_loop 2 "ci-queue" "E2" None at_22_13_22 None two_waiting).2)).
  { vm_compute. reflexivity. }
  repeat (split; [assumption|]).
  apply (waiting_writes_own_lease_only 2%nat "ci-queue" "E2" None at_22_13_22 None two_waiting ((Ok Waiting)) ((wait_loop 2 "ci-queue" "E2" None at_22_13_22 None two_waiting).2)); assumption.
Defined.

Lemma own_record_missing_witness :
  (scans "ci-queue" at_22_13_22 two_waiting at_22_13_22 [record_E1; record_E2] two_waiting_scanned)
  ∧ ([record_E1; record_E2] ≠ [])
  ∧ (Forall is_record [record_E1; record_E2])
  ∧ ((∀ x, In x [record_E1; record_E2] → run_id x ≠ Ok "E3"))
  ∧ (match None with
  | None =>
      ∃ w',
        iteration "ci-queue" "E3" None at_22_13_22 None two_waiting
        = (Raise (UnboundLocalError "queue_position"), w')
        ∧ calls w' = calls two_waiting_scanned
        ∧ (∀ fuel,
             wait_loop (S fuel) "ci-queue" "E3" None at_22_13_22
               None two_waiting
             = (Raise (UnboundLocalError "queue_position"), w'))
        ∧ exit_status (Raise (UnboundLocalError "queue_position")) = Some 1
  | Some n =>
      match uncaught (update_fate two_waiting_scanned) with
      | None =>
          ∃ w',
            iteration "ci-queue" "E3" None at_22_13_22 (Some n) two_waiting
            = (Ok (Next (Some n)), w')
            ∧ calls w' = (calls two_waiting_scanned ++ [renewal "ci-queue" "E3" two_waiting_scanned;
                                       Sleep (seconds POLL_INTERVAL)])%list
            ∧ In (MsgQueuePosition n) (stdout w')
            ∧ ∀ fuel,
                wait_loop (S fuel) "ci-queue" "E3" None at_22_13_22
                  (Some n) two_waiting
                = wait_loop fuel "ci-queue" "E3" None at_22_13_22
                    (Some n) w'
      | Some e =>
          ∃ w',
            iteration "ci-queue" "E3" None at_22_13_22 (Some n) two_waiting
            = (Raise e, w')
            ∧ calls w' = (calls two_waiting_scanned ++ [renewal "ci-queue" "E3" two_waiting_scanned])%list
            ∧ In (MsgQueuePosition n) (stdout w')
            ∧ (∀ fuel,
                 wait_loop (S fuel) "ci-queue" "E3" None
                   at_22_13_22 (Some n) two_waiting
                 = (Raise e, w'))
            ∧ exit_status (Raise e) = Some 1
      end
  end).
Proof.
  assert (H1 : scans "ci-queue" at_22_13_22 two_waiting at_22_13_22 [record_E1; record_E2] two_waiting_scanned).
  { unfold scans. eexists _, _, _. repeat split. }
  assert (H2 : [record_E1; record_E2] ≠ []).
  { discriminate. }
  assert (H3 : Forall is_record [record_E1; record_E2]).
  { repeat constructor; eexists _, _; split; reflexivity. }
  assert (H4 : (∀ x, In x [record_E1; record_E2] → run_id x ≠ Ok "E3")).
  { intros x [<-|[<-|[]]]; discriminate. }
  repeat (split; [assumption|]).
  apply (own_record_missing "ci-queue" "E3" None at_22_13_22 None two_waiting at_22_13_22 ([record_E1; record_E2]) two_waiting_scanned); assumption.
Defined.
(** C2 as stated fails: E1 is at the front and DynamoDB throttles the
    update of [start_running], which answers [False]; the next request of
    the script is the sleep of 60 s, and the scan of the next iteration
    reads the clock 60 s later. *)
Lemma failed_promotion_is_followed_by_sleep :
  (start_running "ci-queue" "E1" lost_race_scanned).1 = Ok false
  ∧ (iteration "ci-queue" "E1" None at_22_13_22 None lost_race).1
    = Ok (Next (Some 1))
  ∧ calls (iteration "ci-queue" "E1" None at_22_13_22 None lost_race).2
    = [Scan "ci-queue" 1700000002; UpdateItem "ci-queue" "E1" 1700028802; Sleep 60]
  ∧ calls (wait_loop 2 "ci-queue" "E1" None at_22_13_22 None lost_race).2
    = [Scan "ci-queue" 1700000002; UpdateItem "ci-queue" "E1" 1700028802; Sleep 60;
       Scan "ci-queue" 1700000062; UpdateItem "ci-queue" "E1" 1700028862].
Proof. repeat split. Qed.

(** C7 as stated fails: the store failure of a delete is a failure of the
    transport, and boto3 raises those as exceptions that are no
    [ClientError].  E1 releases while DynamoDB cannot be reached: the
    [except ClientError] of line 260 does not catch the
    [EndpointConnectionError], no warning is printed, the exception ends
    the process (status 1), and the row of E1 is still in the table. *)
Lemma release_failure_is_escalated :
  (dequeue "ci-queue" "E1" release_unreachable).1
  = Raise (BotoCoreError "EndpointConnectionError")
  ∧ exit_status (main 0 (Dequeue "ci-queue" "E1") release_unreachable).1 = Some 1
  ∧ calls (dequeue "ci-queue" "E1" release_unreachable).2
    = [DeleteItem "ci-queue" "E1"]
  ∧ stdout (dequeue "ci-queue" "E1" release_unreachable).2
    = [MsgRemoving; MsgTable "ci-queue"; MsgWorkflowRun "E1"]
  ∧ List.map run_id (table (dequeue "ci-queue" "E1" release_unreachable).2)
    = [Ok "E1"; Ok "E2"].
Proof. repeat apply conj; vm_compute; reflexivity. Qed.

(** C10 as stated fails: E2 found itself at position 2 in its first
    iteration; its lease is over when it looks again, so the second scan
    gives the record of E1 alone, a non-empty list without E2; line 177
    then prints the position of the first iteration, nothing is raised,
    and the iteration renews the lease and sleeps. *)
Lemma stale_queue_position_is_printed :
  (iteration "ci-queue" "E2" None at_22_13_22 None stalled).1 = Ok (Next (Some 2))
  ∧ (∃ now w3,
       scans "ci-queue" at_22_13_22
         (iteration "ci-queue" "E2" None at_22_13_22 None stalled).2
         now [record_E1_running] w3)
  ∧ run_id record_E1_running = Ok "E1"
  ∧ (iteration "ci-queue" "E2" None at_22_13_22 (Some 2)
       (iteration "ci-queue" "E2" None at_22_13_22 None stalled).2).1
    = Ok (Next (Some 2))
  ∧ (wait_loop 2 "ci-queue" "E2" None at_22_13_22 None stalled).1 = Ok Waiting
  ∧ stdout (wait_loop 2 "ci-queue" "E2" None at_22_13_22 None stalled).2
    = [MsgChecking 0; MsgQueue ["E1"; "E2"]; MsgFirstInQueue "E1";
       MsgQueuePosition 2; MsgNotOurTurn 60; MsgRefreshed "E2";
       MsgChecking 760; MsgQueue ["E1"]; MsgFirstInQueue "E1";
       MsgQueuePosition 2; MsgNotOurTurn 60; MsgRefreshed "E2"]
  ∧ calls (wait_loop 2 "ci-queue" "E2" None at_22_13_22 None stalled).2
    = [Scan "ci-queue" 1700000002; UpdateItem "ci-queue" "E2" 1700000602; Sleep 60;
       Scan "ci-queue" 1700000762; UpdateItem "ci-queue" "E2" 1700001362; Sleep 60].
Proof.
  split; [reflexivity|]. split.
  { unfold scans. eexists _, _, _, _, _. repeat split. }
  repeat split.
Qed.

(** Where an item without [enqueued_at] comes from, and what it does to
    the ranking: a renewal under a key that has no row makes a row of the
    key and the [ttl] alone, and sorting a scan that holds such a row
    raises [KeyError]. *)
Example renewal_without_a_row :
  set_ttl "E2" 1700000602 [record_E1]
  = [record_E1; {[ "workflow_run_id" := AttrS "E2"; "ttl" := AttrN 1700000602 ]}]
  ∧ (rank_and_act "ci-queue" "E1" None
       (set_ttl "E2" 1700000602 [record_E1]) two_waiting_scanned).1
    = Raise (KeyError "enqueued_at").
Proof. split; reflexivity. Qed.

(** Scenario A of the specification: E1 and E2 are both live; E1 ranks
    first, promotes and returns; E2 ranks second, renews and sleeps. *)
Example scenario_A :
  (wait_loop 1 "ci-queue" "E1" None at_22_13_22 None two_waiting).1 = Ok Returned
  ∧ calls (wait_loop 1 "ci-queue" "E1" None at_22_13_22 None two_waiting).2
    = [Scan "ci-queue" 1700000002; UpdateItem "ci-queue" "E1" 1700028802]
  ∧ (wait_loop 1 "ci-queue" "E2" None at_22_13_22 None two_waiting).1 = Ok Waiting
  ∧ calls (wait_loop 1 "ci-queue" "E2" None at_22_13_22 None two_waiting).2
    = [Scan "ci-queue" 1700000002; UpdateItem "ci-queue" "E2" 1700000602; Sleep 60]
  ∧ In (MsgQueuePosition 2)
       (stdout (wait_loop 1 "ci-queue" "E2" None at_22_13_22 None two_waiting).2).
Proof. repeat apply conj; vm_compute; tauto. Qed.

(** Scenario B: the lease of the crashed E1 is over; the scan leaves its
    row out, and E2, alone in the queue, promotes. *)
Example scenario_B :
  (wait_loop 1 "ci-queue" "E2" None (1700000660 * 1000000) None E1_crashed).1
  = Ok Returned
  ∧ stdout (wait_loop 1 "ci-queue" "E2" None (1700000660 * 1000000) None E1_crashed).2
    = [MsgChecking 0; MsgQueue ["E2"]; MsgFirstInQueue "E2"; MsgQueuePosition 1;
       MsgAtFront; MsgUpdatedTTL 19800].
Proof. repeat apply conj; vm_compute; reflexivity. Qed.

(** A second registration of E1 changes nothing in the table and goes on
    to the wait; a registration that DynamoDB refuses for another reason
    ends the process with status 1 before any scan. *)
Example registering_twice :
  (register "ci-queue" "E1" two_waiting).1 = Ok tt
  ∧ List.map enqueued_at (table (register "ci-queue" "E1" two_waiting).2)
    = [Ok "2023-11-14T22:13:20+00:00"; Ok "2023-11-14T22:13:21+00:00"]
  ∧ (enqueue_and_wait 1 "ci-queue" "E1" None two_waiting).1 = Ok Returned
  ∧ exit_status (enqueue_and_wait 1 "ci-queue" "E2" None insert_refused).1 = Some 1
  ∧ List.length (calls (enqueue_and_wait 1 "ci-queue" "E2" None insert_refused).2)
    = 1%nat.
Proof. repeat apply conj; vm_compute; reflexivity. Qed.

(** Releasing twice: both calls return, and the second finds nothing to
    delete. *)
Example dequeue_twice :
  (dequeue "ci-queue" "E1" two_waiting).1 = Ok tt
  ∧ List.map run_id (table (dequeue "ci-queue" "E1" two_waiting).2) = [Ok "E2"]
  ∧ (dequeue "ci-queue" "E1" (dequeue "ci-queue" "E1" two_waiting).2).1 = Ok tt
  ∧ List.map run_id
      (table (dequeue "ci-queue" "E1" (dequeue "ci-queue" "E1" two_waiting).2).2)
    = [Ok "E2"].
Proof. repeat apply conj; vm_compute; reflexivity. Qed.

(** * Further properties *)

(** ** The helpers: leases and the restart *)

Lemma lease_expiry now (d : timedelta) :
  0 ≤ now → 0 ≤ days d * 86400 + seconds d → microseconds d = 0 →
  int_timestamp (datetime_add now d)
  = int_timestamp now + (days d * 86400 + seconds d).
Proof.
  intros Hnow Hd Hus. unfold int_timestamp, datetime_add, total_microseconds.
  rewrite Hus, Z.add_0_r.
  rewrite !Z.quot_div_nonneg by lia.
  by rewrite Z.div_add by lia.
Qed.

Lemma set_ttl_sets id new_ttl t it :
  In it (set_ttl id new_ttl t) → has_key id it = true →
  it !! "ttl" = Some (AttrN new_ttl).
Proof.
  unfold set_ttl. destruct (existsb (has_key id) t) eqn:Hex.
  - intros (x & <- & Hx)%List.in_map_iff. destruct (has_key id x) eqn:E.
    + intros _. by rewrite lookup_insert_eq.
    + congruence.
  - intros [Hin|[<-|[]]]%List.in_app_iff.
    + intros Hk. exfalso.
      assert (existsb (has_key id) t = true); [|congruence].
      apply existsb_exists. eauto.
    + reflexivity.
Qed.

Lemma live_of_ttl ts it new_ttl :
  it !! "ttl" = Some (AttrN new_ttl) → live ts it = (ts <? new_ttl).
Proof. unfold live. by intros ->. Qed.

(** X1.  [refresh_ttl] is fail-soft for the errors DynamoDB answers with,
    and for those only.  It sends one update of the [ttl] under the
    entrant's key, asking for the whole seconds of the time it read plus
    600 (the clock being past the epoch).  When the table takes the update
    it returns, and every row under the key is live for exactly the scans
    whose timestamp is below that expiry.  When DynamoDB answers with an
    error it returns as well, the table as the request found it, with a
    warning printed.  When boto3 gives up without an answer of DynamoDB,
    the exception is no [ClientError]: line 219 does not catch it and it
    leaves [refresh_ttl], nothing printed. *)
Theorem refresh_ttl_outcomes table_name workflow_run_id w :
  let now := clock w + dt (upcoming (script w)) in
  let found := others (upcoming (tail (script w)))
                 (others (upcoming (script w)) (table w)) in
  let new_ttl := int_timestamp (datetime_add now WAITING_TTL) in
  ∃ r w',
    refresh_ttl table_name workflow_run_id w = (r, w')
    ∧ calls w' = (calls w ++ [UpdateItem table_name workflow_run_id new_ttl])%list
    ∧ (0 ≤ now → new_ttl = int_timestamp now + 600)
    ∧ match fault (update_fate w) with
      | None =>
          r = Ok tt
          ∧ table w' = set_ttl workflow_run_id new_ttl found
          ∧ stdout w' = (stdout w ++ [MsgRefreshed workflow_run_id])%list
          ∧ existsb (has_key workflow_run_id) (table w') = true
          ∧ (∀ it ts, In it (table w') → has_key workflow_run_id it = true →
               live ts it = (ts <? new_ttl))
      | Some (ErrorResponse code) =>
          r = Ok tt
          ∧ table w' = found
          ∧ stdout w' = (stdout w ++ [MsgRefreshFailed (ClientError code)])%list
      | Some (NoResponse name) =>
          r = Raise (BotoCoreError name)
          ∧ table w' = found
          ∧ stdout w' = stdout w
      end.
Proof.
  intros now found new_ttl.
  assert (Hh : 0 ≤ now → new_ttl = int_timestamp now + 600).
  { intros Hnow. unfold new_ttl. by rewrite lease_expiry. }
  unfold refresh_ttl, datetime_now, update_item, update_fate. run.
  fold now. fold new_ttl. fold found.
  destruct (fault (upcoming (tail (script w)))) as [[code|name]|]; run.
  - eexists _, _. split; [reflexivity|]. cbn. done.
  - eexists _, _. split; [reflexivity|]. cbn. done.
  - eexists _, _. split; [reflexivity|]. cbn. repeat (split; [done|]).
    destruct (set_ttl_frame workflow_run_id new_ttl found) as (_ & _ & _ & _ & Hex).
    split; [done|]. intros it ts Hin Hk.
    apply live_of_ttl. by eapply set_ttl_sets.
Qed.

(** X2.  [start_running] turns the answers of DynamoDB into a boolean: it
    returns [True] when the table took the update and [False] (after
    printing the error) when DynamoDB answered with an error.  The expiry
    it asks for is the whole seconds of the time it read plus 28800 (eight
    hours).  After [True] there is a row under the entrant's key and every
    such row is live for exactly the scans whose timestamp is below that
    expiry; after [False] the table is as the request found it.  When
    boto3 gives up without an answer of DynamoDB, the exception is no
    [ClientError]: line 244 does not catch it, and [start_running] returns
    no boolean at all. *)
Theorem start_running_outcomes table_name workflow_run_id w :
  let now := clock w + dt (upcoming (script w)) in
  let found := others (upcoming (tail (script w)))
                 (others (upcoming (script w)) (table w)) in
  let new_ttl := int_timestamp (datetime_add now RUNNING_TTL) in
  ∃ r w',
    start_running table_name workflow_run_id w = (r, w')
    ∧ calls w' = (calls w ++ [UpdateItem table_name workflow_run_id new_ttl])%list
    ∧ (0 ≤ now → new_ttl = int_timestamp now + 28800)
    ∧ (r = Ok true ↔ fault (update_fate w) = None)
    ∧ match fault (update_fate w) with
      | None =>
          r = Ok true
          ∧ table w' = set_ttl workflow_run_id new_ttl found
          ∧ stdout w' = stdout w
          ∧ existsb (has_key workflow_run_id) (table w') = true
          ∧ (∀ it ts, In it (table w') → has_key workflow_run_id it = true →
               live ts it = (ts <? new_ttl))
      | Some (ErrorResponse code) =>
          r = Ok false
          ∧ table w' = found
          ∧ stdout w'
            = (stdout w ++ [MsgErrorUpdatingRunning (ClientError code)])%list
      | Some (NoResponse name) =>
          r = Raise (BotoCoreError name)
          ∧ table w' = found
          ∧ stdout w' = stdout w
      end.
Proof.
  intros now found new_ttl.
  assert (Hh : 0 ≤ now → new_ttl = int_timestamp now + 28800).
  { intros Hnow. unfold new_ttl. by rewrite lease_expiry. }
  unfold start_running, datetime_now, update_item, update_fate. run.
  fold now. fold new_ttl. fold found.
  destruct (fault (upcoming (tail (script w)))) as [[code|name]|]; run.
  - eexists _, _. split; [reflexivity|]. cbn. done.
  - eexists _, _. split; [reflexivity|]. cbn. done.
  - eexists _, _. split; [reflexivity|]. cbn. repeat (split; [done|]).
    destruct (set_ttl_frame workflow_run_id new_ttl found) as (_ & _ & _ & _ & Hex).
    split; [done|]. intros it ts Hin Hk.
    apply live_of_ttl. by eapply set_ttl_sets.
Qed.

(** X3.  [restart_workflow] never raises for any of the ways [gh] ends that
    it names: it returns [True] exactly when [github_repo] is truthy and
    [gh] exits with status 0.  With a falsy [github_repo] ([None] or the
    empty string) it runs nothing and touches nothing; otherwise it runs
    [gh] once, with the rerun request of this repository and run, and
    leaves the table to the others. *)
Theorem restart_workflow_reports github_repo workflow_run_id w :
  ∃ restarted w',
    restart_workflow github_repo workflow_run_id w = (Ok restarted, w')
    ∧ (restarted = true
       ↔ truthy github_repo = true ∧ gh (upcoming (script w)) = GhCompleted)
    ∧ (truthy github_repo = false →
       calls w' = calls w ∧ table w' = table w ∧ script w' = script w
       ∧ stdout w' = (stdout w ++ [MsgNoRepoSkipping])%list)
    ∧ (∀ repo, github_repo = Some repo → repo ≠ "" →
       calls w' = (calls w ++ [rerun_request repo workflow_run_id])%list
       ∧ table w' = others (upcoming (script w)) (table w)
       ∧ script w' = tail (script w)).
Proof.
  unfold restart_workflow, subprocess_run.
  destruct github_repo as [repo|]; cbn [truthy].
  - destruct (String.eqb_spec repo "") as [->|Hne]; cbn [negb]; run.
    + eexists _, _. split; [reflexivity|]. cbn.
      split; [split; [done|intros [? _]; done]|]. split; [done|].
      intros repo [= <-] ?. done.
    + destruct (gh (upcoming (script w))); run; eexists _, _;
        (split; [reflexivity|]); cbn;
        (split; [split; [done|intros [_ ?]; done]|]); (split; [done|]);
        intros repo' [= <-] _; done.
  - run. eexists _, _. split; [reflexivity|]. cbn.
    split; [split; [done|intros [? _]; done]|]. split; [done|]. intros repo [=].
Qed.

(** ** Iterations the wait goes through *)

(** X4.  A scan that DynamoDB answers with a [ClientError] does not end the
    wait: the iteration prints the error, sends neither a renewal nor a
    promotion (the lease is not refreshed in such an iteration), sleeps
    for the poll interval and hands [queue_position] on as it found it. *)
Theorem failed_scan_is_retried table_name workflow_run_id github_repo start_time
    queue_position w code w3 :
  scan_fails table_name start_time w code w3 →
  ∃ w',
    iteration table_name workflow_run_id github_repo start_time queue_position w
    = (Ok (Next queue_position), w')
    ∧ calls w' = (calls w3 ++ [Sleep (seconds POLL_INTERVAL)])%list
    ∧ (∃ now_timestamp, last (calls w3) = Some (Scan table_name now_timestamp))
    ∧ table w' = others (upcoming (script w3)) (table w3)
    ∧ stdout w' = (stdout w3 ++ [MsgErrorChecking (ClientError code)])%list
    ∧ ∀ fuel,
        wait_loop (S fuel) table_name workflow_run_id github_repo start_time
          queue_position w
        = wait_loop fuel table_name workflow_run_id github_repo start_time
            queue_position w'.
Proof.
  intros (t & w1 & now & w2 & Ht & Hlt & Hnow & Hscan).
  assert (Hit : iteration table_name workflow_run_id github_repo start_time
                  queue_position w
                = (time_sleep (seconds POLL_INTERVAL);; mret (Next queue_position))
                    (printed [MsgErrorChecking (ClientError code)] w3)).
  { unfold iteration. unfold mbind at 1, M_bind at 1. rewrite Ht.
    destruct (Z.leb_spec (seconds MAX_QUEUE_DUR) (int_elapsed t start_time))
      as [?|_]; [lia|].
    unfold scan_and_act.
    unfold mbind at 1, M_bind at 1. unfold mbind at 1, M_bind at 1.
    unfold try_except. unfold mbind at 1, M_bind at 1.
    destruct (print _ w1) as [[[]|] w1'] eqn:Ep; [|done].
    simpl in Hnow. rewrite Hnow. unfold mbind at 1, M_bind at 1. rewrite Hscan.
    reflexivity. }
  destruct (scan_run table_name (int_timestamp now) w2)
    as (r & w3' & Hrun & Hcalls & _).
  rewrite Hscan in Hrun. injection Hrun as <- <-.
  unfold time_sleep in Hit. run_in Hit.
  eexists. split; [exact Hit|]. cbn -[wait_loop].
  split; [done|]. split; [rewrite Hcalls, last_snoc; eauto|].
  split; [done|]. split; [done|].
  intros fuel. by rewrite wait_loop_step, Hit.
Qed.

(** X5.  An item of the scan that has no string under [enqueued_at] (a row
    made by an update under a key that had no row, say) stops the script
    at the sort of line 165: the iteration raises [KeyError], which no
    handler catches, having printed and sent nothing since the scan; the
    loop is over and the process ends with status 1. *)
Theorem scanned_item_without_enqueued_at table_name workflow_run_id github_repo
    start_time queue_position w now all_workflows w3 x e :
  scans table_name start_time w now all_workflows w3 →
  In x all_workflows →
  enqueued_at x = Raise e →
  ∃ key,
    iteration table_name workflow_run_id github_repo start_time queue_position w
    = (Raise (KeyError key), w3)
    ∧ (key = "enqueued_at" ∨ key = "S")
    ∧ (∀ fuel,
         wait_loop (S fuel) table_name workflow_run_id github_repo start_time
           queue_position w
         = (Raise (KeyError key), w3))
    ∧ exit_status (Raise (KeyError key)) = Some 1.
Proof.
  intros Hscan Hin Hx.
  assert (Hsort : ∃ key, list_sort enqueued_at all_workflows = Raise (KeyError key)
                         ∧ (key = "enqueued_at" ∨ key = "S")).
  { destruct (list_sort enqueued_at all_workflows) as [s|e'] eqn:Es.
    - apply list_sort_Ok in Es as [_ Hall].
      rewrite List.Forall_forall in Hall. rewrite (Hall x Hin) in Hx. done.
    - apply list_sort_raise in Es as (y & _ & Hy).
      unfold enqueued_at, item_S in Hy.
      destruct (y !! "enqueued_at") as [[?|?]|]; inversion Hy; eauto. }
  destruct Hsort as (key & Hsort & Hkey).
  pose proof (iteration_scans _ workflow_run_id github_repo _ queue_position
                _ _ _ _ Hscan) as Hit.
  assert (Hact : rank_and_act table_name workflow_run_id queue_position
                   all_workflows w3 = (Raise (KeyError key), w3)).
  { unfold rank_and_act. destruct all_workflows as [|y l]; [done|].
    change (λ x, item_S x "enqueued_at") with enqueued_at.
    unfold mbind at 1, M_bind at 1, lift at 1. by rewrite Hsort. }
  rewrite Hact in Hit. cbn in Hit.
  exists key. split; [done|]. split; [done|]. split; [|done].
  intros fuel. by rewrite wait_loop_step, Hit.
Qed.

(** ** Invariants of the script, by its structure *)

Section keeps.
Context (R : world → world → Prop) (R_refl : ∀ w, R w w)
  (R_trans : ∀ w1 w2 w3, R w1 w2 → R w2 w3 → R w1 w3).

Lemma keeps_ret {A} (a : A) : keeps R (mret a).
Proof. intros w r w' [= <- <-]. apply R_refl. Qed.

Lemma keeps_raise {A} e : keeps R (raise e : M A).
Proof. intros w r w' [= <- <-]. apply R_refl. Qed.

Lemma keeps_lift {A} (x : result A) : keeps R (lift x).
Proof. intros w r w' [= <- <-]. apply R_refl. Qed.

Lemma keeps_read_clock : keeps R read_clock.
Proof. intros w r w' [= <- <-]. apply R_refl. Qed.

Lemma keeps_read_table : keeps R read_table.
Proof. intros w r w' [= <- <-]. apply R_refl. Qed.

Lemma keeps_bind {A B} (m : M A) (f : A → M B) :
  keeps R m → (∀ a, keeps R (f a)) → keeps R (m ≫= f).
Proof.
  intros Hm Hf w r w'. unfold mbind, M_bind.
  destruct (m w) as [[a|e] w1] eqn:E.
  - intros H. eapply R_trans; [by eapply Hm|by eapply Hf].
  - intros [= <- <-]. by eapply Hm.
Qed.

Lemma keeps_try {A} (body : M A) handler :
  keeps R body → (∀ e h, handler e = Some h → keeps R h) →
  keeps R (try_except body handler).
Proof.
  intros Hb Hh w r w'. unfold try_except.
  destruct (body w) as [[a|e] w1] eqn:E.
  - intros [= <- <-]. by eapply Hb.
  - destruct (handler e) as [h|] eqn:Eh.
    + intros H. eapply R_trans; [by eapply Hb|by eapply Hh].
    + intros [= <- <-]. by eapply Hb.
Qed.

Lemma keeps_except_ClientError {A} (h : exn → M A) e h' :
  (∀ e, keeps R (h e)) → except_ClientError h e = Some h' → keeps R h'.
Proof. intros Hh. destruct e; cbn; intros [= <-]; apply Hh. Qed.

(** What the script is made of keeps [R] as soon as its five ways of
    changing the world do. *)
Hypothesis R_fate : keeps R next_fate.
Hypothesis R_send : ∀ c, keeps R (send c).
Hypothesis R_print : ∀ m, keeps R (print m).
Hypothesis R_table : ∀ f, keeps R (modify_table f).
Hypothesis R_sleep : keeps R (advance_clock (seconds POLL_INTERVAL * 1000000)).

Ltac keeps :=
  repeat first
    [ solve [auto 1 using keeps_ret, keeps_raise, keeps_lift, keeps_read_clock,
               keeps_read_table, R_fate, R_send, R_print, R_table, R_sleep]
    | simple apply keeps_bind; [|intros ?]
    | simple apply keeps_try; [|intros ? ? ?]
    | simple eapply keeps_except_ClientError; [|eassumption]; intros ?; cbv beta
    | match goal with
      | |- keeps _ (match ?x with _ => _ end) => destruct x
      | |- keeps _ (if ?x then _ else _) => destruct x
      | |- keeps _ (let _ := _ in _) => cbv zeta
      end ].

Lemma keeps_update_item tn id new_ttl : keeps R (update_item tn id new_ttl).
Proof. unfold update_item. keeps. Qed.

Lemma keeps_datetime_now : keeps R datetime_now.
Proof. unfold datetime_now. keeps. Qed.

Lemma keeps_time_time : keeps R time_time.
Proof. unfold time_time. keeps. Qed.

Lemma keeps_time_sleep : keeps R (time_sleep (seconds POLL_INTERVAL)).
Proof. unfold time_sleep. keeps. Qed.

Lemma keeps_scan tn now_timestamp : keeps R (scan tn now_timestamp).
Proof. unfold scan. keeps. Qed.

Lemma keeps_put_item tn it : keeps R (put_item tn it).
Proof. unfold put_item. keeps. Qed.

Lemma keeps_delete_item tn id : keeps R (delete_item tn id).
Proof. unfold delete_item. keeps. Qed.

Lemma keeps_refresh_ttl tn id : keeps R (refresh_ttl tn id).
Proof.
  unfold refresh_ttl. pose proof keeps_datetime_now. pose proof keeps_update_item.
  keeps.
Qed.

Lemma keeps_start_running tn id : keeps R (start_running tn id).
Proof.
  unfold start_running. pose proof keeps_datetime_now. pose proof keeps_update_item.
  keeps.
Qed.

Lemma keeps_restart_workflow repo run : keeps R (restart_workflow repo run).
Proof.
  unfold restart_workflow, subprocess_run.
  destruct (negb (truthy repo)); [keeps|].
  apply keeps_try; [keeps|].
  intros e h He. destruct e; try done; injection He as <-; keeps.
Qed.

Lemma keeps_rank_and_act tn id qp ws : keeps R (rank_and_act tn id qp ws).
Proof.
  unfold rank_and_act, sys_exit.
  pose proof keeps_start_running. pose proof keeps_refresh_ttl. keeps.
Qed.

Lemma keeps_front_branch tn id n :
  keeps R (print MsgAtFront;;
           promoted ← start_running tn id;
           if promoted : bool then
             print (MsgUpdatedTTL (seconds MAX_QUEUE_DUR));; mret Return
           else
             print MsgRetrying;; mret (Next (Some n))).
Proof. pose proof keeps_start_running. keeps. Qed.

Lemma keeps_waiting_branch tn id n :
  keeps R (print (MsgNotOurTurn (seconds POLL_INTERVAL));;
           refresh_ttl tn id;;
           mret (Next (Some n))).
Proof. pose proof keeps_refresh_ttl. keeps. Qed.

Lemma keeps_finish_iteration r w r' w' :
  finish_iteration (r, w) = (r', w') → R w w'.
Proof.
  destruct r as [[|qp]|e]; cbn [finish_iteration].
  - intros [= <- <-]. apply R_refl.
  - assert (K : keeps R (time_sleep (seconds POLL_INTERVAL);; mret (Next qp)))
      by (pose proof keeps_time_sleep; keeps).
    intros H. by eapply K.
  - intros [= <- <-]. apply R_refl.
Qed.

Lemma keeps_poll_try tn id qp :
  keeps R (try_except (scan_and_act tn id qp)
             (except_ClientError
                (λ e, print (MsgErrorChecking e);; mret (Next qp)))).
Proof.
  unfold scan_and_act.
  pose proof keeps_datetime_now. pose proof keeps_scan. pose proof keeps_rank_and_act.
  keeps.
Qed.

Lemma keeps_iteration tn id repo start qp : keeps R (iteration tn id repo start qp).
Proof.
  unfold iteration, scan_and_act, sys_exit.
  pose proof keeps_time_time. pose proof keeps_datetime_now. pose proof keeps_scan.
  pose proof keeps_rank_and_act. pose proof keeps_restart_workflow.
  pose proof keeps_time_sleep. keeps.
Qed.

Lemma keeps_wait_loop fuel tn id repo start qp :
  keeps R (wait_loop fuel tn id repo start qp).
Proof.
  revert qp. induction fuel as [|fuel IH]; intros qp; cbn [wait_loop].
  - keeps.
  - pose proof keeps_iteration. keeps.
Qed.

Lemma keeps_register tn id : keeps R (register tn id).
Proof.
  unfold register, sys_exit.
  pose proof keeps_datetime_now. pose proof keeps_put_item. keeps.
Qed.

Lemma keeps_enqueue_and_wait fuel tn id repo :
  keeps R (enqueue_and_wait fuel tn id repo).
Proof.
  unfold enqueue_and_wait.
  pose proof keeps_register. pose proof keeps_time_time. pose proof keeps_wait_loop.
  keeps.
Qed.

Lemma keeps_dequeue tn id : keeps R (dequeue tn id).
Proof. unfold dequeue. pose proof keeps_delete_item. keeps. Qed.
End keeps.

(** *** What is printed stays printed *)

Lemma prints_more_refl w : prints_more w w.
Proof. exists []. by rewrite app_nil_r. Qed.

Lemma prints_more_trans w1 w2 w3 :
  prints_more w1 w2 → prints_more w2 w3 → prints_more w1 w3.
Proof. intros [ms1 H1] [ms2 H2]. exists (ms1 ++ ms2)%list. by rewrite H2, H1, app_assoc. Qed.

Lemma prints_more_fate : keeps prints_more next_fate.
Proof. intros w r w' [= <- <-]. exists []. cbn. by rewrite app_nil_r. Qed.

Lemma prints_more_send c : keeps prints_more (send c).
Proof. intros w r w' [= <- <-]. exists []. cbn. by rewrite app_nil_r. Qed.

Lemma prints_more_print m : keeps prints_more (print m).
Proof. intros w r w' [= <- <-]. by exists [m]. Qed.

Lemma prints_more_table f : keeps prints_more (modify_table f).
Proof. intros w r w' [= <- <-]. exists []. cbn. by rewrite app_nil_r. Qed.

Lemma prints_more_sleep us : keeps prints_more (advance_clock us).
Proof. intros w r w' [= <- <-]. exists []. cbn. by rewrite app_nil_r. Qed.

Lemma prints_more_In m w w' : prints_more w w' → In m (stdout w) → In m (stdout w').
Proof. intros [ms ->] H. apply List.in_app_iff. by left. Qed.

(** *** The clock goes on *)

Lemma clock_goes_on_refl w : clock_goes_on w w.
Proof. intros H. split; [lia|done]. Qed.

Lemma clock_goes_on_trans w1 w2 w3 :
  clock_goes_on w1 w2 → clock_goes_on w2 w3 → clock_goes_on w1 w3.
Proof.
  intros H1 H2 Hs. destruct (H1 Hs) as [? Hs2]. destruct (H2 Hs2) as [? Hs3].
  split; [lia|done].
Qed.

Lemma steady_upcoming s : steady s → 0 ≤ dt (upcoming s) ∧ steady (tail s).
Proof. destruct 1; cbn; [split; [done|constructor]|done]. Qed.

Lemma clock_goes_on_fate : keeps clock_goes_on next_fate.
Proof.
  intros w r w' [= <- <-] Hs. cbn. apply steady_upcoming in Hs as [? ?].
  split; [lia|done].
Qed.

Lemma clock_goes_on_send c : keeps clock_goes_on (send c).
Proof. intros w r w' [= <- <-] Hs. cbn. split; [lia|done]. Qed.

Lemma clock_goes_on_print m : keeps clock_goes_on (print m).
Proof. intros w r w' [= <- <-] Hs. cbn. split; [lia|done]. Qed.

Lemma clock_goes_on_table f : keeps clock_goes_on (modify_table f).
Proof. intros w r w' [= <- <-] Hs. cbn. split; [lia|done]. Qed.

Lemma clock_goes_on_sleep :
  keeps clock_goes_on (advance_clock (seconds POLL_INTERVAL * 1000000)).
Proof.
  intros w r w' H Hs. unfold advance_clock in H. injection H as <- <-.
  cbn [clock script]. split; [|done].
  match goal with |- _ ≤ _ + ?d => assert (0 ≤ d) by (by vm_compute) end. lia.
Qed.

(** ** The wait ends *)

Ltac clock_goes_on :=
  first [ exact clock_goes_on_refl | exact clock_goes_on_trans
        | exact clock_goes_on_fate | exact clock_goes_on_send
        | exact clock_goes_on_print | exact clock_goes_on_table
        | exact clock_goes_on_sleep ].

Lemma clock_goes_on_poll_try tn id qp :
  keeps clock_goes_on
    (try_except (scan_and_act tn id qp)
       (except_ClientError (λ e, print (MsgErrorChecking e);; mret (Next qp)))).
Proof. apply keeps_poll_try; clock_goes_on. Qed.

Lemma elapsed_at_ceiling t start :
  start + 19800000000 ≤ t → seconds MAX_QUEUE_DUR ≤ int_elapsed t start.
Proof.
  intros H. change (seconds MAX_QUEUE_DUR) with 19800. unfold int_elapsed.
  rewrite Z.quot_div_nonneg by lia. apply Z.div_le_lower_bound; lia.
Qed.

(** Past the ceiling an iteration leaves through [sys.exit(1)]. *)
Lemma iteration_at_ceiling tn id repo start qp w :
  seconds MAX_QUEUE_DUR ≤ int_elapsed (clock w + dt (upcoming (script w))) start →
  ∃ w', iteration tn id repo start qp w = (Raise (SystemExit 1), w').
Proof.
  intros Hc. unfold iteration, time_time. run.
  destruct (Z.leb_spec (seconds MAX_QUEUE_DUR)
              (int_elapsed (clock w + dt (upcoming (script w))) start))
    as [_|?]; [|lia].
  destruct (truthy repo) eqn:Hrepo; run; [|eauto].
  edestruct (restart_workflow_run repo id) as (b & w1 & -> & _).
  destruct b; run; eauto.
Qed.

(** Below the ceiling an iteration is its [try] statement and what
    follows it. *)
Lemma iteration_below_ceiling tn id repo start qp w :
  int_elapsed (clock w + dt (upcoming (script w))) start < seconds MAX_QUEUE_DUR →
  iteration tn id repo start qp w
  = finish_iteration
      (try_except (scan_and_act tn id qp)
         (except_ClientError (λ e, print (MsgErrorChecking e);; mret (Next qp)))
         (print (MsgChecking (int_elapsed (clock w + dt (upcoming (script w))) start))
            (next_fate w).2).2).
Proof.
  intros Hc.
  assert (Ht : time_time w
               = (Ok (clock w + dt (upcoming (script w))), (next_fate w).2))
    by reflexivity.
  unfold iteration. unfold mbind at 1, M_bind at 1. rewrite Ht.
  destruct (Z.leb_spec (seconds MAX_QUEUE_DUR)
              (int_elapsed (clock w + dt (upcoming (script w))) start))
    as [?|_]; [lia|].
  unfold mbind at 1, M_bind at 1.
  destruct (print _ (next_fate w).2) as [[[]|] w1] eqn:Ep; [|done].
  cbn [snd]. unfold mbind at 1, M_bind at 1.
  match goal with |- context [try_except ?b ?h ?w0] =>
    destruct (try_except b h w0) as [[[|q]|e] w2] end; reflexivity.
Qed.

(** An iteration that goes round has slept: the clock is a poll interval
    further at least. *)
Lemma iteration_takes_time tn id repo start qp w qp' w' :
  iteration tn id repo start qp w = (Ok (Next qp'), w') →
  steady (script w) →
  clock w + 60000000 ≤ clock w' ∧ steady (script w').
Proof.
  intros Hit Hs.
  destruct (Z.le_gt_cases (seconds MAX_QUEUE_DUR)
              (int_elapsed (clock w + dt (upcoming (script w))) start)) as [Hc|Hc].
  { destruct (iteration_at_ceiling tn id repo start qp w Hc) as [w1 H1]. congruence. }
  rewrite iteration_below_ceiling in Hit by lia.
  match type of Hit with finish_iteration ?x = _ =>
    destruct x as [[[|q]|e] w2] eqn:Htry end; try done.
  apply clock_goes_on_poll_try in Htry. cbn in Htry.
  apply steady_upcoming in Hs as [Hdt Hs].
  destruct (Htry Hs) as [Hclock Hs2]. cbn in Hclock.
  cbn [finish_iteration] in Hit. unfold time_sleep in Hit. run_in Hit.
  injection Hit as <- <-. cbn.
  apply steady_upcoming in Hs2 as [Hdt2 Hs3].
  split; [|done].
  match goal with |- _ ≤ _ + _ + ?d => assert (d = 60000000) as -> by reflexivity end.
  lia.
Qed.

Lemma wait_loop_ends tn id repo start n :
  ∀ qp w,
    steady (script w) →
    start + 19800000000 ≤ clock w + 60000000 * Z.of_nat n →
    ∃ r w', r ≠ Ok Waiting
            ∧ ∀ k, wait_loop (S n + k) tn id repo start qp w = (r, w').
Proof.
  induction n as [|n IH]; intros qp w Hs Hclock.
  - destruct (iteration_at_ceiling tn id repo start qp w) as [w' Hit].
    { apply elapsed_at_ceiling. apply steady_upcoming in Hs as [? _]. lia. }
    exists (Raise (SystemExit 1)), w'. split; [done|].
    intros k. cbn [Nat.add]. by rewrite wait_loop_step, Hit.
  - destruct (iteration tn id repo start qp w) as [[[|qp']|e] w1] eqn:Hit.
    + exists (Ok Returned), w1. split; [done|].
      intros k. cbn [Nat.add]. by rewrite wait_loop_step, Hit.
    + destruct (iteration_takes_time _ _ _ _ _ _ _ _ Hit Hs) as [Hc1 Hs1].
      destruct (IH qp' w1 Hs1) as (r & w' & Hr & Hloop); [lia|].
      exists r, w'. split; [done|].
      intros k. cbn [Nat.add]. rewrite wait_loop_step, Hit. exact (Hloop k).
    + exists (Raise e), w1. split; [done|].
      intros k. cbn [Nat.add]. by rewrite wait_loop_step, Hit.
Qed.

(** X6.  The wait is bounded.  While the clock does not go back, an
    execution of [enqueue_and_wait] is over after 331 iterations of its
    loop at most (330 sleeps of 60 s reach the ceiling of 19800 s): it has
    returned or it has raised, and looking at more iterations changes
    nothing. *)
Theorem wait_is_bounded table_name workflow_run_id github_repo w :
  steady (script w) →
  ∃ r w',
    r ≠ Ok Waiting
    ∧ ∀ fuel, (331 ≤ fuel)%nat →
        enqueue_and_wait fuel table_name workflow_run_id github_repo w = (r, w').
Proof.
  intros Hs.
  set (w0 := printed [MsgEnqueuing; MsgTable table_name;
                      MsgWorkflowRun workflow_run_id; MsgBlank] w).
  destruct (register table_name workflow_run_id w0) as [[[]|e] w1] eqn:Hreg.
  - assert (Hs1 : steady (script w1)).
    { assert (K : keeps clock_goes_on (register table_name workflow_run_id))
        by (apply keeps_register; clock_goes_on).
      by apply (K _ _ _ Hreg). }
    apply steady_upcoming in Hs1 as [Hdt Hs2].
    destruct (wait_loop_ends table_name workflow_run_id github_repo
                (clock w1 + dt (upcoming (script w1))) 330 None
                {| table := others (upcoming (script w1)) (table w1);
                   clock := clock w1 + dt (upcoming (script w1));
                   script := tail (script w1); calls := calls w1;
                   stdout := stdout w1 |})
      as (r & w' & Hr & Hloop); [done|cbn; lia|].
    exists r, w'. split; [done|]. intros fuel Hfuel.
    rewrite enqueue_and_wait_unfold. fold w0. rewrite Hreg.
    unfold time_time. run.
    replace fuel with (331 + (fuel - 331))%nat by lia. apply Hloop.
  - exists (Raise e), w1. split; [done|]. intros fuel _.
    rewrite enqueue_and_wait_unfold. fold w0. by rewrite Hreg.
Qed.

(** ** What a return means *)

Lemma start_running_true tn id w w' :
  start_running tn id w = (Ok true, w') →
  ∃ new_ttl,
    calls w' = (calls w ++ [UpdateItem tn id new_ttl])%list
    ∧ holds_lease id new_ttl (table w')
    ∧ stdout w' = stdout w.
Proof.
  unfold start_running, datetime_now, update_item. run.
  destruct (fault (upcoming (tail (script w)))) as [[code|name]|]; run; [done|done|].
  intros [= <-]. cbn. eexists. split; [reflexivity|]. split; [|done].
  split.
  - match goal with |- context [set_ttl id ?v ?t] =>
      destruct (set_ttl_frame id v t) as (_ & _ & _ & _ & Hex) end. exact Hex.
  - intros it Hin Hk. by eapply set_ttl_sets.
Qed.

Lemma rank_and_act_return tn id qp ws w w' :
  rank_and_act tn id qp ws w = (Ok Return, w') → let_through tn id w'.
Proof.
  unfold rank_and_act. destruct ws as [|x ws]; run; [done|].
  destruct (list_sort _ (x :: ws)) as [s|e]; run; [|done].
  destruct (comprehension _ s) as [ids|e]; run; [|done].
  destruct s as [|y s]; run; [done|].
  destruct (item_S y "workflow_run_id") as [fid|e]; run; [|done].
  destruct (find_position id 0 (y :: s) qp) as [[n|]|e]; run; try done.
  destruct ((fid =? id)%string); run.
  - match goal with |- context [start_running tn id ?w0] =>
      destruct (start_running tn id w0) as [[[|]|e] w1] eqn:Hrun end; run;
      try done.
    intros [= <-]. apply start_running_true in Hrun as (v & Hc & Hl & _).
    exists v. cbn. split; [by rewrite Hc, last_snoc|]. split; [done|].
    by rewrite last_snoc.
  - match goal with |- context [refresh_ttl tn id ?w0] =>
      destruct (refresh_ttl tn id w0) as [[[]|e] w1] end; run; done.
Qed.

Lemma iteration_return tn id repo start qp w w' :
  iteration tn id repo start qp w = (Ok Return, w') → let_through tn id w'.
Proof.
  intros Hit.
  destruct (Z.le_gt_cases (seconds MAX_QUEUE_DUR)
              (int_elapsed (clock w + dt (upcoming (script w))) start)) as [Hc|Hc].
  { destruct (iteration_at_ceiling tn id repo start qp w Hc) as [w1 H1]. congruence. }
  rewrite iteration_below_ceiling in Hit by lia.
  match type of Hit with finish_iteration ?x = _ =>
    destruct x as [[[|q]|e] w2] eqn:Htry end; cbn [finish_iteration] in Hit.
  - injection Hit as <-. revert Htry.
    unfold try_except, scan_and_act, datetime_now, scan. run.
    match goal with |- context [fault ?f] => destruct (fault f) as [[?|?]|] end;
      run; [done|done|].
    match goal with |- context [rank_and_act tn id qp ?ws ?w0] =>
      destruct (rank_and_act tn id qp ws w0) as [[[|q]|e] w3] eqn:Hact end;
      try (intros [=]; fail).
    + intros [= <-]. by eapply rank_and_act_return.
    + destruct e; run; done.
  - unfold time_sleep in Hit. run_in Hit. done.
  - done.
Qed.

Lemma wait_loop_return fuel tn id repo start qp w w' :
  wait_loop fuel tn id repo start qp w = (Ok Returned, w') → let_through tn id w'.
Proof.
  revert qp w. induction fuel as [|fuel IH]; intros qp w; [done|].
  rewrite wait_loop_step.
  destruct (iteration tn id repo start qp w) as [[[|qp']|e] w1] eqn:Hit.
  - intros [= <-]. by eapply iteration_return.
  - apply IH.
  - done.
Qed.

(** X7.  When [enqueue_and_wait] returns, the entrant has been let
    through: the last request it sent is the update of its own lease, the
    table took that update, so that the table holds a row under the
    entrant's key and every such row expires at the expiry asked for, and
    the last line printed is the one of line 184 (which names the 19800 s
    of the wait ceiling, not the eight hours of the lease). *)
Theorem return_means_let_through fuel table_name workflow_run_id github_repo w w' :
  enqueue_and_wait fuel table_name workflow_run_id github_repo w = (Ok Returned, w') →
  ∃ new_ttl,
    last (calls w') = Some (UpdateItem table_name workflow_run_id new_ttl)
    ∧ existsb (has_key workflow_run_id) (table w') = true
    ∧ (∀ it ts, In it (table w') → has_key workflow_run_id it = true →
         it !! "ttl" = Some (AttrN new_ttl) ∧ live ts it = (ts <? new_ttl))
    ∧ last (stdout w') = Some (MsgUpdatedTTL 19800).
Proof.
  intros Hrun.
  rewrite enqueue_and_wait_unfold in Hrun.
  destruct (register _ _ _) as [[[]|e] w1]; [|done].
  revert Hrun. unfold time_time. run. intros Hloop.
  apply wait_loop_return in Hloop as (v & Hc & [Hex Hall] & Hout).
  exists v. repeat (split; [done|]). split; [|done].
  intros it ts Hin Hk. split; [by apply Hall|]. apply live_of_ttl. by apply Hall.
Qed.

(** ** How the script can end *)


Lemma throws_ret {A} P (a : A) : throws P (mret a).
Proof. intros w e w' [=]. Qed.

Lemma throws_raise {A} (P : exn → Prop) e : P e → throws P (raise e : M A).
Proof. intros He w e' w' [= <- <-]. done. Qed.

Lemma throws_lift {A} (P : exn → Prop) (r : result A) :
  (∀ e, r = Raise e → P e) → throws P (lift r).
Proof. intros Hr w e w' [= -> <-]. by apply Hr. Qed.

Lemma throws_bind {A B} P (m : M A) (f : A → M B) :
  throws P m → (∀ a, throws P (f a)) → throws P (m ≫= f).
Proof.
  intros Hm Hf w e w'. unfold mbind, M_bind.
  destruct (m w) as [[a|e1] w1] eqn:E.
  - apply Hf.
  - intros [= <- <-]. by eapply Hm.
Qed.


Lemma throws_next_fate P : throws P next_fate.
Proof. intros w e w' [=]. Qed.

Lemma throws_send P c : throws P (send c).
Proof. intros w e w' [=]. Qed.

Lemma throws_print P m : throws P (print m).
Proof. intros w e w' [=]. Qed.

Lemma throws_read_clock P : throws P read_clock.
Proof. intros w e w' [=]. Qed.

Lemma throws_read_table P : throws P read_table.
Proof. intros w e w' [=]. Qed.

Lemma throws_modify_table P f : throws P (modify_table f).
Proof. intros w e w' [=]. Qed.

Lemma throws_advance_clock P us : throws P (advance_clock us).
Proof. intros w e w' [=]. Qed.

Lemma store_error_raised x : store_error (raised x).
Proof. by destruct x. Qed.

Ltac throws :=
  repeat first
    [ solve [auto 1 using throws_ret, throws_next_fate, throws_send, throws_print,
               throws_read_clock, throws_read_table, throws_modify_table,
               throws_advance_clock]
    | simple apply throws_raise; first [exact (store_error_raised _) | solve [cbn; eauto]]
    | simple apply throws_bind; [|intros ?]
    | match goal with
      | |- throws _ (match ?x with _ => _ end) => destruct x
      | |- throws _ (if ?x then _ else _) => destruct x
      | |- throws _ (let _ := _ in _) => cbv zeta
      end ].







Lemma throws_delete_item tn id : throws store_error (delete_item tn id).
Proof. unfold delete_item. throws. Qed.











(** ** The queue an iteration prints, and the rank in it *)

Ltac prints_more :=
  first [ exact prints_more_refl | exact prints_more_trans
        | exact prints_more_fate | exact prints_more_send
        | exact prints_more_print | exact prints_more_table
        | exact (prints_more_sleep _) ].

Lemma list_sort_ascending ws sorted :
  list_sort enqueued_at ws = Ok sorted → StronglySorted not_after sorted.
Proof.
  intros Hs. pose proof (list_sort_sorted _ _ _ Hs) as Hsorted.
  pose proof (list_sort_perm _ _ _ Hs) as Hperm.
  destruct (list_sort_Ok _ _ _ Hs) as [_ Hall].
  rewrite <- Hperm in Hall. clear Hs Hperm.
  induction Hsorted as [|x s Hs IH Hx]; [constructor|].
  apply Forall_cons in Hall as [Hkx Hall].
  constructor; [by apply IH|].
  rewrite List.Forall_forall in Hx, Hall. apply List.Forall_forall.
  intros y Hy. exists (key_or_empty enqueued_at x), (key_or_empty enqueued_at y).
  split; [done|]. split; [by apply Hall|by apply Hx].
Qed.

(** The loop of lines 171-174 on records that hold the id: the position is
    one more than the index of the first record with the id. *)
Lemma find_position_first id idx l qp :
  Forall is_record l → (∃ x, In x l ∧ run_id x = Ok id) →
  ∃ (i : nat) own,
    find_position id idx l qp = Ok (Some (idx + 1 + Z.of_nat i))
    ∧ l !! i = Some own ∧ run_id own = Ok id
    ∧ ∀ (j : nat) y, (j < i)%nat → l !! j = Some y → run_id y ≠ Ok id.
Proof.
  intros Hrec. revert idx.
  induction Hrec as [|x l (xid & at_ & Hid & _) _ IH]; intros idx (y & Hy & Hyid);
    cbn [find_position]; [done|].
  fold (run_id x). rewrite Hid. unfold mbind, result_bind.
  destruct (String.eqb_spec xid id) as [->|Hne].
  - exists 0%nat, x. rewrite Z.add_0_r. repeat (split; [done|]). intros j z Hj. lia.
  - destruct Hy as [->|Hy]; [congruence|].
    destruct (IH (idx + 1)) as (i & own & Hfind & Hown & Hownid & Hbefore);
      [by exists y|].
    exists (S i), own. rewrite Hfind. split; [f_equal; f_equal; lia|].
    split; [done|]. split; [done|].
    intros [|j] z Hj; cbn; [intros [= <-]; congruence|].
    apply Hbefore. lia.
Qed.

(** X9.  In an iteration whose scan gave a non-empty list of records, the
    queue printed at line 166 is the ids of exactly the scanned records,
    in ascending order of [enqueued_at], and the id printed at line 176 is
    the first of them. *)
Theorem printed_queue_is_the_sorted_scan table_name workflow_run_id github_repo
    start_time queue_position w now all_workflows w3 :
  scans table_name start_time w now all_workflows w3 →
  all_workflows ≠ [] →
  Forall is_record all_workflows →
  ∃ sorted ids,
    sorted ≡ₚ all_workflows
    ∧ StronglySorted not_after sorted
    ∧ List.map run_id sorted = List.map Ok ids
    ∧ In (MsgQueue ids)
         (stdout (iteration table_name workflow_run_id github_repo start_time
                    queue_position w).2)
    ∧ ∃ first_workflow_id,
        head ids = Some first_workflow_id
        ∧ In (MsgFirstInQueue first_workflow_id)
             (stdout (iteration table_name workflow_run_id github_repo start_time
                        queue_position w).2).
Proof.
  intros Hscan Hne Hrec.
  destruct (rank_and_act_records table_name workflow_run_id queue_position
              all_workflows w3 Hne Hrec)
    as (front & rest & ids & fid & qp' & Hs & Hids & Hfid & Hqp & Hact).
  exists (front :: rest), ids.
  split; [by eapply list_sort_perm|]. split; [by eapply list_sort_ascending|].
  assert (Hmap : ∀ l ids, comprehension run_id l = Ok ids →
                   List.map run_id l = List.map Ok ids).
  { induction l as [|x l IH]; intros ids0; cbn [comprehension].
    - by intros [= <-].
    - unfold mbind, result_bind. destruct (run_id x) as [i|] eqn:Ex; [|done].
      destruct (comprehension run_id l) as [more|]; [|done].
      intros [= <-]. cbn. by rewrite Ex, (IH more). }
  split; [by apply Hmap|].
  assert (Hhead : head ids = Some fid).
  { apply Hmap in Hids. destruct ids; cbn in Hids; [done|].
    injection Hids as Hf _. cbn. congruence. }
  rewrite (iteration_scans _ workflow_run_id github_repo _ queue_position
             _ _ _ _ Hscan), Hact.
  assert (Hboth : ∀ w1 r w', prints_more w1 w' →
            In (MsgQueue ids) (stdout w1) → In (MsgFirstInQueue fid) (stdout w1) →
            In (MsgQueue ids) (stdout (finish_iteration (r, w')).2)
            ∧ In (MsgFirstInQueue fid) (stdout (finish_iteration (r, w')).2)).
  { intros w1 r w' Hw1 H1 H2.
    destruct (finish_iteration (r, w')) as [r2 w2] eqn:Hf.
    apply keeps_finish_iteration with (R := prints_more) in Hf; try prints_more.
    split; eapply prints_more_In; try exact Hf; by eapply prints_more_In. }
  assert (Hin1 : ∀ ms, In (MsgQueue ids)
            (stdout (printed (MsgQueue ids :: MsgFirstInQueue fid :: ms) w3))).
  { intros ms. cbn. apply List.in_app_iff. right. by left. }
  assert (Hin2 : ∀ ms, In (MsgFirstInQueue fid)
            (stdout (printed (MsgQueue ids :: MsgFirstInQueue fid :: ms) w3))).
  { intros ms. cbn. apply List.in_app_iff. right. right. by left. }
  assert (Hgoal : ∀ X : result control * world,
            (∃ ms, prints_more (printed (MsgQueue ids :: MsgFirstInQueue fid :: ms) w3) X.2) →
            In (MsgQueue ids) (stdout (finish_iteration X).2)
            ∧ In (MsgFirstInQueue fid) (stdout (finish_iteration X).2)).
  { intros [r w'] [ms Hp]. eapply Hboth; [exact Hp|apply Hin1|apply Hin2]. }
  clear Hact.
  match goal with |- In _ (stdout (finish_iteration ?X).2) ∧ _ =>
    assert (Hx : ∃ ms, prints_more
                   (printed (MsgQueue ids :: MsgFirstInQueue fid :: ms) w3) X.2) end.
  { destruct qp' as [n|].
    - exists [MsgQueuePosition n]. cbn zeta.
      destruct (fid =? workflow_run_id)%string.
      + match goal with |- prints_more ?w1 (?m ?w1).2 =>
          destruct (m w1) as [r w'] eqn:Hm end.
        apply keeps_front_branch with (R := prints_more) in Hm; try prints_more.
        exact Hm.
      + match goal with |- prints_more ?w1 (?m ?w1).2 =>
          destruct (m w1) as [r w'] eqn:Hm end.
        apply keeps_waiting_branch with (R := prints_more) in Hm; try prints_more.
        exact Hm.
    - exists []. apply prints_more_refl. }
  destruct (Hgoal _ Hx) as [H1 H2]. split; [done|]. exists fid. done.
Qed.
(** X10.  An entrant that is in the queue but not at its front: the position
    it prints and keeps is one more than the number of records sorted
    ahead of the first record with its id, hence at least 2; it sends the
    renewal of its lease, sleeps for the poll interval and goes round the
    loop again with that position.  Only a renewal that boto3 gives up on
    without an answer of DynamoDB ends the iteration otherwise: its
    exception leaves the script before the sleep. *)
Theorem waiting_entrant_keeps_its_place table_name workflow_run_id github_repo
    start_time queue_position w now all_workflows w3 front rest :
  scans table_name start_time w now all_workflows w3 →
  Forall is_record all_workflows →
  list_sort enqueued_at all_workflows = Ok (front :: rest) →
  run_id front ≠ Ok workflow_run_id →
  (∃ x, In x all_workflows ∧ run_id x = Ok workflow_run_id) →
  ∃ (i : nat) own r w',
    (0 < i)%nat
    ∧ (front :: rest) !! i = Some own
    ∧ run_id own = Ok workflow_run_id
    ∧ (∀ (j : nat) y, (j < i)%nat → (front :: rest) !! j = Some y →
         run_id y ≠ Ok workflow_run_id)
    ∧ iteration table_name workflow_run_id github_repo start_time queue_position w
      = (r, w')
    ∧ In (MsgQueuePosition (Z.of_nat i + 1)) (stdout w')
    ∧ match uncaught (update_fate w3) with
      | None =>
          r = Ok (Next (Some (Z.of_nat i + 1)))
          ∧ calls w' = (calls w3 ++ [renewal table_name workflow_run_id w3;
                                     Sleep (seconds POLL_INTERVAL)])%list
      | Some e =>
          r = Raise e
          ∧ calls w' = (calls w3 ++ [renewal table_name workflow_run_id w3])%list
      end.
Proof.
  intros Hscan Hrec Hs Hfront (x & Hx & Hxid).
  assert (Hne : all_workflows ≠ []) by (intros ->; done).
  destruct (rank_and_act_records table_name workflow_run_id queue_position
              all_workflows w3 Hne Hrec)
    as (front' & rest' & ids & fid & qp' & Hs' & Hids & Hfid & Hqp & Hact).
  rewrite Hs in Hs'. injection Hs' as <- <-.
  pose proof (list_sort_perm _ _ _ Hs) as Hperm.
  assert (Hrec' : Forall is_record (front :: rest)) by (by rewrite Hperm).
  destruct (find_position_first workflow_run_id 0 (front :: rest) queue_position Hrec')
    as (i & own & Hfind & Hown & Hownid & Hbefore).
  { exists x. split; [|done]. apply list_elem_of_In. rewrite Hperm.
    by apply list_elem_of_In. }
  rewrite Hfind in Hqp. injection Hqp as <-.
  assert (Hi : (0 < i)%nat).
  { destruct i; [|lia]. cbn in Hown. congruence. }
  assert (Hneq : (fid =? workflow_run_id)%string = false).
  { apply String.eqb_neq. congruence. }
  rewrite Hneq in Hact. cbn zeta in Hact.
  replace (0 + 1 + Z.of_nat i) with (Z.of_nat i + 1) in Hact by lia.
  set (n := Z.of_nat i + 1) in *.
  set (w4 := printed [MsgQueue ids; MsgFirstInQueue fid; MsgQueuePosition n;
                      MsgNotOurTurn (seconds POLL_INTERVAL)] w3).
  destruct (refresh_ttl_run table_name workflow_run_id w4)
    as (renewed & w5 & Hr & Hcalls & _ & Hrenewed).
  change (update_fate w4) with (update_fate w3) in Hrenewed.
  destruct (time_sleep_run (seconds POLL_INTERVAL) w5) as (w6 & Hsl & Hcalls6 & Hout6).
  assert (Hout5 : prints_more w4 w5).
  { assert (K : keeps prints_more (refresh_ttl table_name workflow_run_id))
      by (apply keeps_refresh_ttl; prints_more).
    by eapply K. }
  assert (Hit : iteration table_name workflow_run_id github_repo start_time
                  queue_position w
                = finish_iteration
                    (match renewed with
                     | Ok _ => (Ok (Next (Some n)), w5)
                     | Raise e => (Raise e, w5)
                     end)).
  { rewrite (iteration_scans _ workflow_run_id github_repo _ queue_position
               _ _ _ _ Hscan), Hact.
    unfold mbind at 1, M_bind at 1.
    change (print (MsgNotOurTurn (seconds POLL_INTERVAL))
              (printed [MsgQueue ids; MsgFirstInQueue fid; MsgQueuePosition n] w3))
      with (Ok tt, printed [MsgNotOurTurn (seconds POLL_INTERVAL)]
                     (printed [MsgQueue ids; MsgFirstInQueue fid; MsgQueuePosition n] w3)).
    assert (Hw4 : printed [MsgNotOurTurn (seconds POLL_INTERVAL)]
                    (printed [MsgQueue ids; MsgFirstInQueue fid; MsgQueuePosition n] w3)
                  = w4).
    { unfold w4, printed. cbn. f_equal. by rewrite <- app_assoc. }
    rewrite Hw4. unfold mbind at 1, M_bind at 1. rewrite Hr.
    by destruct renewed. }
  assert (Hin : In (MsgQueuePosition n) (stdout w5)).
  { eapply prints_more_In; [exact Hout5|].
    unfold w4. cbn. apply List.in_app_iff. right. cbn. tauto. }
  destruct (uncaught (update_fate w3)) as [e|]; subst renewed.
  - exists i, own, (Raise e), w5.
    do 4 (split; [done|]).
    split; [exact Hit|]. split; [done|]. split; [done|].
    rewrite Hcalls. unfold w4. done.
  - exists i, own, (Ok (Next (Some n))), w6.
    do 4 (split; [done|]).
    split.
    { rewrite Hit. unfold finish_iteration, mret, M_ret.
      unfold mbind at 1, M_bind at 1. by rewrite Hsl. }
    split; [by rewrite Hout6|]. split; [done|].
    rewrite Hcalls6, Hcalls. unfold w4. cbn. by rewrite <- app_assoc.
Qed.

(** ** A first arrival *)

Lemma quiet_upcoming s : Forall quiet s → quiet (upcoming s) ∧ Forall quiet (tail s).
Proof.
  destruct 1; cbn; [|done]. split; [|constructor].
  repeat split; try done. 
Qed.

Lemma register_fresh tn id w :
  nobody_else (upcoming (script w)) →
  nobody_else (upcoming (tail (script w))) →
  fault (upcoming (tail (script w))) = None →
  existsb (has_key id) (table w) = false →
  let now := clock w + dt (upcoming (script w)) in
  let record := queue_record id (isoformat now)
                  (int_timestamp (datetime_add now WAITING_TTL)) in
  register tn id w
  = (Ok tt, {| table := (table w ++ [record])%list;
               clock := now + dt (upcoming (tail (script w)));
               script := tail (tail (script w));
               calls := (calls w ++ [PutItem tn record])%list;
               stdout := ((stdout w ++ [MsgEnqueued id]) ++ [MsgBlank])%list |}).
Proof.
  intros Ho1 Ho2 Hf2 Hfresh now record.
  unfold register, datetime_now, put_item. run.
  fold now. fold (queue_record id (isoformat now)
          (int_timestamp (datetime_add now WAITING_TTL))). fold record.
  unfold record at 1. rewrite queue_record_key. run.
  rewrite Hf2, Ho1, Ho2. run. rewrite Hfresh. run. reflexivity.
Qed.

Lemma live_later ts ts' x : live ts x = false → ts ≤ ts' → live ts' x = false.
Proof.
  unfold live. destruct (x !! "ttl") as [[s|n]|]; try done.
  rewrite !Z.ltb_ge. lia.
Qed.

Lemma all_expired_filter ts ts' t :
  all_expired ts t → ts ≤ ts' → List.filter (live ts') t = [].
Proof.
  intros Hexp Hle. induction Hexp as [|x t Hx _ IH]; [done|].
  cbn. by rewrite (live_later _ _ _ Hx Hle).
Qed.

Lemma rank_and_act_alone tn id qp at_ ttl w :
  rank_and_act tn id qp [queue_record id at_ ttl] w
  = (print MsgAtFront;;
     promoted ← start_running tn id;
     if promoted : bool then
       print (MsgUpdatedTTL (seconds MAX_QUEUE_DUR));; mret Return
     else
       print MsgRetrying;; mret (Next (Some 1)))
      (printed [MsgQueue [id]; MsgFirstInQueue id; MsgQueuePosition 1] w).
Proof.
  unfold rank_and_act, list_sort. cbn [comprehension].
  unfold item_S. rewrite queue_record_enqueued_at.
  cbn [mbind result_bind sort_decorated foldr insert_by_key List.map snd].
  run. cbn [comprehension find_position]. unfold run_id, item_S.
  rewrite ?queue_record_key. run. rewrite ?String.eqb_refl. run.
  rewrite ?String.eqb_refl. unfold printed. rewrite <- ?app_assoc. reflexivity.
Qed.

Lemma set_ttl_own id at_ old new_ttl t :
  existsb (has_key id) t = false →
  set_ttl id new_ttl (t ++ [queue_record id at_ old])
  = (t ++ [queue_record id at_ new_ttl])%list.
Proof.
  intros Hfresh. unfold set_ttl.
  rewrite existsb_app. cbn [existsb]. rewrite has_key_queue_record, Hfresh. cbn [orb].
  rewrite List.map_app. cbn [List.map]. rewrite has_key_queue_record.
  assert (Hrest : List.map (λ it : item, if has_key id it
                                         then <["ttl" := AttrN new_ttl]> it else it) t = t).
  { induction t as [|x t IH]; [done|]. cbn in Hfresh.
    apply orb_false_iff in Hfresh as [Hx Ht]. cbn. by rewrite Hx, IH. }
  assert (Hown : <["ttl" := AttrN new_ttl]> (queue_record id at_ old)
                 = queue_record id at_ new_ttl).
  { unfold queue_record.
    rewrite (insert_insert_ne _ "ttl" "workflow_run_id") by done.
    rewrite (insert_insert_ne _ "ttl" "enqueued_at") by done.
    by rewrite insert_singleton_eq. }
  by rewrite Hrest, Hown.
Qed.

Lemma first_arrival_run fuel table_name workflow_run_id github_repo w :
  Forall quiet (script w) →
  0 ≤ clock w →
  existsb (has_key workflow_run_id) (table w) = false →
  all_expired (int_timestamp (clock w)) (table w) →
  let now := clock w + dt (upcoming (script w)) in
  ∃ w' now_timestamp new_ttl,
    enqueue_and_wait (S fuel) table_name workflow_run_id github_repo w = (Ok Returned, w')
    ∧ table w' = (table w ++ [queue_record workflow_run_id (isoformat now) new_ttl])%list
    ∧ calls w' = (calls w ++
                  [PutItem table_name
                     (queue_record workflow_run_id (isoformat now)
                        (int_timestamp (datetime_add now WAITING_TTL)));
                   Scan table_name now_timestamp;
                   UpdateItem table_name workflow_run_id new_ttl])%list
    ∧ int_timestamp (clock w) + 28800 ≤ new_ttl
    ∧ Forall quiet (script w').
Proof.
  intros Hq Hclock Hfresh Hexp now0.
  apply quiet_upcoming in Hq as [(Ho1 & Hf1 & Hp1 & Hd1) Hq].
  apply quiet_upcoming in Hq as [(Ho2 & Hf2 & Hp2 & Hd2) Hq].
  apply quiet_upcoming in Hq as [(Ho3 & Hf3 & Hp3 & Hd3) Hq].
  apply quiet_upcoming in Hq as [(Ho4 & Hf4 & Hp4 & Hd4) Hq].
  apply quiet_upcoming in Hq as [(Ho5 & Hf5 & Hp5 & Hd5) Hq].
  apply quiet_upcoming in Hq as [(Ho6 & Hf6 & Hp6 & Hd6) Hq].
  apply quiet_upcoming in Hq as [(Ho7 & Hf7 & Hp7 & Hd7) Hq].
  apply quiet_upcoming in Hq as [(Ho8 & Hf8 & Hp8 & Hd8) Hq].
  rewrite enqueue_and_wait_unfold.
  rewrite register_fresh by done.
  cbn [table clock script calls stdout printed].
  set (now := clock w + dt (upcoming (script w))).
  set (record := queue_record workflow_run_id (isoformat now)
                   (int_timestamp (datetime_add now WAITING_TTL))).
  unfold mbind at 1, M_bind at 1. unfold time_time at 1. 
  unfold mbind at 1, M_bind at 1. unfold next_fate at 1, read_clock at 1.
  cbn [table clock script calls stdout].
  rewrite wait_loop_step.
  unfold iteration, time_time, scan_and_act, datetime_now, scan. run.
  set (d2 := dt (upcoming (tail (script w)))) in *.
  set (d3 := dt (upcoming (tail (tail (script w))))) in *.
  set (d4 := dt (upcoming (tail (tail (tail (script w)))))) in *.
  set (d5 := dt (upcoming (tail (tail (tail (tail (script w))))))) in *.
  assert (Hel : int_elapsed (now + d2 + d3 + d4) (now + d2 + d3) < seconds MAX_QUEUE_DUR).
  { unfold int_elapsed. replace (now + d2 + d3 + d4 - (now + d2 + d3)) with d4 by lia.
    rewrite Z.quot_div_nonneg by lia.
    apply Z.le_lt_trans with 60; [|by vm_compute].
    apply Z.div_le_upper_bound; lia. }
  destruct (Z.leb_spec (seconds MAX_QUEUE_DUR)
              (int_elapsed (now + d2 + d3 + d4) (now + d2 + d3))) as [?|_]; [lia|].
  run. rewrite Hf6, Ho3, Ho4, Ho5, Ho6. run.
  fold d5.
  set (ts := int_timestamp (now + d2 + d3 + d4 + d5)).
  assert (Hts1 : int_timestamp (clock w) ≤ ts).
  { unfold ts, int_timestamp, now. rewrite !Z.quot_div_nonneg by lia.
    apply Z.div_le_mono; lia. }
  assert (Hts2 : ts < int_timestamp (datetime_add now WAITING_TTL)).
  { rewrite lease_expiry; [|unfold now; lia|by vm_compute|by vm_compute].
    unfold ts, int_timestamp, now. rewrite !Z.quot_div_nonneg by lia.
    apply Z.lt_le_trans with ((clock w + dt (upcoming (script w))) / 1000000 + 241);
      [|assert (days WAITING_TTL * 86400 + seconds WAITING_TTL = 600) by (by vm_compute); lia].
    apply Z.div_lt_upper_bound; [lia|].
    pose proof (Z.mul_div_le (clock w + dt (upcoming (script w))) 1000000).
    pose proof (Z.mod_pos_bound (clock w + dt (upcoming (script w))) 1000000).
    pose proof (Z.div_mod (clock w + dt (upcoming (script w))) 1000000).
    lia. }
  unfold first_page. rewrite Hp6.
  rewrite List.filter_app, (all_expired_filter _ _ _ Hexp Hts1).
  cbn [List.filter app]. unfold live at 1, record at 1. rewrite queue_record_ttl.
  apply Z.ltb_lt in Hts2. rewrite Hts2.
  unfold record at 1. rewrite rank_and_act_alone.
  unfold start_running, datetime_now, update_item, printed. run.
  rewrite Hf8, Ho7, Ho8. run.
  eexists _, ts, _. split; [reflexivity|].
  cbn [table calls]. unfold record. rewrite set_ttl_own by done.
  split; [done|]. split; [by rewrite <- !app_assoc|].
  rewrite lease_expiry; [|unfold now; lia|by vm_compute|by vm_compute].
  assert (Hrun : days RUNNING_TTL * 86400 + seconds RUNNING_TTL = 28800) by (by vm_compute).
  split; [|exact Hq].
  rewrite Hrun. apply Z.add_le_mono_r.
  unfold int_timestamp, now. rewrite !Z.quot_div_nonneg by lia.
  apply Z.div_le_mono; lia.
Qed.

(** X11.  The whole of [enqueue_and_wait] for an entrant that finds a queue
    in which every lease has expired and no row under its id, while nobody
    else writes, no call of boto3 fails, the scan reads the whole table
    and each step takes at most a minute: it is let through in its first
    iteration.  It sends its record, one scan and the update to the long
    lease, and never sleeps; the table is then as it was with the
    entrant's record at its end, the [enqueued_at] being the time of
    registration and the lease ending at least eight hours after the
    start. *)
Theorem first_arrival_is_let_through fuel table_name workflow_run_id github_repo w :
  Forall quiet (script w) →
  0 ≤ clock w →
  existsb (has_key workflow_run_id) (table w) = false →
  all_expired (int_timestamp (clock w)) (table w) →
  let now := clock w + dt (upcoming (script w)) in
  ∃ w' now_timestamp new_ttl,
    enqueue_and_wait (S fuel) table_name workflow_run_id github_repo w = (Ok Returned, w')
    ∧ table w' = (table w ++ [queue_record workflow_run_id (isoformat now) new_ttl])%list
    ∧ calls w' = (calls w ++
                  [PutItem table_name
                     (queue_record workflow_run_id (isoformat now)
                        (int_timestamp (datetime_add now WAITING_TTL)));
                   Scan table_name now_timestamp;
                   UpdateItem table_name workflow_run_id new_ttl])%list
    ∧ int_timestamp (clock w) + 28800 ≤ new_ttl.
Proof.
  intros Hq Hclock Hfresh Hexp now.
  destruct (first_arrival_run fuel table_name workflow_run_id github_repo w
              Hq Hclock Hfresh Hexp)
    as (w' & ts & new_ttl & Hrun & Htable & Hcalls & Httl & _).
  by exists w', ts, new_ttl.
Qed.

(** X12.  Enqueue, then dequeue: for such an entrant, [main] with the
    command [enqueue] returns, and [main] with the command [dequeue]
    after it leaves the table exactly as the entrant found it; both end
    with exit status 0. *)
Theorem enqueue_then_dequeue_restores_the_table fuel table_name workflow_run_id
    github_repository w :
  Forall quiet (script w) →
  0 ≤ clock w →
  existsb (has_key workflow_run_id) (table w) = false →
  all_expired (int_timestamp (clock w)) (table w) →
  ∃ w1 w2,
    main (S fuel) (Enqueue table_name workflow_run_id github_repository) w
    = (Ok Returned, w1)
    ∧ main (S fuel) (Dequeue table_name workflow_run_id) w1 = (Ok Returned, w2)
    ∧ table w2 = table w
    ∧ exit_status (Ok Returned) = Some 0.
Proof.
  intros Hq Hclock Hfresh Hexp.
  destruct (first_arrival_run fuel table_name workflow_run_id github_repository w
              Hq Hclock Hfresh Hexp)
    as (w1 & ts & new_ttl & Hrun & Htable & _ & _ & Hq1).
  apply quiet_upcoming in Hq1 as [(Ho & Hf & _) _].
  destruct (dequeue_run table_name workflow_run_id w1)
    as (r2 & w2 & Hde & _ & _ & Ht2).
  rewrite Hf, Ho in Ht2. destruct Ht2 as (-> & Ht2 & _).
  exists w1, w2. split; [exact Hrun|]. split.
  - cbn [main]. unfold mbind, M_bind. by rewrite Hde.
  - split; [|reflexivity]. rewrite Ht2, Htable.
    unfold remove_key. rewrite List.filter_app. cbn [List.filter].
    rewrite has_key_queue_record. cbn [negb]. rewrite app_nil_r.
    by apply remove_key_absent.
Qed.

(** ** Every request of an execution *)

Lemma sends_refl Q w : sends Q w w.
Proof. exists []. by rewrite app_nil_r. Qed.

Lemma sends_trans Q w1 w2 w3 : sends Q w1 w2 → sends Q w2 w3 → sends Q w1 w3.
Proof.
  intros (s1 & H1 & Q1) (s2 & H2 & Q2). exists (s1 ++ s2)%list.
  split; [by rewrite H2, H1, app_assoc|by apply Forall_app].
Qed.

Lemma sends_fate Q : keeps (sends Q) next_fate.
Proof. intros w r w' [= <- <-]. exists []. cbn. by rewrite app_nil_r. Qed.

Lemma sends_send (Q : call → Prop) c : Q c → keeps (sends Q) (send c).
Proof. intros Hc w r w' [= <- <-]. exists [c]. cbn. split; [done|by constructor]. Qed.

Lemma sends_print Q m : keeps (sends Q) (print m).
Proof. intros w r w' [= <- <-]. exists []. cbn. by rewrite app_nil_r. Qed.

Lemma sends_table Q f : keeps (sends Q) (modify_table f).
Proof. intros w r w' [= <- <-]. exists []. cbn. by rewrite app_nil_r. Qed.

Lemma sends_clock Q us : keeps (sends Q) (advance_clock us).
Proof. intros w r w' [= <- <-]. exists []. cbn. by rewrite app_nil_r. Qed.

Ltac sends :=
  repeat first
    [ solve [auto 1 using sends_fate, sends_print, sends_table, sends_clock]
    | simple apply keeps_ret; exact (sends_refl _)
    | simple apply keeps_raise; exact (sends_refl _)
    | simple apply keeps_lift; exact (sends_refl _)
    | simple apply keeps_read_clock; exact (sends_refl _)
    | simple apply keeps_read_table; exact (sends_refl _)
    | simple apply sends_send; solve [cbn; auto]
    | simple apply keeps_bind; [exact (sends_trans _)| |intros ?]
    | simple apply keeps_try; [exact (sends_trans _)| |intros ? ? ?]
    | simple eapply keeps_except_ClientError; [|eassumption]; intros ?; cbv beta
    | match goal with
      | |- keeps _ (match ?x with _ => _ end) => destruct x
      | |- keeps _ (if ?x then _ else _) => destruct x
      | |- keeps _ (let _ := _ in _) => cbv zeta
      end ].

Section requests.
Context (table_name id : string) (github_repo : option string).

Lemma sends_datetime_now :
  keeps (sends (request_of_the_wait table_name id github_repo))
    datetime_now.
Proof. unfold datetime_now. sends. Qed.

Lemma sends_time_time :
  keeps (sends (request_of_the_wait table_name id github_repo))
    time_time.
Proof. unfold time_time. sends. Qed.

Lemma sends_time_sleep :
  keeps (sends (request_of_the_wait table_name id github_repo))
    (time_sleep (seconds POLL_INTERVAL)).
Proof. unfold time_sleep. sends. Qed.

Lemma sends_update_item new_ttl :
  keeps (sends (request_of_the_wait table_name id github_repo))
    (update_item table_name id new_ttl).
Proof. unfold update_item. sends. Qed.

Lemma sends_scan now_timestamp :
  keeps (sends (request_of_the_wait table_name id github_repo))
    (scan table_name now_timestamp).
Proof. unfold scan. sends. Qed.

Lemma sends_refresh_ttl :
  keeps (sends (request_of_the_wait table_name id github_repo))
    (refresh_ttl table_name id).
Proof.
  unfold refresh_ttl. pose proof sends_datetime_now. pose proof sends_update_item.
  sends.
Qed.

Lemma sends_start_running :
  keeps (sends (request_of_the_wait table_name id github_repo))
    (start_running table_name id).
Proof.
  unfold start_running. pose proof sends_datetime_now. pose proof sends_update_item.
  sends.
Qed.

Lemma sends_restart_workflow :
  keeps (sends (request_of_the_wait table_name id github_repo))
    (restart_workflow github_repo id).
Proof.
  unfold restart_workflow, subprocess_run.
  destruct (truthy github_repo) eqn:Hrepo; cbn [negb]; [|sends].
  cbv zeta. apply keeps_try; [exact (sends_trans _)| |].
  - sends.
  - intros e h He. destruct e; try done; injection He as <-; sends.
Qed.

Lemma sends_rank_and_act qp ws :
  keeps (sends (request_of_the_wait table_name id github_repo))
    (rank_and_act table_name id qp ws).
Proof.
  unfold rank_and_act, sys_exit.
  pose proof sends_start_running. pose proof sends_refresh_ttl. sends.
Qed.

Lemma sends_iteration start_time qp :
  keeps (sends (request_of_the_wait table_name id github_repo))
    (iteration table_name id github_repo start_time qp).
Proof.
  unfold iteration, scan_and_act, sys_exit.
  pose proof sends_time_time. pose proof sends_datetime_now. pose proof sends_scan.
  pose proof sends_rank_and_act. pose proof sends_restart_workflow.
  pose proof sends_time_sleep. sends.
Qed.

Lemma sends_wait_loop fuel start_time qp :
  keeps (sends (request_of_the_wait table_name id github_repo))
    (wait_loop fuel table_name id github_repo start_time qp).
Proof.
  revert qp. induction fuel as [|fuel IH]; intros qp; cbn [wait_loop]; [sends|].
  pose proof sends_iteration. sends.
Qed.

End requests.

(** X13.  Every request of an execution of [enqueue_and_wait], however it
    ends: first the conditional insert of a record with the entrant's id
    into its table, and after it only scans of that table, updates of the
    [ttl] under the entrant's own key in that table, sleeps of 60 seconds
    and, when a repository is given, the rerun of the entrant's own
    workflow run.  It never deletes, never inserts a second time, never
    names another table or another key. *)
Theorem enqueue_requests fuel table_name workflow_run_id github_repo w r w' :
  enqueue_and_wait fuel table_name workflow_run_id github_repo w = (r, w') →
  ∃ record sent,
    calls w' = (calls w ++ PutItem table_name record :: sent)%list
    ∧ run_id record = Ok workflow_run_id
    ∧ Forall (request_of_the_wait table_name workflow_run_id github_repo) sent.
Proof.
  rewrite enqueue_and_wait_unfold.
  set (w0 := printed _ w).
  destruct (register_run table_name workflow_run_id w0) as (r1 & w1 & Hreg & Hcalls).
  rewrite Hreg. intros Hrest. eexists.
  assert (Hid : ∀ at_ ttl, run_id (queue_record workflow_run_id at_ ttl)
                           = Ok workflow_run_id).
  { intros at_ ttl. unfold run_id, item_S. by rewrite queue_record_key. }
  destruct r1 as [[]|e].
  - assert (K : keeps (sends (request_of_the_wait table_name workflow_run_id github_repo))
                  (start_time ← time_time;
                   wait_loop fuel table_name workflow_run_id github_repo start_time None)).
    { pose proof (sends_time_time table_name workflow_run_id github_repo).
      pose proof (sends_wait_loop table_name workflow_run_id github_repo). sends. }
    apply K in Hrest as (sent & Hsent & HQ).
    exists sent. split; [|split; [apply Hid|exact HQ]].
    rewrite Hsent, Hcalls. unfold w0. cbn [calls printed].
    by rewrite <- app_assoc.
  - injection Hrest as <- <-. exists []. split; [|split; [apply Hid|constructor]].
    rewrite Hcalls. done.
Qed.

(** ** The order of the timestamps *)

Lemma compare_app s1 s2 t1 t2 :
  String.length s1 = String.length s2 →
  String.compare (s1 ++ t1) (s2 ++ t2)
  = lexicographic (String.compare s1 s2) (String.compare t1 t2).
Proof.
  revert s2. induction s1 as [|c s1 IH]; intros [|c' s2]; try done.
  intros [= Hlen].
  change (String c s1 ++ t1) with (String c (s1 ++ t1)).
  change (String c' s2 ++ t2) with (String c' (s2 ++ t2)).
  cbn [String.compare]. destruct (Ascii.compare c c'); [by apply IH|done|done].
Qed.

Lemma compare_cons c s t : String.compare (String c s) (String c t) = String.compare s t.
Proof.
  cbn. assert (Ascii.compare c c = Eq) as ->; [|done].
  unfold Ascii.compare. apply N.compare_refl.
Qed.

Lemma lex_divmod a b k :
  0 < k → lexicographic (a / k ?= b / k) (a mod k ?= b mod k) = (a ?= b).
Proof.
  intros Hk.
  pose proof (Z.div_mod a k). pose proof (Z.div_mod b k).
  pose proof (Z.mod_pos_bound a k Hk). pose proof (Z.mod_pos_bound b k Hk).
  destruct (Z.compare_spec (a / k) (b / k)) as [He|Hl|Hg]; cbn.
  - destruct (Z.compare_spec (a mod k) (b mod k)); symmetry.
    + apply Z.compare_eq_iff. lia.
    + apply Z.compare_lt_iff. nia.
    + apply Z.compare_gt_iff. nia.
  - symmetry. apply Z.compare_lt_iff. nia.
  - symmetry. apply Z.compare_gt_iff. nia.
Qed.

Lemma string_length_app (s t : string) :
  String.length (s ++ t) = (String.length s + String.length t)%nat.
Proof.
  induction s as [|c s IH]; [done|].
  change (String c s ++ t) with (String c (s ++ t)). cbn [String.length].
  by rewrite IH.
Qed.

Lemma zero_pad_length w n : String.length (zero_pad w n) = w.
Proof.
  revert n. induction w as [|w IH]; intros n; [done|].
  cbn [zero_pad]. rewrite string_length_app, IH. cbn. lia.
Qed.

Lemma digit_compare x y :
  0 ≤ x < 10 → 0 ≤ y < 10 → Ascii.compare (digit x) (digit y) = (x ?= y).
Proof.
  intros Hx Hy.
  assert (Ex : x = 0 ∨ x = 1 ∨ x = 2 ∨ x = 3 ∨ x = 4 ∨ x = 5 ∨ x = 6 ∨ x = 7
               ∨ x = 8 ∨ x = 9) by lia.
  assert (Ey : y = 0 ∨ y = 1 ∨ y = 2 ∨ y = 3 ∨ y = 4 ∨ y = 5 ∨ y = 6 ∨ y = 7
               ∨ y = 8 ∨ y = 9) by lia.
  repeat (destruct Ex as [->|Ex]); try subst x;
    repeat (destruct Ey as [->|Ey]); try subst y; reflexivity.
Qed.

Lemma zero_pad_compare w a b :
  0 ≤ a < 10 ^ Z.of_nat w → 0 ≤ b < 10 ^ Z.of_nat w →
  String.compare (zero_pad w a) (zero_pad w b) = (a ?= b).
Proof.
  revert a b. induction w as [|w IH]; intros a b Ha Hb.
  - cbn in *. symmetry. apply Z.compare_eq_iff. lia.
  - cbn [zero_pad]. rewrite compare_app by (by rewrite !zero_pad_length).
    rewrite Nat2Z.inj_succ, Z.pow_succ_r in Ha, Hb by lia.
    rewrite IH.
    + cbn [String.compare]. rewrite digit_compare by (apply Z.mod_pos_bound; lia).
      rewrite <- (lex_divmod a b 10) by lia.
      by destruct (a mod 10 ?= b mod 10).
    + split; [apply Z.div_pos; lia|apply Z.div_lt_upper_bound; lia].
    + split; [apply Z.div_pos; lia|apply Z.div_lt_upper_bound; lia].
Qed.

(** The three steps of [civil_from_days]: the era and the day of the era,
    the year and the day of the year, the month and the day of the month.
    Each keeps the order. *)
Lemma era_step n n' :
  n < n' →
  n / 146097 ≤ n' / 146097
  ∧ (n / 146097 = n' / 146097 → n - n / 146097 * 146097 < n' - n' / 146097 * 146097)
  ∧ 0 ≤ n - n / 146097 * 146097 < 146097.
Proof. intros. Z.to_euclidean_division_equations. lia. Qed.

Lemma year_step doe doe' yoe yoe' :
  0 ≤ doe < 146097 → 0 ≤ doe' < 146097 → doe < doe' →
  yoe = (doe - doe / 1460 + doe / 36524 - doe / 146096) / 365 →
  yoe' = (doe' - doe' / 1460 + doe' / 36524 - doe' / 146096) / 365 →
  yoe ≤ yoe'
  ∧ 0 ≤ yoe ≤ 399 ∧ 0 ≤ yoe' ≤ 399
  ∧ 0 ≤ doe - (365 * yoe + yoe / 4 - yoe / 100) ≤ 365
  ∧ 0 ≤ doe' - (365 * yoe' + yoe' / 4 - yoe' / 100) ≤ 365.
Proof. intros. Z.to_euclidean_division_equations. lia. Qed.

Lemma year_range doe yoe :
  0 ≤ doe < 146097 →
  yoe = (doe - doe / 1460 + doe / 36524 - doe / 146096) / 365 →
  0 ≤ yoe ≤ 399 ∧ 0 ≤ doe - (365 * yoe + yoe / 4 - yoe / 100) ≤ 365.
Proof. intros. Z.to_euclidean_division_equations. lia. Qed.

Lemma month_range doy mp d :
  0 ≤ doy ≤ 365 →
  mp = (5 * doy + 2) / 153 → d = doy - (153 * mp + 2) / 5 + 1 →
  0 ≤ mp ≤ 11 ∧ 1 ≤ d ≤ 31.
Proof. intros. Z.to_euclidean_division_equations. lia. Qed.

Lemma month_step doy doy' mp mp' d d' :
  0 ≤ doy → doy < doy' →
  mp = (5 * doy + 2) / 153 → d = doy - (153 * mp + 2) / 5 + 1 →
  mp' = (5 * doy' + 2) / 153 → d' = doy' - (153 * mp' + 2) / 5 + 1 →
  mp < mp' ∨ (mp = mp' ∧ d < d').
Proof. intros. Z.to_euclidean_division_equations. lia. Qed.

Lemma civil_ranges z y m d :
  civil_from_days z = (y, m, d) → 1 ≤ m ≤ 12 ∧ 1 ≤ d ≤ 31.
Proof.
  unfold civil_from_days. cbv zeta.
  set (n := z + 719468). set (era := n / 146097). set (doe := n - era * 146097).
  set (yoe := (doe - doe / 1460 + doe / 36524 - doe / 146096) / 365).
  set (doy := doe - (365 * yoe + yoe / 4 - yoe / 100)).
  set (mp := (5 * doy + 2) / 153).
  assert (Hdoe : 0 ≤ doe < 146097).
  { unfold doe, era. Z.to_euclidean_division_equations. lia. }
  destruct (year_range doe yoe Hdoe eq_refl) as [_ Hdoy]. fold doy in Hdoy.
  destruct (month_range doy mp _ Hdoy eq_refl eq_refl) as [Hmp Hd].
  intros [= <- <- <-]. split; [|exact Hd].
  destruct (Z.ltb_spec mp 10); lia.
Qed.

Lemma civil_key_mono z z' : z < z' → civil_key z < civil_key z'.
Proof.
  intros Hlt. unfold civil_key, civil_from_days. cbv zeta.
  set (n := z + 719468). set (era := n / 146097). set (doe := n - era * 146097).
  set (yoe := (doe - doe / 1460 + doe / 36524 - doe / 146096) / 365).
  set (doy := doe - (365 * yoe + yoe / 4 - yoe / 100)).
  set (mp := (5 * doy + 2) / 153).
  set (d := doy - (153 * mp + 2) / 5 + 1).
  set (n' := z' + 719468). set (era' := n' / 146097). set (doe' := n' - era' * 146097).
  set (yoe' := (doe' - doe' / 1460 + doe' / 36524 - doe' / 146096) / 365).
  set (doy' := doe' - (365 * yoe' + yoe' / 4 - yoe' / 100)).
  set (mp' := (5 * doy' + 2) / 153).
  set (d' := doy' - (153 * mp' + 2) / 5 + 1).
  destruct (era_step n n' ltac:(unfold n, n'; lia)) as (Hera & Hsame & Hdoe).
  destruct (era_step n' (n' + 1) ltac:(lia)) as (_ & _ & Hdoe').
  fold era era' in Hera, Hsame. fold era doe in Hdoe, Hsame.
  fold era' doe' in Hdoe', Hsame.
  destruct (year_range doe yoe Hdoe eq_refl) as [Hyoe Hdoy]. fold doy in Hdoy.
  destruct (year_range doe' yoe' Hdoe' eq_refl) as [Hyoe' Hdoy']. fold doy' in Hdoy'.
  destruct (month_range doy mp d Hdoy eq_refl eq_refl) as [Hmp Hd].
  destruct (month_range doy' mp' d' Hdoy' eq_refl eq_refl) as [Hmp' Hd'].
  assert (Horder : era * 400 + yoe < era' * 400 + yoe'
                   ∨ (era * 400 + yoe = era' * 400 + yoe'
                      ∧ (mp < mp' ∨ (mp = mp' ∧ d < d')))).
  { destruct (Z.eq_dec era era') as [Heq|Hne]; [|left; lia].
    specialize (Hsame Heq).
    destruct (year_step doe doe' yoe yoe' Hdoe Hdoe' Hsame eq_refl eq_refl)
      as (Hle & _).
    destruct (Z.eq_dec yoe yoe') as [Hy|Hy]; [|left; lia].
    right. split; [lia|].
    apply (month_step doy doy'); try done; [lia|].
    unfold doy, doy'. rewrite <- Hy. lia. }
  destruct (Z.ltb_spec mp 10), (Z.ltb_spec mp' 10);
    repeat match goal with |- context [?a <=? 2] => destruct (Z.leb_spec a 2) end;
    lia.
Qed.

Lemma civil_key_compare z z' : (civil_key z ?= civil_key z') = (z ?= z').
Proof.
  destruct (Z.compare_spec z z') as [->|Hlt|Hgt].
  - apply Z.compare_refl.
  - apply Z.compare_lt_iff. by apply civil_key_mono.
  - apply Z.compare_gt_iff. by apply civil_key_mono.
Qed.

Lemma lexicographic_assoc c1 c2 c3 :
  lexicographic (lexicographic c1 c2) c3 = lexicographic c1 (lexicographic c2 c3).
Proof. by destruct c1. Qed.

Lemma string_compare_refl (s : string) : String.compare s s = Eq.
Proof. induction s as [|a s IH]; [done|]. by rewrite compare_cons. Qed.

Lemma lexicographic_same (s : string) c : lexicographic (String.compare s s) c = c.
Proof. by rewrite string_compare_refl. Qed.

Lemma date_compare y m d y' m' d' :
  1 ≤ m ≤ 12 → 1 ≤ d ≤ 31 → 1 ≤ m' ≤ 12 → 1 ≤ d' ≤ 31 →
  lexicographic (y ?= y') (lexicographic (m ?= m') (d ?= d'))
  = ((y * 12 + m) * 32 + d ?= (y' * 12 + m') * 32 + d').
Proof.
  intros Hm Hd Hm' Hd'.
  destruct (Z.compare_spec y y'), (Z.compare_spec m m'), (Z.compare_spec d d');
    cbn; symmetry;
    first [ apply Z.compare_eq_iff; lia | apply Z.compare_lt_iff; lia
          | apply Z.compare_gt_iff; lia ].
Qed.

Lemma time_compare us us' :
  lexicographic (us / 1000000 / 3600 ?= us' / 1000000 / 3600)
    (lexicographic (us / 1000000 / 60 mod 60 ?= us' / 1000000 / 60 mod 60)
       (lexicographic (us / 1000000 mod 60 ?= us' / 1000000 mod 60)
          (us mod 1000000 ?= us' mod 1000000)))
  = (us ?= us').
Proof.
  rewrite <- (lex_divmod us us' 1000000) by lia.
  rewrite <- (lex_divmod (us / 1000000) (us' / 1000000) 60) by lia.
  rewrite <- (lex_divmod (us / 1000000 / 60) (us' / 1000000 / 60) 60) by lia.
  rewrite !Z.div_div by lia. change (60 * 60) with 3600.
  by rewrite !lexicographic_assoc.
Qed.

Lemma fraction_compare fa fb :
  0 ≤ fa < 1000000 → 0 ≤ fb < 1000000 →
  String.compare ((if fa =? 0 then "" else "." ++ zero_pad 6 fa) ++ "+00:00")
                 ((if fb =? 0 then "" else "." ++ zero_pad 6 fb) ++ "+00:00")
  = (fa ?= fb).
Proof.
  intros Ha Hb.
  destruct (Z.eqb_spec fa 0) as [->|Hna], (Z.eqb_spec fb 0) as [->|Hnb].
  - reflexivity.
  - symmetry. apply Z.compare_lt_iff. lia.
  - symmetry. apply Z.compare_gt_iff. lia.
  - rewrite compare_app.
    + change ("." ++ zero_pad 6 fa) with (String "." (zero_pad 6 fa)).
      change ("." ++ zero_pad 6 fb) with (String "." (zero_pad 6 fb)).
      rewrite compare_cons, zero_pad_compare by (change (10 ^ Z.of_nat 6) with 1000000; lia).
      by destruct (fa ?= fb).
    + change ("." ++ zero_pad 6 fa) with (String "." (zero_pad 6 fa)).
      change ("." ++ zero_pad 6 fb) with (String "." (zero_pad 6 fb)).
      cbn [String.length]. by rewrite !zero_pad_length.
Qed.

Lemma civil_key_mono_le z z' : z ≤ z' → civil_key z ≤ civil_key z'.
Proof.
  intros Hle. destruct (Z.eq_dec z z') as [->|Hne]; [apply Z.le_refl|].
  apply Z.lt_le_incl, civil_key_mono. lia.
Qed.

Lemma civil_key_eq z y m d :
  civil_from_days z = (y, m, d) → civil_key z = (y * 12 + m) * 32 + d.
Proof. unfold civil_key. by intros ->. Qed.

Lemma civil_key_epoch : civil_key 0 = 756513.
Proof. vm_compute. reflexivity. Qed.

Lemma civil_key_last : civil_key 2932896 = 3840031.
Proof. vm_compute. reflexivity. Qed.

Lemma civil_year_range a y m d :
  0 ≤ a ≤ datetime_max → civil_from_days (a / 86400000000) = (y, m, d) →
  1970 ≤ y ≤ 9999.
Proof.
  intros Ha E. destruct (civil_ranges _ _ _ _ E) as [Hm Hd].
  assert (Hday : 0 ≤ a / 86400000000 ≤ 2932896).
  { unfold datetime_max in Ha. Z.to_euclidean_division_equations. lia. }
  pose proof (civil_key_mono_le _ _ (proj1 Hday)) as Hlo.
  pose proof (civil_key_mono_le _ _ (proj2 Hday)) as Hhi.
  rewrite civil_key_epoch, (civil_key_eq _ _ _ _ E) in Hlo.
  rewrite civil_key_last, (civil_key_eq _ _ _ _ E) in Hhi. lia.
Qed.

Lemma isoformat_compare a b :
  0 ≤ a ≤ datetime_max → 0 ≤ b ≤ datetime_max →
  String.compare (isoformat a) (isoformat b) = (a ?= b).
Proof.
  intros Ha Hb.
  unfold isoformat. cbv zeta.
  destruct (civil_from_days (a / 86400000000)) as [[y m] d] eqn:Ea.
  destruct (civil_from_days (b / 86400000000)) as [[y' m'] d'] eqn:Eb.
  destruct (civil_ranges _ _ _ _ Ea) as [Hm Hd].
  destruct (civil_ranges _ _ _ _ Eb) as [Hm' Hd'].
  pose proof (civil_year_range _ _ _ _ Ha Ea) as Hy.
  pose proof (civil_year_range _ _ _ _ Hb Eb) as Hy'.
  set (us := a mod 86400000000). set (us' := b mod 86400000000).
  assert (Hus : 0 ≤ us < 86400000000) by (apply Z.mod_pos_bound; lia).
  assert (Hus' : 0 ≤ us' < 86400000000) by (apply Z.mod_pos_bound; lia).
  repeat rewrite compare_app by (rewrite ?zero_pad_length; reflexivity).
  rewrite fraction_compare by (apply Z.mod_pos_bound; lia).
  rewrite !lexicographic_same.
  rewrite !zero_pad_compare;
    try (change (10 ^ Z.of_nat 4) with 10000; lia);
    try (change (10 ^ Z.of_nat 2) with 100; lia);
    try (change (10 ^ Z.of_nat 2) with 100; Z.to_euclidean_division_equations; lia).
  rewrite time_compare.
  rewrite <- (lex_divmod a b 86400000000) by lia. fold us us'.
  rewrite <- (civil_key_compare (a / 86400000000) (b / 86400000000)).
  rewrite (civil_key_eq _ _ _ _ Ea), (civil_key_eq _ _ _ _ Eb).
  rewrite <- date_compare by done.
  by rewrite !lexicographic_assoc.
Qed.

Lemma isoformat_leb a b :
  0 ≤ a ≤ datetime_max → 0 ≤ b ≤ datetime_max →
  String.leb (isoformat a) (isoformat b) = true ↔ a ≤ b.
Proof.
  intros Ha Hb. unfold String.leb. rewrite isoformat_compare by done.
  destruct (Z.compare_spec a b); split; intros; try done; lia.
Qed.

(** X14.  The timestamps sort as the times they were taken at: for two
    instants of the years 1970 to 9999, the strings [isoformat] gives
    compare, character by character, as the instants do.  So the stable
    sort on [enqueued_at] puts a record written earlier before one written
    later, two records have the same key only when written in the same
    microsecond, and a whole second sorts before its own fractions
    (['+'] is before ['.']). *)
Theorem isoformat_keeps_the_order a b :
  0 ≤ a ≤ datetime_max → 0 ≤ b ≤ datetime_max →
  String.compare (isoformat a) (isoformat b) = (a ?= b)
  ∧ (String.leb (isoformat a) (isoformat b) = true ↔ a ≤ b)
  ∧ (isoformat a = isoformat b ↔ a = b).
Proof.
  intros Ha Hb. split; [by apply isoformat_compare|].
  split; [by apply isoformat_leb|].
  split; [|by intros ->].
  intros Heq. apply Z.compare_eq_iff.
  rewrite <- (isoformat_compare a b Ha Hb), Heq.
  apply string_compare_refl.
Qed.

(** X15.  The queue is first come, first served: after the sort of line
    165, a record stands before another only if it was registered at the
    same instant or earlier, whatever the order in which the scan returned
    them; in particular the record at the front was registered no later
    than any other record of the scan. *)
Theorem queue_is_first_come_first_served all_workflows sorted :
  list_sort enqueued_at all_workflows = Ok sorted →
  StronglySorted (λ x y, ∀ tx ty, registered_at tx x → registered_at ty y → tx ≤ ty)
    sorted
  ∧ ∀ front rest, sorted = front :: rest →
      ∀ t_front x t, registered_at t_front front → In x all_workflows →
        registered_at t x → t_front ≤ t.
Proof.
  intros Hs.
  assert (Horder : ∀ x y tx ty, not_after x y → registered_at tx x →
                     registered_at ty y → tx ≤ ty).
  { intros x y tx ty (ax & ay & Hax & Hay & Hle) [Htx Hx] [Hty Hy].
    assert (ax = isoformat tx) as -> by congruence.
    assert (ay = isoformat ty) as -> by congruence.
    by apply (isoformat_leb tx ty Htx Hty). }
  pose proof (list_sort_ascending _ _ Hs) as Hsorted.
  split.
  - clear Hs. induction Hsorted as [|x s Hs IH Hx]; constructor; [done|].
    eapply Forall_impl; [exact Hx|]. intros y Hxy tx ty. by apply Horder.
  - intros front rest -> tf x t Hf Hx Ht.
    apply (Permutation_in _ (Permutation_sym (list_sort_perm _ _ _ Hs))) in Hx.
    destruct Hx as [<-|Hx].
    + apply (Horder front front); try done.
      destruct Hf as [_ Hf]. exists (isoformat tf), (isoformat tf).
      repeat (split; [done|]). apply string_leb_refl.
    + inversion Hsorted as [|? ? _ Hall]; subst.
      rewrite List.Forall_forall in Hall. by eapply Horder; [apply Hall| |].
Qed.

(** ** The further properties at work *)

Lemma failed_scan_is_retried_witness :
  (scan_fails "ci-queue" at_22_13_22 scan_throttled "ProvisionedThroughputExceededException" scan_throttled_scanned)
  ∧ (∃ w',
    iteration "ci-queue" "E1" None at_22_13_22 None scan_throttled
    = (Ok (Next None), w')
    ∧ calls w' = (calls scan_throttled_scanned ++ [Sleep (seconds POLL_INTERVAL)])%list
    ∧ (∃ now_timestamp, last (calls scan_throttled_scanned) = Some (Scan "ci-queue" now_timestamp))
    ∧ table w' = others (upcoming (script scan_throttled_scanned)) (table scan_throttled_scanned)
    ∧ stdout w' = (stdout scan_throttled_scanned ++ [MsgErrorChecking (ClientError "ProvisionedThroughputExceededException")])%list
    ∧ ∀ fuel,
        wait_loop (S fuel) "ci-queue" "E1" None at_22_13_22
          None scan_throttled
        = wait_loop fuel "ci-queue" "E1" None at_22_13_22
            None w').
Proof.
  assert (H1 : scan_fails "ci-queue" at_22_13_22 scan_throttled "ProvisionedThroughputExceededException" scan_throttled_scanned).
  { unfold scan_fails. eexists _, _, _, _. repeat split. }
  repeat (split; [assumption|]).
  apply (failed_scan_is_retried "ci-queue" "E1" None at_22_13_22 None scan_throttled "ProvisionedThroughputExceededException" scan_throttled_scanned); assumption.
Defined.

Lemma scanned_item_without_enqueued_at_witness :
  (scans "ci-queue" at_22_13_22 row_without_enqueued_at at_22_13_22 [record_E1; row_E3] row_without_enqueued_at_scanned)
  ∧ (In row_E3 [record_E1; row_E3])
  ∧ (enqueued_at row_E3 = Raise (KeyError "enqueued_at"))
  ∧ (∃ key,
    iteration "ci-queue" "E1" None at_22_13_22 None row_without_enqueued_at
    = (Raise (KeyError key), row_without_enqueued_at_scanned)
    ∧ (key = "enqueued_at" ∨ key = "S")
    ∧ (∀ fuel,
         wait_loop (S fuel) "ci-queue" "E1" None at_22_13_22
           None row_without_enqueued_at
         = (Raise (KeyError key), row_without_enqueued_at_scanned))
    ∧ exit_status (Raise (KeyError key)) = Some 1).
Proof.
  assert (H1 : scans "ci-queue" at_22_13_22 row_without_enqueued_at at_22_13_22 [record_E1; row_E3] row_without_enqueued_at_scanned).
  { unfold scans. eexists _, _, _. repeat split. }
  assert (H2 : In row_E3 [record_E1; row_E3]).
  { right; left; reflexivity. }
  assert (H3 : enqueued_at row_E3 = Raise (KeyError "enqueued_at")).
  { reflexivity. }
  repeat (split; [assumption|]).
  apply (scanned_item_without_enqueued_at "ci-queue" "E1" None at_22_13_22 None row_without_enqueued_at at_22_13_22 ([record_E1; row_E3]) row_without_enqueued_at_scanned row_E3 ((KeyError "enqueued_at"))); assumption.
Defined.

Lemma wait_is_bounded_witness :
  (steady (script two_waiting))
  ∧ (∃ r w',
    r ≠ Ok Waiting
    ∧ ∀ fuel, (331 ≤ fuel)%nat →
        enqueue_and_wait fuel "ci-queue" "E2" None two_waiting = (r, w')).
Proof.
  assert (H1 : steady (script two_waiting)).
  { constructor. }
  repeat (split; [assumption|]).
  apply (wait_is_bounded "ci-queue" "E2" None two_waiting); assumption.
Defined.

Lemma return_means_let_through_witness :
  (enqueue_and_wait 1%nat "ci-queue" "E1" None two_waiting = (Ok Returned, (enqueue_and_wait 1 "ci-queue" "E1" None two_waiting).2))
  ∧ (∃ new_ttl,
    last (calls (enqueue_and_wait 1 "ci-queue" "E1" None two_waiting).2) = Some (UpdateItem "ci-queue" "E1" new_ttl)
    ∧ existsb (has_key "E1") (table (enqueue_and_wait 1 "ci-queue" "E1" None two_waiting).2) = true
    ∧ (∀ it ts, In it (table (enqueue_and_wait 1 "ci-queue" "E1" None two_waiting).2) → has_key "E1" it = true →
         it !! "ttl" = Some (AttrN new_ttl) ∧ live ts it = (ts <? new_ttl))
    ∧ last (stdout (enqueue_and_wait 1 "ci-queue" "E1" None two_waiting).2) = Some (MsgUpdatedTTL 19800)).
Proof.
  assert (H1 : enqueue_and_wait 1%nat "ci-queue" "E1" None two_waiting = (Ok Returned, (enqueue_and_wait 1 "ci-queue" "E1" None two_waiting).2)).
  { vm_compute. reflexivity. }
  repeat (split; [assumption|]).
  apply (return_means_let_through 1%nat "ci-queue" "E1" None two_waiting ((enqueue_and_wait 1 "ci-queue" "E1" None two_waiting).2)); assumption.
Defined.


Lemma printed_queue_is_the_sorted_scan_witness :
  (scans "ci-queue" at_22_13_22 two_waiting at_22_13_22 [record_E1; record_E2] two_waiting_scanned)
  ∧ ([record_E1; record_E2] ≠ [])
  ∧ (Forall is_record [record_E1; record_E2])
  ∧ (∃ sorted ids,
    sorted ≡ₚ [record_E1; record_E2]
    ∧ StronglySorted not_after sorted
    ∧ List.map run_id sorted = List.map Ok ids
    ∧ In (MsgQueue ids)
         (stdout (iteration "ci-queue" "E1" None at_22_13_22
                    None two_waiting).2)
    ∧ ∃ first_workflow_id,
        head ids = Some first_workflow_id
        ∧ In (MsgFirstInQueue first_workflow_id)
             (stdout (iteration "ci-queue" "E1" None at_22_13_22
                        None two_waiting).2)).
Proof.
  assert (H1 : scans "ci-queue" at_22_13_22 two_waiting at_22_13_22 [record_E1; record_E2] two_waiting_scanned).
  { unfold scans. eexists _, _, _. repeat split. }
  assert (H2 : [record_E1; record_E2] ≠ []).
  { discriminate. }
  assert (H3 : Forall is_record [record_E1; record_E2]).
  { repeat constructor; eexists _, _; split; reflexivity. }
  repeat (split; [assumption|]).
  apply (printed_queue_is_the_sorted_scan "ci-queue" "E1" None at_22_13_22 None two_waiting at_22_13_22 ([record_E1; record_E2]) two_waiting_scanned); assumption.
Defined.

Lemma waiting_entrant_keeps_its_place_witness :
  (scans "ci-queue" at_22_13_22 two_waiting at_22_13_22 [record_E1; record_E2] two_waiting_scanned)
  ∧ (Forall is_record [record_E1; record_E2])
  ∧ (list_sort enqueued_at [record_E1; record_E2] = Ok (record_E1 :: [record_E2]))
  ∧ (run_id record_E1 ≠ Ok "E2")
  ∧ ((∃ x, In x [record_E1; record_E2] ∧ run_id x = Ok "E2"))
  ∧ (∃ (i : nat) own r w',
    (0 < i)%nat
    ∧ (record_E1 :: [record_E2]) !! i = Some own
    ∧ run_id own = Ok "E2"
    ∧ (∀ (j : nat) y, (j < i)%nat → (record_E1 :: [record_E2]) !! j = Some y →
         run_id y ≠ Ok "E2")
    ∧ iteration "ci-queue" "E2" None at_22_13_22 None two_waiting
      = (r, w')
    ∧ In (MsgQueuePosition (Z.of_nat i + 1)) (stdout w')
    ∧ match uncaught (update_fate two_waiting_scanned) with
      | None =>
          r = Ok (Next (Some (Z.of_nat i + 1)))
          ∧ calls w' = (calls two_waiting_scanned ++ [renewal "ci-queue" "E2" two_waiting_scanned;
                                     Sleep (seconds POLL_INTERVAL)])%list
      | Some e =>
          r = Raise e
          ∧ calls w' = (calls two_waiting_scanned ++ [renewal "ci-queue" "E2" two_waiting_scanned])%list
      end).
Proof.
  assert (H1 : scans "ci-queue" at_22_13_22 two_waiting at_22_13_22 [record_E1; record_E2] two_waiting_scanned).
  { unfold scans. eexists _, _, _. repeat split. }
  assert (H2 : Forall is_record [record_E1; record_E2]).
  { repeat constructor; eexists _, _; split; reflexivity. }
  assert (H3 : list_sort enqueued_at [record_E1; record_E2] = Ok (record_E1 :: [record_E2])).
  { reflexivity. }
  assert (H4 : run_id record_E1 ≠ Ok "E2").
  { discriminate. }
  assert (H5 : (∃ x, In x [record_E1; record_E2] ∧ run_id x = Ok "E2")).
  { exists record_E2. split; [right; left; reflexivity|reflexivity]. }
  repeat (split; [assumption|]).
  apply (waiting_entrant_keeps_its_place "ci-queue" "E2" None at_22_13_22 None two_waiting at_22_13_22 ([record_E1; record_E2]) two_waiting_scanned record_E1 ([record_E2])); assumption.
Defined.

Lemma first_arrival_is_let_through_witness :
  (Forall quiet (script only_expired))
  ∧ (0 ≤ clock only_expired)
  ∧ (existsb (has_key "E1") (table only_expired) = false)
  ∧ (all_expired (int_timestamp (clock only_expired)) (table only_expired))
  ∧ (let at_22_13_22 := clock only_expired + dt (upcoming (script only_expired)) in
  ∃ w' now_timestamp new_ttl,
    enqueue_and_wait (S 0%nat) "ci-queue" "E1" None only_expired = (Ok Returned, w')
    ∧ table w' = (table only_expired ++ [queue_record "E1" (isoformat at_22_13_22) new_ttl])%list
    ∧ calls w' = (calls only_expired ++
                  [PutItem "ci-queue"
                     (queue_record "E1" (isoformat at_22_13_22)
                        (int_timestamp (datetime_add at_22_13_22 WAITING_TTL)));
                   Scan "ci-queue" now_timestamp;
                   UpdateItem "ci-queue" "E1" new_ttl])%list
    ∧ int_timestamp (clock only_expired) + 28800 ≤ new_ttl).
Proof.
  assert (H1 : Forall quiet (script only_expired)).
  { repeat constructor. }
  assert (H2 : 0 ≤ clock only_expired).
  { vm_compute. discriminate. }
  assert (H3 : existsb (has_key "E1") (table only_expired) = false).
  { reflexivity. }
  assert (H4 : all_expired (int_timestamp (clock only_expired)) (table only_expired)).
  { repeat constructor. }
  repeat (split; [assumption|]).
  apply (first_arrival_is_let_through 0%nat "ci-queue" "E1" None only_expired); assumption.
Defined.

Lemma enqueue_then_dequeue_restores_the_table_witness :
  (Forall quiet (script only_expired))
  ∧ (0 ≤ clock only_expired)
  ∧ (existsb (has_key "E1") (table only_expired) = false)
  ∧ (all_expired (int_timestamp (clock only_expired)) (table only_expired))
  ∧ (∃ w1 w2,
    main (S 0%nat) (Enqueue "ci-queue" "E1" None) only_expired
    = (Ok Returned, w1)
    ∧ main (S 0%nat) (Dequeue "ci-queue" "E1") w1 = (Ok Returned, w2)
    ∧ table w2 = table only_expired
    ∧ exit_status (Ok Returned) = Some 0).
Proof.
  assert (H1 : Forall quiet (script only_expired)).
  { repeat constructor. }
  assert (H2 : 0 ≤ clock only_expired).
  { vm_compute. discriminate. }
  assert (H3 : existsb (has_key "E1") (table only_expired) = false).
  { reflexivity. }
  assert (H4 : all_expired (int_timestamp (clock only_expired)) (table only_expired)).
  { repeat constructor. }
  repeat (split; [assumption|]).
  apply (enqueue_then_dequeue_restores_the_table 0%nat "ci-queue" "E1" None only_expired); assumption.
Defined.

Lemma enqueue_requests_witness :
  (enqueue_and_wait 1%nat "ci-queue" "E1" None two_waiting = ((Ok Returned), (enqueue_and_wait 1 "ci-queue" "E1" None two_waiting).2))
  ∧ (∃ record sent,
    calls (enqueue_and_wait 1 "ci-queue" "E1" None two_waiting).2 = (calls two_waiting ++ PutItem "ci-queue" record :: sent)%list
    ∧ run_id record = Ok "E1"
    ∧ Forall (request_of_the_wait "ci-queue" "E1" None) sent).
Proof.
  assert (H1 : enqueue_and_wait 1%nat "ci-queue" "E1" None two_waiting = ((Ok Returned), (enqueue_and_wait 1 "ci-queue" "E1" None two_waiting).2)).
  { vm_compute. reflexivity. }
  repeat (split; [assumption|]).
  apply (enqueue_requests 1%nat "ci-queue" "E1" None two_waiting ((Ok Returned)) ((enqueue_and_wait 1 "ci-queue" "E1" None two_waiting).2)); assumption.
Defined.

Lemma isoformat_keeps_the_order_witness :
  (0 ≤ at_22_13_20 ≤ datetime_max)
  ∧ (0 ≤ at_22_13_22 ≤ datetime_max)
  ∧ (String.compare (isoformat at_22_13_20) (isoformat at_22_13_22) = (at_22_13_20 ?= at_22_13_22)
  ∧ (String.leb (isoformat at_22_13_20) (isoformat at_22_13_22) = true ↔ at_22_13_20 ≤ at_22_13_22)
  ∧ (isoformat at_22_13_20 = isoformat at_22_13_22 ↔ at_22_13_20 = at_22_13_22)).
Proof.
  assert (H1 : 0 ≤ at_22_13_20 ≤ datetime_max).
  { vm_compute. split; discriminate. }
  assert (H2 : 0 ≤ at_22_13_22 ≤ datetime_max).
  { vm_compute. split; discriminate. }
  repeat (split; [assumption|]).
  apply (isoformat_keeps_the_order at_22_13_20 at_22_13_22); assumption.
Defined.

Lemma queue_is_first_come_first_served_witness :
  (list_sort enqueued_at [record_E2; record_E1] = Ok [record_E1; record_E2])
  ∧ (StronglySorted (λ x y, ∀ tx ty, registered_at tx x → registered_at ty y → tx ≤ ty)
    [record_E1; record_E2]
  ∧ ∀ front rest, [record_E1; record_E2] = front :: rest →
      ∀ t_front x t, registered_at t_front front → In x [record_E2; record_E1] →
        registered_at t x → t_front ≤ t).
Proof.
  assert (H1 : list_sort enqueued_at [record_E2; record_E1] = Ok [record_E1; record_E2]).
  { reflexivity. }
  repeat (split; [assumption|]).
  apply (queue_is_first_come_first_served ([record_E2; record_E1]) ([record_E1; record_E2])); assumption.
Defined.
